(** * Error-trace pretty printer / parser of [web/reports/mea/wrapper.py]

    A shallow embedding of [process_args], [error_trace_pretty_print] and
    [error_trace_pretty_parse], with the Python values, string operations
    and regular expressions they rely on, followed by the properties of the
    printer, the parser and the argument canonicalisation.

    Conventions of the embedding:
    - a Python [str] is a [string] of 7-bit ASCII characters (text with
      code points above 127 is outside the model);
    - a Python list used as a stack keeps its top at the head;
    - an exception is the left injection of [result];
    - the "thread" assignment of the printer's first loop is visible to the
      caller, so the printer returns the caller's list as it is afterwards. *)

From Stdlib Require Import ZArith Ascii String List Lia DecimalString DecimalPos DecimalZ.
From stdpp Require Import gmap strings list sorting.

Local Open Scope Z_scope.

(* ===================================================================== *)
(** * Python values *)
(* ===================================================================== *)

(** The scalar values an element field can hold. *)
Inductive pyval : Type :=
  | VNone
  | VBool (b : bool)
  | VInt (z : Z)
  | VStr (s : string).

Global Instance pyval_eq_dec : EqDecision pyval.
Proof. solve_decision. Defined.

Inductive exn : Type :=
  | IndexError                 (* pop from empty list *)
  | ValueError (msg : string)  (* int() of a non-number, or the parser's own error *)
  | TypeError.                 (* int(None) *)

Definition result (A : Type) : Type := exn + A.
Definition Ok {A} (a : A) : result A := inr a.
Definition Raise {A} (e : exn) : result A := inl e.

Definition rbind {A B} (m : result A) (f : A -> result B) : result B :=
  match m with
  | inl e => inl e
  | inr a => f a
  end.

Notation "'let!' x ':=' m 'in' k" := (rbind m (fun x => k))
  (at level 10, x pattern, m at level 100, k at level 200).

(** ** Characters *)

Definition TAB : ascii := "009"%char.
Definition NL : ascii := "010"%char.

Definition code (c : ascii) : N := N_of_ascii c.

(** [str.isspace] on ASCII: tab, the line breaks, the separators 28..31
    and the blank.  [\s] of [re] is the same class. *)
Definition is_space (c : ascii) : bool :=
  ((9 <=? code c) && (code c <=? 13) || (28 <=? code c) && (code c <=? 32))%N.

(** [\d] on ASCII. *)
Definition is_digit (c : ascii) : bool :=
  ((48 <=? code c) && (code c <=? 57))%N.

(** [\w] on ASCII: letters, digits and the underscore. *)
Definition is_word (c : ascii) : bool :=
  (is_digit c || (65 <=? code c) && (code c <=? 90)
   || (97 <=? code c) && (code c <=? 122) || (code c =? 95))%N.

(** The characters [str.splitlines] breaks a line at. *)
Definition is_linebreak (c : ascii) : bool :=
  ((10 <=? code c) && (code c <=? 13) || (28 <=? code c) && (code c <=? 30))%N.

(** [.] of [re] (without DOTALL). *)
Definition is_dot (c : ascii) : bool := negb (Ascii.eqb c NL).

(** ** Strings *)

Fixpoint str_forallb (p : ascii -> bool) (s : string) : bool :=
  match s with
  | EmptyString => true
  | String c s' => p c && str_forallb p s'
  end.

Fixpoint str_rep (s : string) (n : nat) : string :=
  match n with
  | O => ""
  | S n' => s +:+ str_rep s n'
  end.

(** [s * n]: the empty string when [n] is not positive. *)
Definition str_mul (s : string) (n : Z) : string := str_rep s (Z.to_nat n).

(** [len(s)] *)
Definition len (s : string) : Z := Z.of_nat (String.length s).

Fixpoint lstrip (s : string) : string :=
  match s with
  | String c s' => if is_space c then lstrip s' else s
  | EmptyString => ""
  end.

Fixpoint rstrip (s : string) : string :=
  match s with
  | String c s' =>
      match rstrip s' with
      | EmptyString => if is_space c then "" else String c ""
      | r => String c r
      end
  | EmptyString => ""
  end.

(** [s.strip()] *)
Definition strip (s : string) : string := rstrip (lstrip s).

(** [s.splitlines()]: a carriage return followed by a line feed is one
    break, and a break at the very end opens no further line. *)
Fixpoint splitlines (s : string) : list string :=
  match s with
  | EmptyString => []
  | String c s' =>
      if is_linebreak c then
        match s' with
        | String c' s'' =>
            if Ascii.eqb c "013" && Ascii.eqb c' NL
            then "" :: splitlines s''
            else "" :: splitlines s'
        | EmptyString => [""]
        end
      else
        match splitlines s' with
        | [] => [String c ""]
        | l :: ls => String c l :: ls
        end
  end.

Fixpoint split_on (sep : ascii) (s : string) : list string :=
  match s with
  | EmptyString => [""]
  | String c s' =>
      if Ascii.eqb c sep then "" :: split_on sep s'
      else match split_on sep s' with
           | [] => [String c ""]
           | w :: ws => String c w :: ws
           end
  end.

Fixpoint join (sep : string) (l : list string) : string :=
  match l with
  | [] => ""
  | [w] => w
  | w :: ws => w +:+ sep +:+ join sep ws
  end.

(** [str(z)] for an integer. *)
Definition str_of_Z (z : Z) : string := NilZero.string_of_int (Z.to_int z).

(** [str(v)], which is also what ["{}".format(v)] prints. *)
Definition py_str (v : pyval) : string :=
  match v with
  | VNone => "None"
  | VBool true => "True"
  | VBool false => "False"
  | VInt z => str_of_Z z
  | VStr s => s
  end.

(** [a == b]: booleans compare as the integers 0 and 1. *)
Definition py_eq (a b : pyval) : bool :=
  match a, b with
  | VNone, VNone => true
  | VBool x, VBool y => Bool.eqb x y
  | VInt x, VInt y => x =? y
  | VBool x, VInt y | VInt y, VBool x => (if x then 1 else 0) =? y
  | VStr x, VStr y => String.eqb x y
  | _, _ => false
  end.

(** Truth value of [if v:]. *)
Definition py_truthy (v : pyval) : bool :=
  match v with
  | VNone => false
  | VBool b => b
  | VInt z => negb (z =? 0)
  | VStr s => negb (String.eqb s "")
  end.

Definition digit_val (c : ascii) : Z := Z.of_N (code c) - 48.

(** The digits of an integer literal: single underscores are allowed
    between digits. *)
Fixpoint int_digits (acc : Z) (s : string) : option Z :=
  match s with
  | EmptyString => Some acc
  | String c s' =>
      if is_digit c then int_digits (10 * acc + digit_val c) s'
      else if Ascii.eqb c "_" then
        match s' with
        | String c' _ => if is_digit c' then int_digits acc s' else None
        | EmptyString => None
        end
      else None
  end.

Definition int_unsigned (s : string) : option Z :=
  match s with
  | String c _ => if is_digit c then int_digits 0 s else None
  | EmptyString => None
  end.

(** The white space [int] skips around a literal: tab, line feed, vertical
    tab, form feed, carriage return and the blank.  The separators 28..31,
    which [str.strip] removes, are not among them. *)
Definition is_int_space (c : ascii) : bool :=
  ((9 <=? code c) && (code c <=? 13) || (code c =? 32))%N.

Fixpoint int_lstrip (s : string) : string :=
  match s with
  | String c s' => if is_int_space c then int_lstrip s' else s
  | EmptyString => ""
  end.

Fixpoint int_rstrip (s : string) : string :=
  match s with
  | String c s' =>
      match int_rstrip s' with
      | EmptyString => if is_int_space c then "" else String c ""
      | r => String c r
      end
  | EmptyString => ""
  end.

(** [int(s)] for a string: white space around, an optional sign, digits. *)
Definition int_of_str (s : string) : option Z :=
  match int_rstrip (int_lstrip s) with
  | String "-" s' => Z.opp <$> int_unsigned s'
  | String "+" s' => int_unsigned s'
  | s' => int_unsigned s'
  end.

(** [int(v)] *)
Definition py_int (v : pyval) : result Z :=
  match v with
  | VNone => Raise TypeError
  | VBool b => Ok (if b then 1 else 0)
  | VInt z => Ok z
  | VStr s =>
      match int_of_str s with
      | Some z => Ok z
      | None => Raise (ValueError ("invalid literal for int() with base 10: '" +:+ s +:+ "'"))
      end
  end.


(* ===================================================================== *)
(** * Regular expressions *)
(* ===================================================================== *)

(** The three patterns of the parser are sequences of single-character
    classes, each taken once or under a greedy [*], [+] or [?], some of them
    captured as a group, and closed by [$].  [re.match] anchors them at the
    start of the line and explores the alternatives in the order of a
    backtracking matcher: the longest repetition first. *)

Inductive quant : Type := One | Star | Plus | Opt.

Record atom : Type := Atom {
  a_cls : ascii -> bool;
  a_quant : quant;
  a_group : bool
}.

(** [$]: the end of the string, or just before a final line feed. *)
Definition at_end (s : string) : bool :=
  match s with
  | EmptyString => true
  | String c EmptyString => Ascii.eqb c NL
  | _ => false
  end.

(** Greedy repetition of a class: [k m rest] continues with the matched
    text [m]; a shorter repetition is tried when the longer one fails. *)
Fixpoint greedy {R} (cls : ascii -> bool) (k : string -> string -> option R)
    (s : string) : option R :=
  match s with
  | String c s' =>
      if cls c then
        match greedy cls (fun m => k (String c m)) s' with
        | Some r => Some r
        | None => k "" s
        end
      else k "" s
  | EmptyString => k "" s
  end.

Fixpoint match_atoms (pat : list atom) (s : string) : option (list string) :=
  match pat with
  | [] => if at_end s then Some [] else None
  | a :: pat' =>
      let k := fun (m rest : string) =>
        (if a_group a then cons m else (fun gs => gs)) <$> match_atoms pat' rest in
      match a_quant a with
      | One =>
          match s with
          | String c s' => if a_cls a c then k (String c "") s' else None
          | EmptyString => None
          end
      | Star => greedy (a_cls a) k s
      | Plus =>
          match s with
          | String c s' =>
              if a_cls a c then greedy (a_cls a) (fun m => k (String c m)) s' else None
          | EmptyString => None
          end
      | Opt =>
          match s with
          | String c s' =>
              if a_cls a c then
                match k (String c "") s' with
                | Some r => Some r
                | None => k "" s
                end
              else k "" s
          | EmptyString => k "" s
          end
      end
  end.

(** A literal piece of a pattern. *)
Fixpoint lit (s : string) : list atom :=
  match s with
  | EmptyString => []
  | String c s' => Atom (Ascii.eqb c) One false :: lit s'
  end.

(* ===================================================================== *)
(** * Constants *)
(* ===================================================================== *)

Definition CODE_LINE_SEPARATOR : string := "|".
Definition FUNCTION_CALL_SEPARATOR : string := " ".
Definition CET_END : string := "__ERROR__".
Definition DEBUG_ERROR_TRACE_COMPARISON : bool := false.

(** Modelled from the spec: the operation tags [CET_OP_*] come from
    [reports.mea.core], which is imported but is not among the sources; the
    spec names them call, return, assume, assign, note and warn, and prints
    assume and assign in this spelling. *)
Definition CET_OP_CALL : string := "call".
Definition CET_OP_RETURN : string := "return".
Definition CET_OP_ASSUME : string := "assume".
Definition CET_OP_ASSIGN : string := "assign".
Definition CET_OP_NOTE : string := "note".
Definition CET_OP_WARN : string := "warn".

(** Modelled from the spec: the option names [TAG_*] of [process_args] come
    from [reports.mea.core] as well; the spec lists the additional and
    filtered model-function lists, "use notes", "use warnings" and "ignore
    note text". *)
Definition TAG_ADDITIONAL_MODEL_FUNCTIONS : string := "additional_model_functions".
Definition TAG_FILTERED_MODEL_FUNCTIONS : string := "filtered_model_functions".
Definition TAG_USE_NOTES : string := "use_notes".
Definition TAG_USE_WARNS : string := "use_warns".
Definition TAG_IGNORE_NOTES_TEXT : string := "ignore_notes_text".

(** The prefix shared by the three patterns: [^\s*(\d+)\s*\|] and the group
    of zero or more [FUNCTION_CALL_SEPARATOR], written INDENT below. *)
Definition re_prefix : list atom :=
  [ Atom is_space Star false;
    Atom is_digit Plus true;
    Atom is_space Star false;
    Atom (Ascii.eqb "|") One false;
    Atom (Ascii.eqb " ") Star true ].

(** [^\s*(\d+)\s*\|] INDENT [(\w+)$] *)
Definition re_call : list atom :=
  re_prefix ++ [ Atom is_word Plus true ].

(** [^\s*(\d+)\s*\|] INDENT [assume\((!?)(.+)\)$] *)
Definition re_assume : list atom :=
  re_prefix ++ lit CET_OP_ASSUME ++ lit "("
    ++ [ Atom (Ascii.eqb "!") Opt true; Atom is_dot Plus true ] ++ lit ")".

(** [^\s*(\d+)\s*\|] INDENT [(\w+): '(.+)'$] *)
Definition re_other : list atom :=
  re_prefix ++ [ Atom is_word Plus true ] ++ lit ": '"
    ++ [ Atom is_dot Plus true ] ++ lit "'".

(* ===================================================================== *)
(** * Trace elements *)
(* ===================================================================== *)

(** One element of a converted error trace: the dictionary with the keys
    [CET_OP], [CET_THREAD], [CET_LINE], [CET_SOURCE], [CET_DISPLAY_NAME] and
    [CET_ID]. *)
Record elem : Type := Elem {
  cet_op : pyval;
  cet_thread : pyval;
  cet_source : pyval;
  cet_display_name : pyval;
  cet_id : pyval;
  cet_line : pyval
}.

Global Instance elem_eq_dec : EqDecision elem.
Proof. solve_decision. Defined.

Definition set_thread (t : pyval) (e : elem) : elem :=
  Elem (cet_op e) t (cet_source e) (cet_display_name e) (cet_id e) (cet_line e).

Fixpoint rfold {S A} (f : S -> A -> result S) (st : S) (l : list A) : result S :=
  match l with
  | [] => Ok st
  | x :: l' => let! st' := f st x in rfold f st' l'
  end.

(* ===================================================================== *)
(** * [error_trace_pretty_print] *)
(* ===================================================================== *)

(** The local variables of the printer; [pr_log] collects what [print]
    writes. *)
Record pr_state : Type := PrState {
  pr_result : string;
  pr_level : Z;
  pr_cur_thread : pyval;
  pr_stack : list pyval;
  pr_log : list string
}.

Definition pr_init : pr_state := PrState "" 0 (VInt (-1)) [] [].

(** ["{}\t{}{}{}\n".format(line, CODE_LINE_SEPARATOR, indent, name)] *)
Definition fmt_line (line indent name : string) : string :=
  line +:+ String TAB "" +:+ CODE_LINE_SEPARATOR +:+ indent +:+ name +:+ String NL "".

(** The thread-boundary line. *)
Definition end_line (level : Z) : string :=
  fmt_line "    0" (str_mul FUNCTION_CALL_SEPARATOR level) CET_END.

(** The line number, padded when it has one to four characters. *)
Definition pad_line (line : pyval) : string :=
  let str_line_len := len (py_str line) in
  if str_line_len =? 2 then "   " +:+ py_str line
  else if str_line_len =? 1 then "    " +:+ py_str line
  else if str_line_len =? 3 then "  " +:+ py_str line
  else if str_line_len =? 4 then " " +:+ py_str line
  else py_str line.

Definition no_call_warning (name last_call id : pyval) : string :=
  "Warning: there was no call for function " +:+ py_str name
  +:+ ". Last called function is " +:+ py_str last_call
  +:+ ". Current id is " +:+ py_str id.

Definition is_op (op : pyval) (tag : string) : bool := py_eq op (VStr tag).

(** The check of the thread at the head of the loop body. *)
Definition print_thread (st : pr_state) (thread : pyval) : pr_state :=
  if py_eq (pr_cur_thread st) (VInt (-1)) then
    PrState (pr_result st) (pr_level st) (VStr (py_str thread)) (pr_stack st) (pr_log st)
  else if negb (py_eq (pr_cur_thread st) thread) then
    PrState (pr_result st +:+ end_line (pr_level st)) 0 (VStr (py_str thread))
            (pr_stack st) (pr_log st)
  else st.

(** The part of the loop body below the comment "Pretty print". *)
Definition print_body (st : pr_state) (elem : elem) : result pr_state :=
  let op := cet_op elem in
  let name := cet_display_name elem in
  let source := cet_source elem in
  let line := pad_line (cet_line elem) in
  let! result :=
    if is_op op CET_OP_CALL then
      Ok (pr_result st +:+
          fmt_line line (str_mul FUNCTION_CALL_SEPARATOR (pr_level st)) (py_str name))
    else if existsb (is_op op) [CET_OP_ASSIGN; CET_OP_ASSUME; CET_OP_NOTE; CET_OP_WARN] then
      let! spaces :=
        if 0 <? pr_level st then Ok (str_mul " " (pr_level st))
        else let! n := py_int (pr_cur_thread st) in Ok (str_mul " " n) in
      if is_op op CET_OP_ASSUME then
        if py_truthy name then
          Ok (pr_result st +:+
              fmt_line line spaces (py_str op +:+ "(" +:+ py_str source +:+ ")"))
        else
          Ok (pr_result st +:+
              fmt_line line spaces (py_str op +:+ "(!(" +:+ py_str source +:+ "))"))
      else if is_op op CET_OP_ASSIGN then
        Ok (pr_result st +:+
            fmt_line line spaces (py_str op +:+ ": '" +:+ py_str source +:+ "'"))
      else
        Ok (pr_result st +:+
            fmt_line line spaces (py_str op +:+ ": '" +:+ py_str name +:+ "'"))
    else Ok (pr_result st) in
  if is_op op CET_OP_CALL then
    Ok (PrState result (pr_level st + 1) (pr_cur_thread st) (name :: pr_stack st) (pr_log st))
  else
    Ok (PrState result (pr_level st) (pr_cur_thread st) (pr_stack st) (pr_log st)).

(** The loop body after the check of the thread: a return is folded into
    the depth, or skipped when it does not match; anything else is printed. *)
Definition print_return (debug : bool) (st : pr_state) (elem : elem) : result pr_state :=
  let name := cet_display_name elem in
  if is_op (cet_op elem) CET_OP_RETURN then
    match pr_stack st with
    | [] => Raise IndexError
    | last_call :: stack =>
        if py_eq name last_call then
          print_body (PrState (pr_result st) (pr_level st - 1) (pr_cur_thread st)
                              stack (pr_log st)) elem
        else
          Ok (PrState (pr_result st) (pr_level st) (pr_cur_thread st)
                      (last_call :: stack)
                      (if debug
                       then pr_log st ++ [no_call_warning name last_call (cet_id elem)]
                       else pr_log st))
    end
  else print_body st elem.

(** One pass of the main loop. *)
Definition print_elem (debug : bool) (st : pr_state) (elem : elem) : result pr_state :=
  print_return debug (print_thread st (cet_thread elem)) elem.

(** The first loop: every element's thread becomes its string, in place. *)
Definition stringify_threads (converted_error_trace : list elem) : list elem :=
  map (fun elem => set_thread (VStr (py_str (cet_thread elem))) elem)
      converted_error_trace.

(** The main loop and the closing boundary line, on the elements as the
    first loop left them. *)
Definition print_run (debug : bool) (converted_error_trace : list elem) : result pr_state :=
  let! st := rfold (print_elem debug) pr_init converted_error_trace in
  Ok (PrState (pr_result st +:+ end_line (pr_level st)) (pr_level st)
              (pr_cur_thread st) (pr_stack st) (pr_log st)).

(** The printer on a list of elements: the caller's list as the call leaves
    it, and the value returned or the exception raised. *)
Definition error_trace_pretty_print (converted_error_trace : list elem)
    : list elem * result string :=
  let converted_error_trace := stringify_threads converted_error_trace in
  (converted_error_trace,
   let! st := print_run DEBUG_ERROR_TRACE_COMPARISON converted_error_trace in
   Ok (pr_result st)).

(** What the printer wrote to the standard output. *)
Definition print_diagnostics (converted_error_trace : list elem) : result (list string) :=
  let! st := print_run DEBUG_ERROR_TRACE_COMPARISON (stringify_threads converted_error_trace) in
  Ok (pr_log st).

(* ===================================================================== *)
(** * [error_trace_pretty_parse] *)
(* ===================================================================== *)

Record pa_state : Type := PaState {
  converted_error_trace : list elem;
  cur_thread : Z;
  cur_level : Z;
  stack : list string;
  not_parsed : option string
}.

Definition pa_init : pa_state := PaState [] 0 (-1) [] None.

(** [if not_parsed:] *)
Definition pending (st : pa_state) : string :=
  match not_parsed st with
  | Some l => l
  | None => ""
  end.

Definition mk_return (cur_thread : Z) (ret_func line : string) : elem :=
  Elem (VStr CET_OP_RETURN) (VInt cur_thread) VNone (VStr ret_func) (VInt 0) (VStr line).

Definition mk_call (cur_thread : Z) (func line : string) : elem :=
  Elem (VStr CET_OP_CALL) (VInt cur_thread) VNone (VStr func) (VInt 0) (VStr line).

Definition mk_assume (cur_thread : Z) (assume : string) (is_false : bool) (line : string) : elem :=
  Elem (VStr CET_OP_ASSUME) (VInt cur_thread) (VStr assume) (VBool (negb is_false))
       (VInt 0) (VStr line).

Definition mk_other (cur_thread : Z) (op text line : string) : elem :=
  Elem (VStr op) (VInt cur_thread) (VStr text) (VStr text) (VInt 0) (VStr line).

(** [n] times: pop the stack and append a return element. *)
Fixpoint pop_returns (n : nat) (cur_thread : Z) (line : string)
    (stack : list string) (trace : list elem) : result (list string * list elem) :=
  match n with
  | O => Ok (stack, trace)
  | S n' =>
      match stack with
      | [] => Raise IndexError
      | ret_func :: stack' =>
          pop_returns n' cur_thread line stack'
                      (trace ++ [mk_return cur_thread ret_func line])
      end
  end.

(** The line the loop body works on: the stripped line, after the text
    kept from the lines that did not parse. *)
Definition joined (st : pa_state) (raw : string) : string :=
  if negb (String.eqb (pending st) "") then pending st +:+ strip raw else strip raw.

Definition clear_pending (st : pa_state) : option string :=
  if negb (String.eqb (pending st) "") then None else not_parsed st.

(** The branch of the first pattern. *)
Definition parse_call_line (st : pa_state) (line : string) (level : Z) (func : string)
    : result pa_state :=
  let! popped :=
    if level =? cur_level st then
      pop_returns 1 (cur_thread st) line (stack st) (converted_error_trace st)
    else if level <? cur_level st then
      pop_returns (Z.to_nat (cur_level st - level + 1)) (cur_thread st) line
                  (stack st) (converted_error_trace st)
    else Ok (stack st, converted_error_trace st) in
  let stack := fst popped in
  let trace := snd popped in
  if String.eqb func CET_END then
    Ok (PaState trace (cur_thread st + 1) (-1) stack (clear_pending st))
  else
    Ok (PaState (trace ++ [mk_call (cur_thread st) func line]) (cur_thread st) level
                (func :: stack) (clear_pending st)).

(** One pass of the loop over the lines. *)
Definition parse_line (st : pa_state) (raw : string) : result pa_state :=
  let line := joined st raw in
  match match_atoms re_call line with
  | Some [g1; g2; g3] => parse_call_line st g1 (len g2) g3
  | _ =>
    match match_atoms re_assume line with
    | Some [g1; g2; g3; g4] =>
        Ok (PaState (converted_error_trace st
                       ++ [mk_assume (cur_thread st) g4 (negb (String.eqb g3 "")) g1])
                    (cur_thread st) (cur_level st) (stack st) (clear_pending st))
    | _ =>
      match match_atoms re_other line with
      | Some [g1; g2; g3; g4] =>
          Ok (PaState (converted_error_trace st ++ [mk_other (cur_thread st) g3 g4 g1])
                      (cur_thread st) (cur_level st) (stack st) (clear_pending st))
      | _ =>
          Ok (PaState (converted_error_trace st) (cur_thread st) (cur_level st)
                      (stack st) (Some line))
      end
    end
  end.

Definition parse_lines (st : pa_state) (lines : list string) : result pa_state :=
  rfold parse_line st lines.

Definition parse_error (line : string) : exn :=
  ValueError ("Cannot parse line '" +:+ line +:+ "' in edited error trace").

(** After the loop. *)
Definition parse_finish (st : pa_state) : result (list elem) :=
  if negb (String.eqb (pending st) "") then Raise (parse_error (pending st))
  else Ok (converted_error_trace st).

Definition error_trace_pretty_parse (pretty_error_trace : string) : result (list elem) :=
  let! st := parse_lines pa_init (splitlines pretty_error_trace) in
  parse_finish st.

(* ===================================================================== *)
(** * [process_args] *)
(* ===================================================================== *)

(** The values of an argument mapping. *)
Inductive argval : Type :=
  | ANone
  | ABool (b : bool)
  | AInt (z : Z)
  | AStr (s : string)
  | AList (l : list string).

Global Instance argval_eq_dec : EqDecision argval.
Proof. solve_decision. Defined.

Definition arg_truthy (v : argval) : bool :=
  match v with
  | ANone => false
  | ABool b => b
  | AInt z => negb (z =? 0)
  | AStr s => negb (String.eqb s "")
  | AList l => match l with [] => false | _ => true end
  end.

Definition RECOGNIZED_TAGS : list string :=
  [ TAG_ADDITIONAL_MODEL_FUNCTIONS; TAG_FILTERED_MODEL_FUNCTIONS; TAG_USE_NOTES;
    TAG_USE_WARNS; TAG_IGNORE_NOTES_TEXT ].

(** [contents.sort()] on a list of strings. *)
Definition sort_strings (l : list string) : list string := merge_sort String.le l.

(** What is stored back for a value that is not empty. *)
Definition canonical (as_str : bool) (contents : argval) : argval :=
  let contents :=
    match contents with
    | AStr s => AList (split_on "," s)
    | _ => contents
    end in
  match contents with
  | AList l => if as_str then AStr (join "," (sort_strings l)) else AList (sort_strings l)
  | _ => contents
  end.

(** The body of the loop over the tags; the mapping is updated in place. *)
Definition process_tag (as_str : bool) (args : gmap string argval) (tag : string)
    : gmap string argval :=
  match args !! tag with
  | Some contents =>
      if arg_truthy contents then <[tag := canonical as_str contents]> args
      else delete tag args
  | None => args
  end.

(** The caller's mapping after [process_args(args, as_str)]. *)
Definition process_args (args : gmap string argval) (as_str : bool) : gmap string argval :=
  foldl (process_tag as_str) args RECOGNIZED_TAGS.

(* ===================================================================== *)
(** * Notions used in the statements *)
(* ===================================================================== *)

(** The operations for which the printer writes a line. *)
Definition prints_line (op : pyval) : bool :=
  is_op op CET_OP_CALL
  || existsb (is_op op) [CET_OP_ASSIGN; CET_OP_ASSUME; CET_OP_NOTE; CET_OP_WARN].




(** Sample elements for the concrete runs. *)
Definition ex_call (thread : Z) (name : string) (line : Z) : elem :=
  Elem (VStr CET_OP_CALL) (VInt thread) VNone (VStr name) (VInt 1) (VInt line).

Definition ex_return (thread : Z) (name : string) (line : Z) : elem :=
  Elem (VStr CET_OP_RETURN) (VInt thread) VNone (VStr name) (VInt 2) (VInt line).

Definition ex_assume (thread : Z) (holds : bool) (source : string) (line : Z) : elem :=
  Elem (VStr CET_OP_ASSUME) (VInt thread) (VStr source) (VBool holds) (VInt 3) (VInt line).

Definition ex_note (thread : Z) (text : string) (line : Z) : elem :=
  Elem (VStr CET_OP_NOTE) (VInt thread) (VStr text) (VStr text) (VInt 4) (VInt line).

(** The number of groups of a pattern. *)
Definition group_count (pat : list atom) : nat :=
  length (filter (fun a => a_group a = true) pat).

(** A line that has none of the three shapes. *)
Definition unmatched (line : string) : bool :=
  match match_atoms re_call line, match_atoms re_assume line, match_atoms re_other line with
  | None, None, None => true
  | _, _, _ => false
  end.

(** A line of the first shape that carries the end marker. *)
Definition is_end_marker (line : string) : bool :=
  match match_atoms re_call line with
  | Some [_; _; func] => String.eqb func CET_END
  | _ => false
  end.

(** The number of end-marker lines the loop meets from the state [st] on. *)
Fixpoint end_markers (st : pa_state) (lines : list string) : Z :=
  match lines with
  | [] => 0
  | raw :: lines' =>
      (if is_end_marker (joined st raw) then 1 else 0)
      + match parse_line st raw with
        | inr st' => end_markers st' lines'
        | inl _ => 0
        end
  end.

(** The call element a line of the first shape adds, if it is no end marker. *)
Definition call_part (st : pa_state) (line func : string) : list elem :=
  if String.eqb func CET_END then [] else [mk_call (cur_thread st) func line].

(** What holds of the parser's state between two lines. *)
Definition pa_inv (st : pa_state) : Prop :=
  -1 <= cur_level st /\ (0 <= cur_level st -> stack st <> []).

(** The state after a line of the first shape for which [n] returns were
    emitted. *)
Definition after_call_line (st : pa_state) (line : string) (level : Z) (func : string)
    (n : nat) : pa_state :=
  PaState
    (converted_error_trace st
       ++ map (fun ret_func => mk_return (cur_thread st) ret_func line) (take n (stack st))
       ++ call_part st line func)
    (if String.eqb func CET_END then cur_thread st + 1 else cur_thread st)
    (if String.eqb func CET_END then -1 else level)
    (if String.eqb func CET_END then drop n (stack st) else func :: drop n (stack st))
    (clear_pending st).

Definition lines_of (l : list string) : string :=
  join (String NL "") l.

(** ** The printer described thread by thread

    A second description of the printer, after the words of the
    specification: the sequence is cut where the thread of two consecutive
    elements differs, each piece is rendered from depth 0, and each piece is
    closed by a boundary line at the depth it ends with. *)


(** The boundary line, at the current depth. *)
Definition spec_mark (st : pr_state) : pr_state :=
  PrState (pr_result st +:+ end_line (pr_level st)) (pr_level st) (pr_cur_thread st)
          (pr_stack st) (pr_log st).

(** The start of a thread's rendering: depth 0. *)
Definition spec_enter (st : pr_state) (thread : pyval) : pr_state :=
  PrState (pr_result st) 0 (VStr (py_str thread)) (pr_stack st) (pr_log st).






Definition thread_is_str (e : elem) : Prop := exists t, cet_thread e = VStr t.

(** ** Argument mappings *)

(** What [process_args] leaves under a recognised tag. *)
Definition process_value (as_str : bool) (o : option argval) : option argval :=
  match o with
  | Some v => if arg_truthy v then Some (canonical as_str v) else None
  | None => None
  end.

(** The list a value stands for, if it is a list or its comma-separated
    form. *)
Definition as_list (v : argval) : option (list string) :=
  match v with
  | AStr s => Some (split_on "," s)
  | AList l => Some l
  | _ => None
  end.

(** Two values of an option that mean the same: both absent or empty, the
    same elements in any order and in either form, or the same scalar. *)
Definition same_option (o1 o2 : option argval) : Prop :=
  match o1, o2 with
  | Some v1, Some v2 =>
      if arg_truthy v1 then
        arg_truthy v2 = true
        /\ match as_list v1, as_list v2 with
           | Some l1, Some l2 => l1 ≡ₚ l2
           | None, None => v1 = v2
           | _, _ => False
           end
      else arg_truthy v2 = false
  | Some v, None | None, Some v => arg_truthy v = false
  | None, None => True
  end.

(** Two mappings that denote the same options. *)
Definition same_args (args1 args2 : gmap string argval) : Prop :=
  Forall (fun tag => same_option (args1 !! tag) (args2 !! tag)) RECOGNIZED_TAGS
  /\ foldr delete args1 RECOGNIZED_TAGS = foldr delete args2 RECOGNIZED_TAGS.

(** Sample argument mappings. *)
Definition ex_args1 : gmap string argval :=
  <[TAG_ADDITIONAL_MODEL_FUNCTIONS := AStr "b,a"]>
    (<[TAG_USE_NOTES := AStr ""]> (<["other" := AInt 7]> ∅)).

Definition ex_args2 : gmap string argval :=
  <[TAG_ADDITIONAL_MODEL_FUNCTIONS := AList ["a"; "b"]]> (<["other" := AInt 7]> ∅).

(** A stand-in for a serialisation of a mapping: its keys. *)
Definition ex_dumps (args : gmap string argval) : string :=
  join "," (fst <$> map_to_list args).

(** The fields of an element other than its thread. *)
Definition same_but_thread (e e' : elem) : Prop :=
  cet_op e' = cet_op e /\ cet_source e' = cet_source e
  /\ cet_display_name e' = cet_display_name e /\ cet_id e' = cet_id e
  /\ cet_line e' = cet_line e.

(** ** Printing and parsing back *)

(** The fields two traces are compared on. *)
Definition comparable_fields (e : elem) : pyval * pyval * pyval * pyval :=
  (cet_op e, cet_thread e, cet_display_name e, cet_source e).

Definition comparable_eq (s1 s2 : list elem) : Prop :=
  comparable_fields <$> s1 = comparable_fields <$> s2.

(** The result of parsing what the printer returns. *)
Definition print_then_parse (s : list elem) : result (list elem) :=
  let! text := snd (error_trace_pretty_print s) in error_trace_pretty_parse text.

(** *** The sequences that survive the round trip

    A scan of the sequence with the number of the current thread, the depth
    of the calls of this thread that are open, whether a return was seen
    since the last call, and the names of the open calls. *)
Record rt_state : Type := RtState {
  rt_thread : Z;
  rt_depth : nat;
  rt_pending : bool;
  rt_stack : list string
}.

Definition rt_init : rt_state := RtState 0 0 false [].

Definition no_linebreak (s : string) : bool :=
  str_forallb (fun c => negb (is_linebreak c)) s.

(** A function name: word characters, and not the end marker. *)
Definition is_name (f : string) : bool :=
  negb (String.eqb f "") && str_forallb is_word f && negb (String.eqb f CET_END).

(** A text that stays on its line. *)
Definition is_text (t : string) : bool :=
  negb (String.eqb t "") && no_linebreak t.

Definition starts_with_bang (s : string) : bool :=
  match s with
  | String c _ => Ascii.eqb c "!"
  | EmptyString => false
  end.

Definition is_line_number (v : pyval) : bool :=
  match v with
  | VInt n => 0 <=? n
  | _ => false
  end.

(** The thread of the next element: the current one, or the next number,
    which starts a thread at depth 0. *)
Definition rt_enter (st : rt_state) (thread : pyval) : option rt_state :=
  match thread with
  | VInt t =>
      if t =? rt_thread st then Some st
      else if t =? rt_thread st + 1 then Some (RtState t 0 false (rt_stack st))
      else None
  | _ => None
  end.

Definition rt_elem (st : rt_state) (e : elem) : option rt_state :=
  match cet_op e, cet_display_name e, cet_source e with
  | VStr op, VStr name, VNone =>
      if String.eqb op CET_OP_CALL then
        if is_name name && is_line_number (cet_line e)
        then Some (RtState (rt_thread st) (S (rt_depth st)) false (name :: rt_stack st))
        else None
      else if String.eqb op CET_OP_RETURN then
        match rt_depth st, rt_stack st with
        | S d, last_call :: stack =>
            if String.eqb name last_call
            then Some (RtState (rt_thread st) d true stack)
            else None
        | _, _ => None
        end
      else None
  | VStr op, VBool true, VStr source =>
      if String.eqb op CET_OP_ASSUME
         && negb (rt_pending st) && is_text source && negb (starts_with_bang source)
         && is_line_number (cet_line e)
      then Some st else None
  | VStr op, VStr name, VStr source =>
      if (String.eqb op CET_OP_ASSIGN || String.eqb op CET_OP_NOTE
          || String.eqb op CET_OP_WARN)
         && negb (rt_pending st) && String.eqb name source && is_text source
         && is_line_number (cet_line e)
      then Some st else None
  | _, _, _ => None
  end.

Definition rt_step (st : rt_state) (e : elem) : option rt_state :=
  match rt_enter st (cet_thread e) with
  | Some st' => rt_elem st' e
  | None => None
  end.

Fixpoint rt_run (st : rt_state) (s : list elem) : option rt_state :=
  match s with
  | [] => Some st
  | e :: s' =>
      match rt_step st e with
      | Some st' => rt_run st' s'
      | None => None
      end
  end.

(** The sequences for which parsing the printed text gives the sequence
    back: the threads are numbered 0, 1, 2, ... in the order they appear and
    are not interleaved; the calls and returns of a thread are nested and
    carry no source; between a return and the next call or the end of its
    thread there are only returns; an assume holds and its source does not
    begin with an exclamation mark; an assign, a note or a warn has its
    text both as display name and as source; names are words, texts are not
    empty and have no line break, line numbers are not negative. *)
Definition roundtrip_ok (s : list elem) : bool :=
  match s with
  | [] => true
  | e :: _ =>
      bool_decide (cet_thread e = VInt 0)
      && match rt_run rt_init s with Some _ => true | None => false end
  end.

(** *** The lines of the printed text *)

Fixpoint unlines (lines : list string) : string :=
  match lines with
  | [] => ""
  | l :: lines' => l +:+ String NL "" +:+ unlines lines'
  end.

Definition blanks (n : nat) : string := str_rep " " n.

(** A printed line without its line feed. *)
Definition line_text (line : pyval) (indent : nat) (body : string) : string :=
  pad_line line +:+ String TAB "" +:+ CODE_LINE_SEPARATOR +:+ blanks indent +:+ body.

Definition marker_text (depth : nat) : string :=
  "    0" +:+ String TAB "" +:+ CODE_LINE_SEPARATOR +:+ blanks depth +:+ CET_END.

(** The indentation of a line that is no call: the depth inside a call,
    else the number the thread string reads as. *)
Definition other_indent (st : rt_state) : nat :=
  match rt_depth st with
  | O =>
      match int_of_str (str_of_Z (rt_thread st)) with
      | Some n => Z.to_nat n
      | None => O
      end
  | S d => S d
  end.

(** The body of the line of an element that is no call and no return. *)
Definition other_body (e : elem) : string :=
  if is_op (cet_op e) CET_OP_ASSUME
  then py_str (cet_op e) +:+ "(" +:+ py_str (cet_source e) +:+ ")"
  else if is_op (cet_op e) CET_OP_ASSIGN
  then py_str (cet_op e) +:+ ": '" +:+ py_str (cet_source e) +:+ "'"
  else py_str (cet_op e) +:+ ": '" +:+ py_str (cet_display_name e) +:+ "'".

(** The lines the printer writes for an element, from the state of the scan
    before it. *)
Definition render (st : rt_state) (e : elem) : list string :=
  (match cet_thread e with
   | VInt t => if t =? rt_thread st then [] else [marker_text (rt_depth st)]
   | _ => []
   end)
  ++ match rt_enter st (cet_thread e) with
     | Some st' =>
         if is_op (cet_op e) CET_OP_CALL
         then [line_text (cet_line e) (rt_depth st') (py_str (cet_display_name e))]
         else if is_op (cet_op e) CET_OP_RETURN then []
         else [line_text (cet_line e) (other_indent st') (other_body e)]
     | None => []
     end.

Fixpoint render_all (st : rt_state) (s : list elem) : list string :=
  match s with
  | [] => []
  | e :: s' =>
      render st e
      ++ match rt_step st e with
         | Some st' => render_all st' s'
         | None => []
         end
  end.

(** The last character of a string. *)
Fixpoint last_char (s : string) : option ascii :=
  match s with
  | EmptyString => None
  | String c EmptyString => Some c
  | String _ s' => last_char s'
  end.

(** A run of a class ends here: the string is over or goes on with a
    character outside the class. *)
Definition stops (cls : ascii -> bool) (rest : string) : bool :=
  match rest with
  | EmptyString => true
  | String c _ => negb (cls c)
  end.

(** The returns the parser still owes. *)
Definition owed (thread : Z) (names : list string) : list elem :=
  (fun ret_func => mk_return thread ret_func "") <$> names.

(** The printer's state in step with the scan. *)
Definition pr_sim (st : rt_state) (p : pr_state) : Prop :=
  pr_level p = Z.of_nat (rt_depth st)
  /\ pr_cur_thread p = VStr (str_of_Z (rt_thread st))
  /\ pr_stack p = VStr <$> rt_stack st
  /\ 0 <= rt_thread st.

(** The parser's state in step with the scan, with the names of the returns
    it still owes. *)
Definition pa_sim (st : rt_state) (q : pa_state) (names : list string) : Prop :=
  cur_thread q = rt_thread st
  /\ stack q = names ++ rt_stack st
  /\ cur_level q = Z.of_nat (rt_depth st) - 1 + Z.of_nat (length names)
  /\ pending q = ""
  /\ (rt_pending st = false -> names = []).

(** A printed line as the parser sees it after [strip]. *)
Definition stripped_text (digits : string) (indent : nat) (body : string) : string :=
  digits +:+ String TAB (String "|" (blanks indent +:+ body)).

(** The parts of the three patterns after the shared prefix. *)
Definition call_tail : list atom := [ Atom is_word Plus true ].

Definition assume_tail : list atom :=
  lit CET_OP_ASSUME ++ lit "("
    ++ [ Atom (Ascii.eqb "!") Opt true; Atom is_dot Plus true ] ++ lit ")".

Definition other_tail : list atom :=
  [ Atom is_word Plus true ] ++ lit ": '" ++ [ Atom is_dot Plus true ] ++ lit "'".

(** The four kinds of element the scan accepts, with the state after each. *)
Inductive rt_kind (st : rt_state) : elem -> rt_state -> Prop :=
  | rt_call thread id name n :
      is_name name = true -> 0 <= n ->
      rt_kind st (Elem (VStr CET_OP_CALL) thread VNone (VStr name) id (VInt n))
              (RtState (rt_thread st) (S (rt_depth st)) false (name :: rt_stack st))
  | rt_return thread id line name d stack :
      rt_depth st = S d -> rt_stack st = name :: stack ->
      rt_kind st (Elem (VStr CET_OP_RETURN) thread VNone (VStr name) id line)
              (RtState (rt_thread st) d true stack)
  | rt_assume thread id source n :
      is_text source = true -> starts_with_bang source = false -> 0 <= n ->
      rt_pending st = false ->
      rt_kind st (Elem (VStr CET_OP_ASSUME) thread (VStr source) (VBool true) id (VInt n)) st
  | rt_other thread id op text n :
      op = CET_OP_ASSIGN \/ op = CET_OP_NOTE \/ op = CET_OP_WARN ->
      is_text text = true -> 0 <= n ->
      rt_pending st = false ->
      rt_kind st (Elem (VStr op) thread (VStr text) (VStr text) id (VInt n)) st.

(** Sample sequences for the round trip. *)
Definition ex_trace_nested : list elem :=
  [ ex_call 0 "main" 1; ex_note 0 "entry" 2; ex_call 0 "f" 3;
    ex_assume 0 true "x > 0" 4; ex_return 0 "f" 5; ex_call 0 "g" 6;
    ex_return 0 "g" 7; ex_return 0 "main" 8; ex_note 1 "second thread" 9 ].

Definition ex_note_source (source text : string) : elem :=
  Elem (VStr CET_OP_NOTE) (VInt 0) (VStr source) (VStr text) (VInt 4) (VInt 1).

Definition ex_call_source (name source : string) : elem :=
  Elem (VStr CET_OP_CALL) (VInt 0) (VStr source) (VStr name) (VInt 1) (VInt 1).

(* ===================================================================== *)
(** * Further notions: the printer's stack, the parser's nesting *)
(* ===================================================================== *)

(** The stack of the printer taken alone: a call pushes its name; a return
    pops the name it matches, leaves the stack when it matches nothing, and
    has nothing to pop when the stack is empty. *)
Fixpoint open_calls (stack : list pyval) (s : list elem) : option (list pyval) :=
  match s with
  | [] => Some stack
  | e :: s' =>
      if is_op (cet_op e) CET_OP_RETURN then
        match stack with
        | [] => None
        | last_call :: stack' =>
            if py_eq (cet_display_name e) last_call then open_calls stack' s'
            else open_calls stack s'
        end
      else if is_op (cet_op e) CET_OP_CALL then
        open_calls (cet_display_name e :: stack) s'
      else open_calls stack s'
  end.

(** A thread whose string [int] accepts. *)
Definition numeric_thread (e : elem) : Prop :=
  exists n, int_of_str (py_str (cet_thread e)) = Some n.

(** An element for which the printer writes nothing and keeps its stack. *)
Definition no_effect (e : elem) : bool :=
  negb (prints_line (cet_op e)) && negb (is_op (cet_op e) CET_OP_RETURN).


Definition ex_unknown (thread : Z) : elem :=
  Elem (VStr "skip") (VInt thread) VNone (VStr "ignored") (VInt 9) (VInt 1).

(** A string without a comma. *)
Definition comma_free (w : string) : bool :=
  str_forallb (fun c => negb (Ascii.eqb c ",")) w.

(** The list values of the recognised options can be written with commas:
    no element holds a comma, and the list is not the one of the empty
    string alone. *)
Definition lists_joinable (args : gmap string argval) : Prop :=
  forall tag l,
    tag ∈ RECOGNIZED_TAGS -> args !! tag = Some (AList l) ->
    forallb comma_free l = true /\ l <> [""].

Definition ex_args3 : gmap string argval :=
  <[TAG_FILTERED_MODEL_FUNCTIONS := AList ["g"; "f"]]>
    (<[TAG_USE_WARNS := ABool true]> ex_args1).

(* ===================================================================== *)
(** * The notes of [automatic_error_trace_editing] *)
(* ===================================================================== *)

Definition set_display_name (name : pyval) (e : elem) : elem :=
  Elem (cet_op e) (cet_thread e) (cet_source e) name (cet_id e) (cet_line e).

(** The inner loop: the first element of the converted trace with the
    identifier decides, and gives its name if it is a note. *)
Fixpoint find_basic_note (converted_error_trace : list elem) (elem_id : pyval) : pyval :=
  match converted_error_trace with
  | [] => VNone
  | basic_elem :: rest =>
      if py_eq (cet_id basic_elem) elem_id then
        if is_op (cet_op basic_elem) CET_OP_NOTE then cet_display_name basic_elem
        else VNone
      else find_basic_note rest elem_id
  end.

(** [is_note_changed] and [edited_error_trace]. *)
Definition edit_state : Type := bool * list elem.

(** One pass of the loop over the visual trace, on the pair of
    [is_note_changed] and [edited_error_trace].  The elements of the two
    traces come from two conversions, so that writing the name of an
    element of the visual trace touches no element of the converted one. *)
Definition edit_elem (converted_error_trace : list elem) (st : edit_state)
    (elem : elem) : edit_state :=
  if is_op (cet_op elem) CET_OP_NOTE then
    let elem_id := cet_id elem in
    let edited_note := cet_display_name elem in
    let basic_note := find_basic_note converted_error_trace elem_id in
    if negb (py_eq edited_note basic_note) then
      if py_truthy basic_note then
        (true, snd st ++ [set_display_name basic_note elem])
      else st
    else (true, snd st ++ [elem])
  else (fst st, snd st ++ [elem]).

(** The loop: [is_note_changed] and [edited_error_trace] after it. *)
Definition edit_notes (visual_error_trace converted_error_trace : list elem)
    : edit_state :=
  fold_left (edit_elem converted_error_trace) visual_error_trace (false, []).

(** What the loop appends for one element, if anything. *)
Definition edited (converted_error_trace : list elem) (e : elem) : option elem :=
  snd (edit_elem converted_error_trace (false, []) e) !! 0%nat.

Definition is_note (e : elem) : bool := is_op (cet_op e) CET_OP_NOTE.

(** No two elements of a trace have identifiers that compare equal. *)
Definition distinct_ids (s : list elem) : Prop :=
  forall (i j : nat) (e e' : elem),
    s !! i = Some e -> s !! j = Some e' ->
    py_eq (cet_id e) (cet_id e') = true -> i = j.

Definition ex_elem (op : string) (id : Z) (name : string) : elem :=
  Elem (VStr op) (VInt 0) VNone (VStr name) (VInt id) (VInt 1).

Definition ex_converted : list elem :=
  [ ex_elem CET_OP_CALL 1 "main"; ex_elem CET_OP_NOTE 2 "first";
    ex_elem CET_OP_NOTE 3 "second"; ex_elem CET_OP_RETURN 4 "main" ].

Definition ex_visual : list elem :=
  [ ex_elem CET_OP_CALL 1 "main"; ex_elem CET_OP_NOTE 2 "changed";
    ex_elem CET_OP_NOTE 7 "new"; ex_elem CET_OP_NOTE 1 "on a call";
    ex_elem CET_OP_RETURN 4 "main" ].

(* ===================================================================== *)
(** * The parser's result as an input of the printer *)
(* ===================================================================== *)

(** A return element without a source, as the first pattern of the parser
    gives them: the third pattern can give the operation of a return too,
    and then the source is the text. *)
Definition plain_return (e : elem) : Prop :=
  is_op (cet_op e) CET_OP_RETURN = true -> cet_source e = VNone.

(** The calls of the trace parsed so far hold at least as many names open
    as the stack of the parser. *)
Definition pa_open (st : pa_state) : Prop :=
  exists open_stack,
    open_calls [] (converted_error_trace st) = Some open_stack
    /\ (length (stack st) <= length open_stack)%nat.

Definition ex_text_calls : string :=
  unlines [ "1|main"; "2| f"; "3|  g"; "4| note: 'return: here'"; "5|h"; "0|__ERROR__" ].

Definition ex_text_return : string :=
  unlines [ "1|main"; "2|return: 'main'"; "3|return: 'main'" ].

(* ===================================================================== *)
(** * White space in the text to parse *)
(* ===================================================================== *)

(** The lines that count: stripped, and not empty. *)
Definition text_lines (lines : list string) : list string :=
  filter (fun l => l <> "") (map strip lines).

(** Two states of the parser that differ at most in how they hold an empty
    [not_parsed]: as [None] or as the empty string. *)
Definition pa_same (a b : pa_state) : Prop :=
  converted_error_trace a = converted_error_trace b
  /\ cur_thread a = cur_thread b
  /\ cur_level a = cur_level b
  /\ stack a = stack b
  /\ pending a = pending b.

Definition same_result (r1 r2 : result pa_state) : Prop :=
  match r1, r2 with
  | inr a, inr b => pa_same a b
  | inl e1, inl e2 => e1 = e2
  | _, _ => False
  end.

(** The text kept from the lines that did not parse has none of the three
    shapes. *)
Definition pending_unmatched (st : pa_state) : Prop :=
  pending st <> "" -> unmatched (pending st) = true.

(** The parser on the lines of a text. *)
Definition parse_text_lines (lines : list string) : result (list elem) :=
  let! st := parse_lines pa_init lines in
  parse_finish st.

Definition ex_lines_plain : list string :=
  [ "1|main"; "2| f"; "3| assume(x > 0)"; "0|__ERROR__" ].

(** The same lines with white space around them and empty lines between,
    broken by carriage return and line feed, by a line feed or by a
    carriage return, and without a line break at the end. *)
Definition ex_text_spaced : string :=
  "   " +:+ String "013" (String NL "")
  +:+ "    1|main  " +:+ String "013" (String NL "")
  +:+ String NL ""
  +:+ "  2| f" +:+ String "013" ""
  +:+ String TAB "" +:+ String NL ""
  +:+ "3| assume(x > 0)   " +:+ String NL ""
  +:+ "0|__ERROR__".

(* ===================================================================== *)
(** * The elements the parser builds *)
(* ===================================================================== *)

(** A line number as the patterns capture it: decimal digits, at least one. *)
Definition is_digits (l : string) : bool :=
  negb (String.eqb l "") && str_forallb is_digit l.

(** What a group of a pattern can capture: characters of the class, and at
    least one unless the class is under a star or optional. *)
Definition group_ok (a : atom) (g : string) : Prop :=
  str_forallb (a_cls a) g = true
  /\ (a_quant a = One \/ a_quant a = Plus -> g <> "").

Definition groups_of (pat : list atom) : list atom :=
  filter (fun a => a_group a = true) pat.

(** The four kinds of element of a parsed trace. *)
Definition parsed_elem (e : elem) : Prop :=
  exists thread line,
    is_digits line = true
    /\ ((exists f, is_name f = true
                   /\ (e = mk_call thread f line \/ e = mk_return thread f line))
        \/ (exists assume is_false,
              assume <> "" /\ e = mk_assume thread assume is_false line)
        \/ (exists op text,
              op <> "" /\ str_forallb is_word op = true /\ text <> ""
              /\ e = mk_other thread op text line)).

Definition pa_shape (st : pa_state) : Prop :=
  Forall parsed_elem (converted_error_trace st)
  /\ Forall (fun f => is_name f = true) (stack st).

(* ===================================================================== *)
(** * Texts the parser does not fail on *)
(* ===================================================================== *)

(** Read from the state [st0], no line of the first shape stands more than
    one level below the call before it: its depth is at most the depth of
    the last call plus one (and 0 at the start of a thread). *)
Definition steps_by_one (st0 : pa_state) (lines : list string) : Prop :=
  forall pre raw rest st g1 g2 g3,
    lines = pre ++ raw :: rest ->
    parse_lines st0 pre = Ok st ->
    match_atoms re_call (joined st raw) = Some [g1; g2; g3] ->
    len g2 <= cur_level st + 1.

(** The stack holds a name for every level down to the last call. *)
Definition pa_deep (st : pa_state) : Prop :=
  -1 <= cur_level st /\ cur_level st + 1 <= Z.of_nat (length (stack st)).

Definition ex_text_steps : string :=
  unlines [ "1|main"; "2| f"; "3|  g"; "4|h" ].

(* ===================================================================== *)
(** * Strings: basic facts *)
(* ===================================================================== *)

#[local] Arguments String.append : simpl nomatch.
#[local] Arguments sort_strings : simpl never.

Lemma sapp_nil_r (s : string) : s +:+ "" = s.
Proof. induction s as [|c s IH]; simpl; [done | by rewrite IH]. Qed.

Lemma sapp_assoc (a b c : string) : (a +:+ b) +:+ c = a +:+ b +:+ c.
Proof. induction a as [|x a IH]; simpl; [done | by rewrite IH]. Qed.

Lemma sapp_cons (c : ascii) (a b : string) : String c a +:+ b = String c (a +:+ b).
Proof. done. Qed.

Lemma sapp_length (a b : string) :
  String.length (a +:+ b) = (String.length a + String.length b)%nat.
Proof. induction a as [|x a IH]; simpl; [done | by rewrite IH]. Qed.

Lemma str_rep_length (c : ascii) (n : nat) : String.length (str_rep (String c "") n) = n.
Proof. induction n as [|n IH]; simpl; [done | by rewrite IH]. Qed.

Lemma str_forallb_app (p : ascii -> bool) (a b : string) :
  str_forallb p (a +:+ b) = str_forallb p a && str_forallb p b.
Proof. induction a as [|x a IH]; simpl; [done | by rewrite IH, andb_assoc]. Qed.

Lemma str_forallb_rep (p : ascii -> bool) (c : ascii) (n : nat) :
  p c = true -> str_forallb p (str_rep (String c "") n) = true.
Proof. intros Hc. induction n as [|n IH]; simpl; [done | by rewrite Hc, IH]. Qed.

Lemma str_forallb_impl (p q : ascii -> bool) (s : string) :
  (forall c, p c = true -> q c = true) ->
  str_forallb p s = true -> str_forallb q s = true.
Proof.
  intros Hpq. induction s as [|c s IH]; simpl; [done|].
  intros [Hc Hs]%andb_true_iff. rewrite (Hpq _ Hc). by apply IH.
Qed.

(* ===================================================================== *)
(** * Decimal numerals *)
(* ===================================================================== *)

Lemma uint_digits (d : Decimal.uint) :
  str_forallb is_digit (NilEmpty.string_of_uint d) = true.
Proof. induction d; simpl; auto. Qed.

Lemma str_of_Z_digits (n : Z) : 0 <= n -> str_forallb is_digit (str_of_Z n) = true.
Proof.
  intros Hn. unfold str_of_Z, NilZero.string_of_int, NilZero.string_of_uint.
  destruct n as [|p|p]; [done | | lia]. simpl.
  destruct (Pos.to_uint p) eqn:E; try apply uint_digits.
  by apply DecimalPos.Unsigned.to_uint_nonnil in E.
Qed.

Lemma str_of_Z_nonempty (n : Z) : str_of_Z n <> "".
Proof.
  unfold str_of_Z, NilZero.string_of_int, NilZero.string_of_uint.
  destruct n as [|p|p]; simpl; [done | | done].
  destruct (Pos.to_uint p) eqn:E; simpl; done.
Qed.

(* ===================================================================== *)
(** * The line-number field *)
(* ===================================================================== *)








(* ===================================================================== *)
(** * The printer's stack and the returns *)
(* ===================================================================== *)

Lemma print_body_return (st : pr_state) (e : elem) :
  is_op (cet_op e) CET_OP_RETURN = true ->
  print_body st e = Ok st.
Proof.
  unfold print_body, is_op. destruct (cet_op e) as [| |?|s]; simpl; try done.
  intros ->%String.eqb_eq. simpl. by destruct st.
Qed.

Lemma print_thread_stack (st : pr_state) (thread : pyval) :
  pr_stack (print_thread st thread) = pr_stack st
  /\ pr_log (print_thread st thread) = pr_log st.
Proof. unfold print_thread. repeat case_match; done. Qed.

Lemma print_thread_boundary (st : pr_state) (c t : string) :
  pr_cur_thread st = VStr c -> c <> t ->
  print_thread st (VStr t) =
    PrState (pr_result st +:+ end_line (pr_level st)) 0 (VStr t) (pr_stack st) (pr_log st).
Proof.
  intros Hc Hne. unfold print_thread. rewrite Hc. simpl.
  by apply String.eqb_neq in Hne as ->.
Qed.

Lemma rfold_app {S A} (f : S -> A -> result S) (st : S) (l1 l2 : list A) :
  rfold f st (l1 ++ l2) = let! st' := rfold f st l1 in rfold f st' l2.
Proof.
  revert st. induction l1 as [|x l1 IH]; intros st; simpl; [done|].
  destruct (f st x); simpl; [done | apply IH].
Qed.

(** C10. The printer keeps one call stack for the whole trace.  When the
    thread of the next element differs from the current one, the boundary
    line is written and the depth starts again at 0, but the stack is left
    as it is; a return element of the new thread is therefore compared with
    the last unmatched call of the old thread and pops it, which takes the
    depth to -1. *)
Theorem stack_survives_thread_boundary (debug : bool) (prefix : list elem)
    (st : pr_state) (e : elem) (c t : string) (last_call : pyval) (stack : list pyval) :
  rfold (print_elem debug) pr_init prefix = Ok st ->
  pr_cur_thread st = VStr c ->
  cet_thread e = VStr t ->
  c <> t ->
  pr_stack st = last_call :: stack ->
  pr_stack (print_thread st (cet_thread e)) = last_call :: stack
  /\ pr_level (print_thread st (cet_thread e)) = 0
  /\ (is_op (cet_op e) CET_OP_RETURN = true ->
      py_eq (cet_display_name e) last_call = true ->
      rfold (print_elem debug) pr_init (prefix ++ [e]) =
        Ok (PrState (pr_result st +:+ end_line (pr_level st)) (-1) (VStr t)
                    stack (pr_log st))).
Proof.
  intros Hrun Hc Ht Hne Hstack. rewrite Ht.
  rewrite (print_thread_boundary st c t Hc Hne). simpl.
  split; [done|]. split; [done|]. intros Hop Hname.
  rewrite rfold_app, Hrun. simpl. unfold print_elem, print_return.
  rewrite Ht, (print_thread_boundary st c t Hc Hne), Hop. simpl.
  rewrite Hstack, Hname. by rewrite print_body_return.
Qed.

Lemma stack_survives_thread_boundary_witness :
  exists st,
    rfold (print_elem false) pr_init (stringify_threads [ex_call 0 "f" 1]) = Ok st
    /\ pr_stack (print_thread st (VStr "1")) = [VStr "f"]
    /\ pr_level (print_thread st (VStr "1")) = 0
    /\ rfold (print_elem false) pr_init
         (stringify_threads [ex_call 0 "f" 1] ++ stringify_threads [ex_return 1 "f" 2]) =
       Ok (PrState (pr_result st +:+ end_line (pr_level st)) (-1) (VStr "1")
                   [] (pr_log st)).
Proof.
  eexists. split; [reflexivity|].
  destruct (stack_survives_thread_boundary false
              (stringify_threads [ex_call 0 "f" 1]) _
              (set_thread (VStr "1") (ex_return 1 "f" 2)) "0" "1" (VStr "f") []
              eq_refl eq_refl eq_refl ltac:(discriminate) eq_refl) as (H1 & H2 & H3).
  split; [exact H1|]. split; [exact H2|]. exact (H3 eq_refl eq_refl).
Defined.

(** C3, as the code has it.  A return element whose name differs from the
    last unmatched call, when there is such a call, does not stop the
    printer: no line is written for it, the depth and the stack stay as
    they are, and the loop goes on with the next element.  The warning is
    written only when [DEBUG_ERROR_TRACE_COMPARISON] is set. *)
Theorem mismatched_return_skipped (debug : bool) (st : pr_state) (e : elem)
    (last_call : pyval) (stack : list pyval) (rest : list elem) :
  is_op (cet_op e) CET_OP_RETURN = true ->
  pr_stack st = last_call :: stack ->
  py_eq (cet_display_name e) last_call = false ->
  exists st',
    print_elem debug st e = Ok st'
    /\ pr_result st' = pr_result (print_thread st (cet_thread e))
    /\ pr_level st' = pr_level (print_thread st (cet_thread e))
    /\ pr_cur_thread st' = pr_cur_thread (print_thread st (cet_thread e))
    /\ pr_stack st' = last_call :: stack
    /\ pr_log st' =
         (if debug
          then pr_log st ++ [no_call_warning (cet_display_name e) last_call (cet_id e)]
          else pr_log st)
    /\ rfold (print_elem debug) st (e :: rest) = rfold (print_elem debug) st' rest.
Proof.
  intros Hop Hstack Hname.
  destruct (print_thread_stack st (cet_thread e)) as [Hs Hl].
  eexists. split.
  - unfold print_elem, print_return. rewrite Hop, Hs, Hstack, Hname. reflexivity.
  - simpl. rewrite Hl. repeat split; try done.
    unfold print_elem, print_return. rewrite Hop, Hs, Hstack, Hname. simpl. by rewrite Hl.
Qed.

Lemma mismatched_return_skipped_witness :
  exists st',
    print_elem DEBUG_ERROR_TRACE_COMPARISON
      (PrState "" 1 (VStr "0") [VStr "g"] []) (set_thread (VStr "0") (ex_return 0 "f" 2))
      = Ok st'
    /\ pr_result st' = "" /\ pr_level st' = 1 /\ pr_cur_thread st' = VStr "0"
    /\ pr_stack st' = [VStr "g"] /\ pr_log st' = []
    /\ rfold (print_elem DEBUG_ERROR_TRACE_COMPARISON)
         (PrState "" 1 (VStr "0") [VStr "g"] [])
         [set_thread (VStr "0") (ex_return 0 "f" 2)] = Ok st'.
Proof.
  destruct (mismatched_return_skipped DEBUG_ERROR_TRACE_COMPARISON
              (PrState "" 1 (VStr "0") [VStr "g"] [])
              (set_thread (VStr "0") (ex_return 0 "f" 2)) (VStr "g") [] []
              eq_refl eq_refl eq_refl) as (st' & H1 & H2 & H3 & H4 & H5 & H6 & H7).
  exists st'. repeat split; assumption.
Defined.

(** C3, as stated, fails twice: a return element that comes when the stack
    is empty stops the printer with the exception of [pop], and with the
    flag as the module sets it a mismatched return is skipped without any
    diagnostic. *)
Lemma return_without_call_counterexample :
  snd (error_trace_pretty_print [ex_return 0 "f" 2]) = Raise IndexError
  /\ snd (error_trace_pretty_print [ex_call 0 "g" 1; ex_return 0 "f" 2])
     = Ok ("    1" +:+ String TAB "" +:+ "|g" +:+ String NL ""
           +:+ "    0" +:+ String TAB "" +:+ "| __ERROR__" +:+ String NL "")
  /\ print_diagnostics [ex_call 0 "g" 1; ex_return 0 "f" 2] = Ok [].
Proof. repeat split; reflexivity. Qed.

(* ===================================================================== *)
(** * The matcher *)
(* ===================================================================== *)

Lemma greedy_inv {R} (cls : ascii -> bool) (k : string -> string -> option R)
    (s : string) (r : R) :
  greedy cls k s = Some r ->
  exists m rest, s = m +:+ rest /\ str_forallb cls m = true /\ k m rest = Some r.
Proof.
  revert k. induction s as [|c s IH]; intros k; simpl.
  - intros H. by exists "", "".
  - destruct (cls c) eqn:Hc.
    + destruct (greedy cls (fun m => k (String c m)) s) as [r'|] eqn:Hg.
      * intros [= ->]. apply IH in Hg as (m & rest & -> & Hm & Hk).
        exists (String c m), rest. simpl. by rewrite Hc, Hm.
      * intros H. by exists "", (String c s).
    + intros H. by exists "", (String c s).
Qed.

Lemma fmap_groups_length (b : bool) (m : string) (o : option (list string))
    (gs : list string) (n : nat) :
  (forall gs', o = Some gs' -> length gs' = n) ->
  (if b then cons m else (fun gs => gs)) <$> o = Some gs ->
  length gs = ((if b then 1 else 0) + n)%nat.
Proof.
  intros Hn. destruct o as [gs'|]; simpl; [|done].
  intros [= <-]. destruct b; simpl; by rewrite (Hn gs' eq_refl).
Qed.

Lemma match_atoms_groups (pat : list atom) (s : string) (gs : list string) :
  match_atoms pat s = Some gs -> length gs = group_count pat.
Proof.
  revert s gs. induction pat as [|a pat IH]; intros s gs; simpl.
  - by destruct (at_end s); intros [= <-].
  - unfold group_count. simpl. fold (group_count pat).
    assert (length (filter (fun a0 => a_group a0 = true) (a :: pat))
            = ((if a_group a then 1 else 0) + group_count pat)%nat) as ->.
    { unfold group_count. rewrite filter_cons. destruct (a_group a); simpl; done. }
    assert (forall m rest gs,
      (if a_group a then cons m else (fun gs => gs)) <$> match_atoms pat rest = Some gs ->
      length gs = ((if a_group a then 1 else 0) + group_count pat)%nat) as Hk.
    { intros m rest gs'. apply fmap_groups_length. intros gs''. apply IH. }
    destruct (a_quant a).
    + destruct s as [|c s]; [done|]. destruct (a_cls a c); [|done]. apply Hk.
    + intros (m & rest & _ & _ & H)%greedy_inv. by apply Hk in H.
    + destruct s as [|c s]; [done|]. destruct (a_cls a c); [|done].
      intros (m & rest & _ & _ & H)%greedy_inv. by apply Hk in H.
    + destruct s as [|c s]; [apply Hk|]. destruct (a_cls a c); [|apply Hk].
      destruct (_ <$> match_atoms pat s) eqn:E; [|apply Hk].
      intros [= <-]. by apply Hk in E.
Qed.

Lemma re_call_groups (line : string) (gs : list string) :
  match_atoms re_call line = Some gs -> exists g1 g2 g3, gs = [g1; g2; g3].
Proof.
  intros H%match_atoms_groups. change (group_count re_call) with 3%nat in H.
  destruct gs as [|g1 [|g2 [|g3 [|]]]]; try done. eauto.
Qed.

Lemma re_assume_groups (line : string) (gs : list string) :
  match_atoms re_assume line = Some gs -> exists g1 g2 g3 g4, gs = [g1; g2; g3; g4].
Proof.
  intros H%match_atoms_groups. change (group_count re_assume) with 4%nat in H.
  destruct gs as [|g1 [|g2 [|g3 [|g4 [|]]]]]; try done. eauto.
Qed.

Lemma re_other_groups (line : string) (gs : list string) :
  match_atoms re_other line = Some gs -> exists g1 g2 g3 g4, gs = [g1; g2; g3; g4].
Proof.
  intros H%match_atoms_groups. change (group_count re_other) with 4%nat in H.
  destruct gs as [|g1 [|g2 [|g3 [|g4 [|]]]]]; try done. eauto.
Qed.

(* ===================================================================== *)
(** * The parser, line by line *)
(* ===================================================================== *)

Lemma parse_line_cases (st : pa_state) (raw : string) :
  (exists g1 g2 g3,
     match_atoms re_call (joined st raw) = Some [g1; g2; g3]
     /\ parse_line st raw = parse_call_line st g1 (len g2) g3)
  \/ (exists g1 g2 g3 g4,
        match_atoms re_call (joined st raw) = None
        /\ match_atoms re_assume (joined st raw) = Some [g1; g2; g3; g4]
        /\ parse_line st raw =
             Ok (PaState (converted_error_trace st
                            ++ [mk_assume (cur_thread st) g4 (negb (String.eqb g3 "")) g1])
                         (cur_thread st) (cur_level st) (stack st) (clear_pending st)))
  \/ (exists g1 g2 g3 g4,
        match_atoms re_call (joined st raw) = None
        /\ match_atoms re_assume (joined st raw) = None
        /\ match_atoms re_other (joined st raw) = Some [g1; g2; g3; g4]
        /\ parse_line st raw =
             Ok (PaState (converted_error_trace st ++ [mk_other (cur_thread st) g3 g4 g1])
                         (cur_thread st) (cur_level st) (stack st) (clear_pending st)))
  \/ (unmatched (joined st raw) = true
      /\ parse_line st raw =
           Ok (PaState (converted_error_trace st) (cur_thread st) (cur_level st)
                       (stack st) (Some (joined st raw)))).
Proof.
  unfold parse_line, unmatched.
  destruct (match_atoms re_call (joined st raw)) as [gs|] eqn:E1.
  { destruct (re_call_groups _ _ E1) as (g1 & g2 & g3 & ->). left. eauto 10. }
  destruct (match_atoms re_assume (joined st raw)) as [gs|] eqn:E2.
  { destruct (re_assume_groups _ _ E2) as (g1 & g2 & g3 & g4 & ->).
    right. left. eauto 10. }
  destruct (match_atoms re_other (joined st raw)) as [gs|] eqn:E3.
  { destruct (re_other_groups _ _ E3) as (g1 & g2 & g3 & g4 & ->).
    right. right. left. eauto 10. }
  right. right. right. done.
Qed.

Lemma pop_returns_ok (n : nat) (thread : Z) (line : string)
    (stack : list string) (trace : list elem) :
  (n <= length stack)%nat ->
  pop_returns n thread line stack trace =
    Ok (drop n stack,
        trace ++ map (fun ret_func => mk_return thread ret_func line) (take n stack)).
Proof.
  revert stack trace. induction n as [|n IH]; intros stack trace Hn; simpl.
  - by rewrite drop_0, app_nil_r.
  - destruct stack as [|f stack]; simpl in *; [lia|].
    rewrite IH by lia. by rewrite <- app_assoc.
Qed.

Lemma pop_returns_underflow (n : nat) (thread : Z) (line : string)
    (stack : list string) (trace : list elem) :
  (length stack < n)%nat ->
  pop_returns n thread line stack trace = Raise IndexError.
Proof.
  revert stack trace. induction n as [|n IH]; intros stack trace Hn; simpl; [lia|].
  destruct stack as [|f stack]; simpl in *; [done|]. apply IH. lia.
Qed.

Lemma pop_returns_inv (n : nat) (thread : Z) (line : string)
    (stack stack' : list string) (trace trace' : list elem) :
  pop_returns n thread line stack trace = Ok (stack', trace') ->
  (n <= length stack)%nat
  /\ stack' = drop n stack
  /\ trace' = trace ++ map (fun ret_func => mk_return thread ret_func line) (take n stack).
Proof.
  intros H. destruct (decide (n <= length stack)%nat) as [Hn|Hn].
  - rewrite pop_returns_ok in H by done. by injection H as <- <-.
  - rewrite pop_returns_underflow in H by lia. done.
Qed.

(** Between two lines the depth of the last call is at least -1, and a
    depth that is not negative comes with a stack that is not empty. *)
Lemma parse_call_line_inv (st st' : pa_state) (line : string) (level : Z) (func : string) :
  0 <= level -> parse_call_line st line level func = Ok st' -> pa_inv st'.
Proof.
  intros Hlevel. unfold parse_call_line.
  destruct (if level =? cur_level st then _ else _) as [e|[stk tr]]; simpl; [done|].
  destruct (String.eqb func CET_END); intros [= <-]; unfold pa_inv; simpl.
  - split; [lia|]. lia.
  - split; [lia|]. done.
Qed.

Lemma len_nonneg (s : string) : 0 <= len s.
Proof. unfold len. lia. Qed.

Lemma parse_line_inv (st st' : pa_state) (raw : string) :
  pa_inv st -> parse_line st raw = Ok st' -> pa_inv st'.
Proof.
  intros Hinv.
  destruct (parse_line_cases st raw)
    as [(g1 & g2 & g3 & _ & ->)
       |[(g1 & g2 & g3 & g4 & _ & _ & ->)
        |[(g1 & g2 & g3 & g4 & _ & _ & _ & ->)|[_ ->]]]].
  - apply parse_call_line_inv, len_nonneg.
  - by intros [= <-].
  - by intros [= <-].
  - by intros [= <-].
Qed.

Lemma parse_lines_inv (lines : list string) (st st' : pa_state) :
  pa_inv st -> parse_lines st lines = Ok st' -> pa_inv st'.
Proof.
  unfold parse_lines.
  revert st. induction lines as [|raw lines IH]; intros st Hinv; simpl.
  - by intros [= <-].
  - destruct (parse_line st raw) as [e|st1] eqn:E; simpl; [done|].
    apply IH. by eapply parse_line_inv.
Qed.

Lemma pa_init_inv : pa_inv pa_init.
Proof. unfold pa_inv, pa_init. simpl. split; [lia|lia]. Qed.

Lemma parse_call_line_popped (st : pa_state) (line : string) (level : Z) (func : string)
    (n : nat) :
  (if level =? cur_level st then
     pop_returns 1 (cur_thread st) line (stack st) (converted_error_trace st)
   else if level <? cur_level st then
     pop_returns (Z.to_nat (cur_level st - level + 1)) (cur_thread st) line
                 (stack st) (converted_error_trace st)
   else Ok (stack st, converted_error_trace st))
  = pop_returns n (cur_thread st) line (stack st) (converted_error_trace st) ->
  (n <= length (stack st))%nat ->
  parse_call_line st line level func = Ok (after_call_line st line level func n).
Proof.
  intros Hpop Hn. unfold parse_call_line, after_call_line, call_part.
  rewrite Hpop, pop_returns_ok by done. simpl.
  destruct (String.eqb func CET_END); [by rewrite app_nil_r | by rewrite app_assoc].
Qed.

(** C4, as the code has it.  On a line of the first shape read at the depth
    of the previous call, exactly one return is emitted, for the function
    on top of the stack.  At a depth smaller by [d], exactly [d + 1] returns
    are emitted, top of the stack first, if the stack holds that many
    names; if it holds fewer the parser stops with the exception of [pop].
    At a greater depth no return is emitted.  After the returns a call
    line adds its call element and pushes the name; an end-marker line
    pushes nothing, advances the thread counter and resets the depth. *)
Theorem call_line_returns (lines : list string) (st : pa_state)
    (raw line indent func : string) :
  parse_lines pa_init lines = Ok st ->
  match_atoms re_call (joined st raw) = Some [line; indent; func] ->
  (len indent = cur_level st ->
     (1 <= length (stack st))%nat
     /\ parse_line st raw = Ok (after_call_line st line (len indent) func 1))
  /\ (len indent < cur_level st ->
        ((Z.to_nat (cur_level st - len indent + 1) <= length (stack st))%nat ->
           parse_line st raw =
             Ok (after_call_line st line (len indent) func
                   (Z.to_nat (cur_level st - len indent + 1))))
        /\ ((length (stack st) < Z.to_nat (cur_level st - len indent + 1))%nat ->
              parse_line st raw = Raise IndexError))
  /\ (cur_level st < len indent ->
        parse_line st raw = Ok (after_call_line st line (len indent) func 0)).
Proof.
  intros Hrun Hm.
  assert (parse_line st raw = parse_call_line st line (len indent) func) as ->.
  { unfold parse_line. by rewrite Hm. }
  pose proof (parse_lines_inv _ _ _ pa_init_inv Hrun) as [Hge Hstack].
  pose proof (len_nonneg indent) as Hlen.
  split; [|split].
  - intros Heq. assert (1 <= length (stack st))%nat as Hone.
    { destruct (stack st); simpl; [|lia]. exfalso. apply Hstack; [lia|done]. }
    split; [done|]. apply parse_call_line_popped; [|done].
    by rewrite (proj2 (Z.eqb_eq _ _) Heq).
  - intros Hlt. split.
    + intros Hn. apply parse_call_line_popped; [|done].
      rewrite (proj2 (Z.eqb_neq _ _)) by lia. by rewrite (proj2 (Z.ltb_lt _ _) Hlt).
    + intros Hn. unfold parse_call_line.
      rewrite (proj2 (Z.eqb_neq _ _)) by lia. rewrite (proj2 (Z.ltb_lt _ _) Hlt).
      by rewrite pop_returns_underflow.
  - intros Hgt. apply parse_call_line_popped; [|simpl; lia].
    rewrite (proj2 (Z.eqb_neq _ _)) by lia. by rewrite (proj2 (Z.ltb_ge _ _)) by lia.
Qed.

Lemma call_line_returns_witness :
  exists st,
    parse_lines pa_init ["1|f"; "2| g"] = Ok st
    /\ match_atoms re_call (joined st "3|h") = Some ["3"; ""; "h"]
    /\ parse_line st "3|h" =
         Ok (PaState
               [mk_call 0 "f" "1"; mk_call 0 "g" "2";
                mk_return 0 "g" "3"; mk_return 0 "f" "3"; mk_call 0 "h" "3"]
               0 0 ["h"] None).
Proof.
  eexists. split; [reflexivity|]. split; [reflexivity|].
  destruct (call_line_returns ["1|f"; "2| g"] _ "3|h" "3" "" "h" eq_refl eq_refl)
    as (_ & H & _).
  destruct (H ltac:(reflexivity)) as [H1 _].
  exact (H1 ltac:(vm_compute; lia)).
Defined.

(** C4, as stated, fails when the indentation went up by more than one
    step: after [f] at depth 0 and [h] at depth 2 the stack holds two names,
    the line of [k] at depth 0 asks for three returns, and the parser stops
    with the exception of [pop]. *)
Lemma call_line_returns_counterexample :
  exists st,
    parse_lines pa_init ["1|f"; "2|  h"] = Ok st
    /\ cur_level st = 2 /\ stack st = ["h"; "f"]
    /\ match_atoms re_call (joined st "3|k") = Some ["3"; ""; "k"]
    /\ parse_line st "3|k" = Raise IndexError
    /\ error_trace_pretty_parse (lines_of ["1|f"; "2|  h"; "3|k"]) = Raise IndexError.
Proof. eexists. repeat split; reflexivity. Qed.

(* ===================================================================== *)
(** * Identifiers and threads of the parsed elements *)
(* ===================================================================== *)

Lemma parse_call_line_emits (st st' : pa_state) (line : string) (level : Z) (func : string) :
  parse_call_line st line level func = Ok st' ->
  exists new,
    converted_error_trace st' = converted_error_trace st ++ new
    /\ Forall (fun e => cet_id e = VInt 0 /\ cet_thread e = VInt (cur_thread st)) new
    /\ cur_thread st' = cur_thread st + (if String.eqb func CET_END then 1 else 0).
Proof.
  unfold parse_call_line.
  destruct (if level =? cur_level st then _ else _) as [e|[stk tr]] eqn:E; simpl; [done|].
  assert (exists n, pop_returns n (cur_thread st) line (stack st) (converted_error_trace st)
                    = Ok (stk, tr)) as [n Hn].
  { destruct (level =? cur_level st); [eauto|].
    destruct (level <? cur_level st); [eauto|]. by exists 0%nat. }
  apply pop_returns_inv in Hn as (_ & _ & ->).
  assert (Forall (fun e => cet_id e = VInt 0 /\ cet_thread e = VInt (cur_thread st))
            (map (fun ret_func => mk_return (cur_thread st) ret_func line)
                 (take n (stack st)))) as Hret.
  { apply Forall_forall. intros e (f & -> & _)%list_elem_of_fmap. done. }
  destruct (String.eqb func CET_END); intros [= <-]; simpl.
  - eexists. split; [done|]. split; [done|]. done.
  - eexists. rewrite <- app_assoc. split; [done|]. split; [|lia].
    apply Forall_app. split; [done|]. by repeat constructor.
Qed.

Lemma parse_line_emits (st st' : pa_state) (raw : string) :
  parse_line st raw = Ok st' ->
  exists new,
    converted_error_trace st' = converted_error_trace st ++ new
    /\ Forall (fun e => cet_id e = VInt 0 /\ cet_thread e = VInt (cur_thread st)) new
    /\ cur_thread st' = cur_thread st + (if is_end_marker (joined st raw) then 1 else 0).
Proof.
  unfold is_end_marker.
  destruct (parse_line_cases st raw)
    as [(g1 & g2 & g3 & -> & ->)
       |[(g1 & g2 & g3 & g4 & -> & _ & ->)
        |[(g1 & g2 & g3 & g4 & -> & _ & _ & ->)|[Hun ->]]]].
  - apply parse_call_line_emits.
  - intros [= <-]. simpl. eexists. split; [done|]. split; [|lia]. by repeat constructor.
  - intros [= <-]. simpl. eexists. split; [done|]. split; [|lia]. by repeat constructor.
  - intros [= <-]. unfold unmatched in Hun.
    destruct (match_atoms re_call (joined st raw)); [done|].
    simpl. exists []. rewrite app_nil_r. split; [done|]. split; [done|lia].
Qed.

Lemma end_markers_nonneg (lines : list string) (st : pa_state) : 0 <= end_markers st lines.
Proof.
  revert st. induction lines as [|raw lines IH]; intros st; simpl; [lia|].
  destruct (is_end_marker (joined st raw)); destruct (parse_line st raw) as [|st1];
    try specialize (IH st1); lia.
Qed.

Lemma parse_lines_emits (lines : list string) (st st' : pa_state) :
  parse_lines st lines = Ok st' ->
  cur_thread st' = cur_thread st + end_markers st lines
  /\ exists new,
       converted_error_trace st' = converted_error_trace st ++ new
       /\ Forall (fun e => cet_id e = VInt 0
                           /\ exists t, cet_thread e = VInt t
                                        /\ cur_thread st <= t <= cur_thread st') new.
Proof.
  unfold parse_lines.
  revert st. induction lines as [|raw lines IH]; intros st; simpl.
  - intros [= <-]. split; [lia|]. exists []. by rewrite app_nil_r.
  - destruct (parse_line st raw) as [e|st1] eqn:E; simpl; [done|]. intros Hrest.
    apply parse_line_emits in E as (new1 & Htr1 & Hnew1 & Hthr1).
    pose proof (end_markers_nonneg lines st1) as Hnn.
    apply IH in Hrest as (Hthr & new2 & Htr2 & Hnew2).
    split; [lia|]. exists (new1 ++ new2).
    split; [by rewrite Htr2, Htr1, app_assoc|].
    apply Forall_app. split.
    + eapply Forall_impl; [exact Hnew1|]. intros e [Hid Ht]. split; [done|].
      eexists. split; [exact Ht|]. destruct (is_end_marker _); lia.
    + eapply Forall_impl; [exact Hnew2|]. intros e (Hid & t & Ht & Hrange).
      split; [done|]. exists t. split; [done|]. destruct (is_end_marker _); lia.
Qed.

Lemma parse_lines_yield (lines : list string) (st0 st' : pa_state) :
  parse_lines st0 lines = Ok st' ->
  exists news : list (list elem),
    length news = length lines
    /\ converted_error_trace st' = converted_error_trace st0 ++ concat news
    /\ forall (i : nat) (new : list elem),
         news !! i = Some new ->
         Forall (fun e => cet_id e = VInt 0
                          /\ cet_thread e
                             = VInt (cur_thread st0 + end_markers st0 (take i lines))) new
         /\ exists raw st st1,
              lines !! i = Some raw
              /\ parse_lines st0 (take i lines) = Ok st
              /\ parse_line st raw = Ok st1
              /\ converted_error_trace st1 = converted_error_trace st ++ new.
Proof.
  unfold parse_lines.
  revert st0. induction lines as [|raw lines IH]; intros st0; simpl.
  - intros [= <-]. exists []. split; [done|]. split; [by rewrite app_nil_r|done].
  - destruct (parse_line st0 raw) as [e|st1] eqn:E; simpl; [done|]. intros Hrest.
    destruct (parse_line_emits _ _ _ E) as (new0 & Htr0 & Hnew0 & Hthr0).
    apply IH in Hrest as (news & Hlen & Htr & Hall).
    exists (new0 :: news). split; [by rewrite <- Hlen|].
    split; [by rewrite Htr, Htr0, <- app_assoc|].
    intros [|i] new.
    + intros [= <-]. split.
      * eapply Forall_impl; [exact Hnew0|]. intros e [Hid Ht]. split; [done|].
        rewrite Ht. f_equal. simpl. lia.
      * exists raw, st0, st1. done.
    + intros Hi. destruct (Hall i new Hi) as (Hnew & raw' & st & st2 & Hraw & Hpre & Hline & Hadd).
      split.
      * eapply Forall_impl; [exact Hnew|]. intros e [Hid Ht]. split; [done|].
        rewrite Ht. f_equal. cbn [take end_markers]. rewrite E. lia.
      * exists raw', st, st2. split; [done|]. split; [|done].
        cbn [take rfold]. by rewrite E.
Qed.

(** C8. The thread counter starts at 0; the elements a line adds carry the
    identifier 0 and the value the counter has when the line is read, and
    the counter goes up by one at an end-marker line and at no other.  So
    the trace the parser returns is, line after line of the text, what
    each line adds, every element with the identifier 0 and, as its
    thread, the number of end-marker lines read before its line: a number
    between 0 and the number of end markers of the text.  This holds also
    when the text comes from the printer. *)
Theorem parsed_ids_and_threads :
  cur_thread pa_init = 0
  /\ (forall st raw st',
        parse_line st raw = Ok st' ->
        exists new,
          converted_error_trace st' = converted_error_trace st ++ new
          /\ Forall (fun e => cet_id e = VInt 0 /\ cet_thread e = VInt (cur_thread st)) new
          /\ cur_thread st' =
               cur_thread st + (if is_end_marker (joined st raw) then 1 else 0))
  /\ (forall text trace,
        error_trace_pretty_parse text = Ok trace ->
        exists news : list (list elem),
          length news = length (splitlines text)
          /\ trace = concat news
          /\ forall (i : nat) (new : list elem),
               news !! i = Some new ->
               Forall (fun e => cet_id e = VInt 0
                                /\ cet_thread e
                                   = VInt (end_markers pa_init (take i (splitlines text))))
                      new
               /\ exists raw st st',
                    splitlines text !! i = Some raw
                    /\ parse_lines pa_init (take i (splitlines text)) = Ok st
                    /\ parse_line st raw = Ok st'
                    /\ converted_error_trace st' = converted_error_trace st ++ new)
  /\ (forall text trace,
        error_trace_pretty_parse text = Ok trace ->
        Forall (fun e => cet_id e = VInt 0
                         /\ exists t, cet_thread e = VInt t
                              /\ 0 <= t <= end_markers pa_init (splitlines text)) trace)
  /\ (forall s text trace,
        snd (error_trace_pretty_print s) = Ok text ->
        error_trace_pretty_parse text = Ok trace ->
        Forall (fun e => cet_id e = VInt 0) trace).
Proof.
  assert (forall text trace,
        error_trace_pretty_parse text = Ok trace ->
        Forall (fun e => cet_id e = VInt 0
                         /\ exists t, cet_thread e = VInt t
                              /\ 0 <= t <= end_markers pa_init (splitlines text)) trace) as Hall.
  { intros text trace. unfold error_trace_pretty_parse.
    destruct (parse_lines pa_init (splitlines text)) as [e|st] eqn:E; simpl; [done|].
    unfold parse_finish. destruct (negb _); [done|]. intros [= <-].
    apply parse_lines_emits in E as (Hthr & new & -> & Hnew). simpl in *.
    eapply Forall_impl; [exact Hnew|]. intros e (Hid & t & Ht & Hrange).
    split; [done|]. exists t. split; [done|]. lia. }
  split; [done|]. split; [intros st raw st'; apply parse_line_emits|].
  split; [|split; [exact Hall|]].
  - intros text trace. unfold error_trace_pretty_parse.
    destruct (parse_lines pa_init (splitlines text)) as [e|st] eqn:E; simpl; [done|].
    unfold parse_finish. destruct (negb _); [done|]. intros [= <-].
    destruct (parse_lines_yield _ _ _ E) as (news & Hlen & Htr & Hnews).
    exists news. split; [done|]. split; [exact Htr|].
    intros i new Hi. destruct (Hnews i new Hi) as [Hnew Hline]. split; [|exact Hline].
    eapply Forall_impl; [exact Hnew|]. intros e [Hid Ht]. split; [done|].
    exact Ht.
  - intros s text trace _ Hparse. eapply Forall_impl; [exact (Hall _ _ Hparse)|].
    by intros e [Hid _].
Qed.

Lemma parsed_ids_and_threads_witness :
  exists text,
    snd (error_trace_pretty_print [ex_call 0 "f" 1; ex_return 0 "f" 2; ex_note 5 "n" 3])
      = Ok text
    /\ error_trace_pretty_parse text
       = Ok [ mk_call 0 "f" "1"; mk_return 0 "f" "0"; mk_other 1 CET_OP_NOTE "n" "3" ]
    /\ end_markers pa_init (splitlines text) = 2
    /\ (exists news : list (list elem),
          length news = length (splitlines text)
          /\ [ mk_call 0 "f" "1"; mk_return 0 "f" "0"; mk_other 1 CET_OP_NOTE "n" "3" ]
             = concat news
          /\ forall (i : nat) (new : list elem),
               news !! i = Some new ->
               Forall (fun e => cet_id e = VInt 0
                                /\ cet_thread e
                                   = VInt (end_markers pa_init (take i (splitlines text))))
                      new
               /\ exists raw st st',
                    splitlines text !! i = Some raw
                    /\ parse_lines pa_init (take i (splitlines text)) = Ok st
                    /\ parse_line st raw = Ok st'
                    /\ converted_error_trace st' = converted_error_trace st ++ new)
    /\ Forall (fun e => cet_id e = VInt 0
                        /\ exists t, cet_thread e = VInt t
                             /\ 0 <= t <= end_markers pa_init (splitlines text))
              [ mk_call 0 "f" "1"; mk_return 0 "f" "0"; mk_other 1 CET_OP_NOTE "n" "3" ]
    /\ Forall (fun e => cet_id e = VInt 0)
              [ mk_call 0 "f" "1"; mk_return 0 "f" "0"; mk_other 1 CET_OP_NOTE "n" "3" ].
Proof.
  eexists. split; [reflexivity|]. split; [reflexivity|]. split; [reflexivity|].
  destruct parsed_ids_and_threads as (_ & _ & H3 & H4 & H5).
  split; [|split].
  - apply H3. reflexivity.
  - apply H4. reflexivity.
  - apply (H5 [ex_call 0 "f" 1; ex_return 0 "f" 2; ex_note 5 "n" 3] _ _ eq_refl).
    reflexivity.
Defined.

(* ===================================================================== *)
(** * Lines that do not parse *)
(* ===================================================================== *)

Lemma pending_cleared (st : pa_state) :
  match clear_pending st with Some l => l | None => "" end = "".
Proof.
  unfold clear_pending, pending. destruct (not_parsed st) as [l|]; simpl; [|done].
  destruct (String.eqb_spec l ""); simpl; done.
Qed.

Lemma parse_call_line_pending (st st' : pa_state) (line : string) (level : Z) (func : string) :
  parse_call_line st line level func = Ok st' -> pending st' = "".
Proof.
  unfold parse_call_line.
  destruct (if level =? cur_level st then _ else _) as [e|[stk tr]]; simpl; [done|].
  destruct (String.eqb func CET_END); intros [= <-]; unfold pending; simpl;
    apply pending_cleared.
Qed.

Lemma parse_call_line_raises (st : pa_state) (line : string) (level : Z) (func : string)
    (e : exn) :
  parse_call_line st line level func = Raise e -> e = IndexError.
Proof.
  unfold parse_call_line.
  assert (forall n stk tr, pop_returns n (cur_thread st) line stk tr = Raise e
                           -> e = IndexError) as Hpop.
  { induction n as [|n IH]; intros stk tr; simpl; [done|].
    destruct stk; [by intros [= <-] | apply IH]. }
  destruct (level =? cur_level st).
  { destruct (pop_returns 1 _ _ _ _) as [e'|p] eqn:E; simpl.
    - intros [= <-]. by apply Hpop in E.
    - by destruct (String.eqb func CET_END). }
  destruct (level <? cur_level st).
  { destruct (pop_returns _ _ _ _ _) as [e'|p] eqn:E; simpl.
    - intros [= <-]. by apply Hpop in E.
    - by destruct (String.eqb func CET_END). }
  simpl. by destruct (String.eqb func CET_END).
Qed.

Lemma parse_line_raises (st : pa_state) (raw : string) (e : exn) :
  parse_line st raw = Raise e -> e = IndexError.
Proof.
  destruct (parse_line_cases st raw)
    as [(g1 & g2 & g3 & _ & ->)
       |[(g1 & g2 & g3 & g4 & _ & _ & ->)
        |[(g1 & g2 & g3 & g4 & _ & _ & _ & ->)|[_ ->]]]]; try done.
  apply parse_call_line_raises.
Qed.

Lemma parse_lines_raises (lines : list string) (st : pa_state) (e : exn) :
  parse_lines st lines = Raise e -> e = IndexError.
Proof.
  unfold parse_lines. revert st. induction lines as [|raw lines IH]; intros st; simpl.
  - done.
  - destruct (parse_line st raw) as [e'|st1] eqn:E; simpl.
    + intros [= <-]. by apply parse_line_raises in E.
    + apply IH.
Qed.

Lemma parse_line_pending (st st' : pa_state) (raw : string) :
  parse_line st raw = Ok st' ->
  pending st' <> "" ->
  unmatched (joined st raw) = true /\ pending st' = joined st raw.
Proof.
  destruct (parse_line_cases st raw)
    as [(g1 & g2 & g3 & _ & ->)
       |[(g1 & g2 & g3 & g4 & _ & _ & ->)
        |[(g1 & g2 & g3 & g4 & _ & _ & _ & ->)|[Hun ->]]]].
  - intros H%parse_call_line_pending. done.
  - intros [= <-]. unfold pending. simpl. by rewrite pending_cleared.
  - intros [= <-]. unfold pending. simpl. by rewrite pending_cleared.
  - intros [= <-]. done.
Qed.

Lemma list_last_cases {A} (l : list A) : l = [] \/ exists l' x, l = l' ++ [x].
Proof. induction l as [|x l' _] using rev_ind; [by left | right; eauto]. Qed.

Lemma parse_lines_snoc (st : pa_state) (lines : list string) (raw : string) :
  parse_lines st (lines ++ [raw]) =
    let! st' := parse_lines st lines in parse_line st' raw.
Proof.
  unfold parse_lines. rewrite rfold_app.
  destruct (rfold parse_line st lines) as [e|st1]; simpl; [done|].
  by destruct (parse_line st1 raw).
Qed.

(** C2, as the code has it.  A line of none of the three shapes is never an
    error where it stands: its text, stripped and joined to what was kept
    before, is kept and put in front of the next line.  The parse error is
    raised after the last line, exactly when the text kept at that point is
    not empty, and it reports that text. *)
Theorem unmatched_line_error :
  (forall st raw,
     unmatched (joined st raw) = true ->
     parse_line st raw =
       Ok (PaState (converted_error_trace st) (cur_thread st) (cur_level st) (stack st)
                   (Some (joined st raw))))
  /\ (forall st raw st' next,
        unmatched (joined st raw) = true ->
        parse_line st raw = Ok st' ->
        joined st' next = joined st raw +:+ strip next)
  /\ (forall text lines raw st,
        splitlines text = lines ++ [raw] ->
        parse_lines pa_init lines = Ok st ->
        unmatched (joined st raw) = true ->
        joined st raw <> "" ->
        error_trace_pretty_parse text = Raise (parse_error (joined st raw)))
  /\ (forall text msg,
        error_trace_pretty_parse text = Raise (ValueError msg) ->
        exists lines raw st,
          splitlines text = lines ++ [raw]
          /\ parse_lines pa_init lines = Ok st
          /\ unmatched (joined st raw) = true
          /\ joined st raw <> ""
          /\ ValueError msg = parse_error (joined st raw)).
Proof.
  assert (forall st raw,
     unmatched (joined st raw) = true ->
     parse_line st raw =
       Ok (PaState (converted_error_trace st) (cur_thread st) (cur_level st) (stack st)
                   (Some (joined st raw)))) as Hstep.
  { intros st raw Hun. unfold unmatched in Hun. unfold parse_line.
    destruct (match_atoms re_call (joined st raw)); [done|].
    destruct (match_atoms re_assume (joined st raw)); [done|].
    destruct (match_atoms re_other (joined st raw)); done. }
  split; [exact Hstep|]. split; [|split].
  - intros st raw st' next Hun. rewrite (Hstep _ _ Hun). intros [= <-].
    unfold joined at 1. unfold pending. simpl.
    destruct (String.eqb_spec (joined st raw) "") as [->|]; simpl; done.
  - intros text lines raw st Hsplit Hrun Hun Hne.
    unfold error_trace_pretty_parse. rewrite Hsplit, parse_lines_snoc, Hrun. simpl.
    rewrite (Hstep _ _ Hun). simpl. unfold parse_finish, pending. simpl.
    by apply String.eqb_neq in Hne as ->.
  - intros text msg. unfold error_trace_pretty_parse.
    destruct (list_last_cases (splitlines text)) as [->|(ls & l & Hsplit)]; [done|].
    rewrite Hsplit, parse_lines_snoc.
    destruct (parse_lines pa_init ls) as [e|st] eqn:Hrun; simpl.
    { intros [= ->]. by apply parse_lines_raises in Hrun. }
    destruct (parse_line st l) as [e|st'] eqn:Hline; simpl.
    { intros [= ->]. by apply parse_line_raises in Hline. }
    unfold parse_finish. destruct (String.eqb_spec (pending st') ""); simpl; [done|].
    intros Hmsg. destruct (parse_line_pending _ _ _ Hline n) as [Hun Hpend].
    exists ls, l, st. rewrite <- Hpend. unfold Raise in Hmsg.
    repeat split; try done; congruence.
Qed.

Lemma unmatched_line_error_witness :
  exists st,
    parse_lines pa_init ["1|f"] = Ok st
    /\ unmatched (joined st "2|note: 'ab") = true
    /\ joined st "2|note: 'ab" <> ""
    /\ error_trace_pretty_parse (lines_of ["1|f"; "2|note: 'ab"])
       = Raise (parse_error "2|note: 'ab").
Proof.
  eexists. split; [reflexivity|]. split; [reflexivity|]. split; [discriminate|].
  destruct unmatched_line_error as (_ & _ & H & _).
  exact (H (lines_of ["1|f"; "2|note: 'ab"]) ["1|f"] "2|note: 'ab" _
           eq_refl eq_refl eq_refl ltac:(discriminate)).
Defined.

(** C2, as stated, fails: a line of none of the shapes that is followed by
    the rest of its text is joined to the next line and parsed with it, and
    a blank line is passed over; in both cases a sequence is returned. *)
Lemma unmatched_line_counterexample :
  unmatched "1|note: 'ab" = true
  /\ splitlines (lines_of ["1|note: 'ab"; "cd'"]) = ["1|note: 'ab"; "cd'"]
  /\ error_trace_pretty_parse (lines_of ["1|note: 'ab"; "cd'"])
     = Ok [mk_other 0 "note" "abcd" "1"]
  /\ unmatched "" = true
  /\ splitlines (lines_of ["1|f"; ""; "2| g"]) = ["1|f"; ""; "2| g"]
  /\ error_trace_pretty_parse (lines_of ["1|f"; ""; "2| g"])
     = Ok [mk_call 0 "f" "1"; mk_call 0 "g" "2"].
Proof. repeat split; reflexivity. Qed.

(* ===================================================================== *)
(** * Thread boundaries *)
(* ===================================================================== *)





Lemma py_eq_str (a b : string) : py_eq (VStr a) (VStr b) = true <-> a = b.
Proof. simpl. apply String.eqb_eq. Qed.




Section PrinterByThreads.

Variable debug : bool.


Lemma print_body_cur_thread (st st' : pr_state) (e : elem) :
  print_body st e = Ok st' -> pr_cur_thread st' = pr_cur_thread st.
Proof.
  unfold print_body. destruct (if is_op (cet_op e) CET_OP_CALL then _ else _);
    simpl; [done|]. by destruct (is_op (cet_op e) CET_OP_CALL); intros [= <-].
Qed.

Lemma print_return_cur_thread (st st' : pr_state) (e : elem) :
  print_return debug st e = Ok st' -> pr_cur_thread st' = pr_cur_thread st.
Proof.
  unfold print_return. destruct (is_op (cet_op e) CET_OP_RETURN).
  - destruct (pr_stack st) as [|last_call stk]; [done|].
    destruct (py_eq _ _).
    + intros H%print_body_cur_thread. done.
    + by intros [= <-].
  - apply print_body_cur_thread.
Qed.

Lemma print_thread_same (st : pr_state) (t : string) :
  pr_cur_thread st = VStr t -> print_thread st (VStr t) = st.
Proof.
  intros Hc. unfold print_thread. rewrite Hc. simpl. by rewrite String.eqb_refl.
Qed.

Lemma print_thread_other (st : pr_state) (c t : string) :
  pr_cur_thread st = VStr c -> String.eqb c t = false ->
  print_thread st (VStr t) = spec_enter (spec_mark st) (VStr t).
Proof. intros Hc Hne. unfold print_thread. rewrite Hc. simpl. by rewrite Hne. Qed.





End PrinterByThreads.



(* ===================================================================== *)
(** * [process_args] *)
(* ===================================================================== *)

Lemma process_tag_lookup (as_str : bool) (args : gmap string argval) (tag key : string) :
  process_tag as_str args tag !! key =
    if decide (key = tag) then process_value as_str (args !! tag) else args !! key.
Proof.
  unfold process_tag, process_value.
  destruct (args !! tag) as [v|] eqn:E.
  - destruct (arg_truthy v); case_decide; subst;
      by rewrite ?lookup_insert_eq, ?lookup_insert_ne, ?lookup_delete_eq, ?lookup_delete_ne.
  - case_decide; by subst.
Qed.

Lemma foldl_process_lookup (as_str : bool) (tags : list string) :
  NoDup tags ->
  forall (args : gmap string argval) (key : string),
    foldl (process_tag as_str) args tags !! key =
      if decide (key ∈ tags) then process_value as_str (args !! key) else args !! key.
Proof.
  induction tags as [|t tags IH]; intros Hnd args key; simpl.
  - done.
  - apply NoDup_cons in Hnd as [Hnotin Hnd]. rewrite (IH Hnd).
    rewrite !process_tag_lookup.
    destruct (decide (key = t)) as [->|Hne].
    + rewrite decide_False by done. by rewrite decide_True by (apply elem_of_cons; auto).
    + destruct (decide (key ∈ tags)) as [Hin|Hin].
      * by rewrite decide_True by (apply elem_of_cons; auto).
      * by rewrite decide_False by (apply not_elem_of_cons; auto).
Qed.

Lemma recognized_tags_nodup : NoDup RECOGNIZED_TAGS.
Proof. apply (bool_decide_unpack _). by vm_compute. Qed.

Lemma process_args_lookup (as_str : bool) (args : gmap string argval) (key : string) :
  process_args args as_str !! key =
    if decide (key ∈ RECOGNIZED_TAGS) then process_value as_str (args !! key)
    else args !! key.
Proof. apply foldl_process_lookup, recognized_tags_nodup. Qed.

Lemma foldr_delete_lookup (tags : list string) (args : gmap string argval) (key : string) :
  foldr delete args tags !! key = if decide (key ∈ tags) then None else args !! key.
Proof.
  induction tags as [|t tags IH]; simpl.
  - done.
  - destruct (decide (key = t)) as [->|Hne].
    + rewrite lookup_delete_eq. by rewrite decide_True by (apply elem_of_cons; auto).
    + rewrite lookup_delete_ne by done. rewrite IH.
      destruct (decide (key ∈ tags)) as [Hin|Hin].
      * by rewrite decide_True by (apply elem_of_cons; auto).
      * by rewrite decide_False by (apply not_elem_of_cons; auto).
Qed.

Lemma sort_strings_sorted (l : list string) : Sorted String.le (sort_strings l).
Proof. apply (Sorted_merge_sort String.le). Qed.

Lemma sort_strings_perm (l : list string) : sort_strings l ≡ₚ l.
Proof. apply (merge_sort_Permutation String.le). Qed.

Lemma sort_strings_unique (l1 l2 : list string) :
  l1 ≡ₚ l2 -> sort_strings l1 = sort_strings l2.
Proof.
  intros Hp. apply (Sorted_unique String.le); try apply sort_strings_sorted.
  by rewrite !sort_strings_perm.
Qed.

Lemma sort_strings_idemp (l : list string) : sort_strings (sort_strings l) = sort_strings l.
Proof. apply sort_strings_unique, sort_strings_perm. Qed.

Lemma split_on_nonempty (sep : ascii) (s : string) : split_on sep s <> [].
Proof.
  destruct s as [|c s]; simpl; [done|].
  destruct (Ascii.eqb c sep); [done|]. by destruct (split_on sep s).
Qed.

Lemma perm_nonempty {A} (l1 l2 : list A) : l1 ≡ₚ l2 -> l1 <> [] -> l2 <> [].
Proof. intros Hp Hne ->. by apply Permutation_nil_r in Hp. Qed.

Lemma canonical_same (as_str : bool) (v1 v2 : argval) :
  match as_list v1, as_list v2 with
  | Some l1, Some l2 => l1 ≡ₚ l2
  | None, None => v1 = v2
  | _, _ => False
  end ->
  canonical as_str v1 = canonical as_str v2.
Proof.
  unfold canonical.
  destruct v1 as [|b1|z1|s1|l1], v2 as [|b2|z2|s2|l2]; simpl; try done;
    try (by intros ->); intros Hp; by rewrite (sort_strings_unique _ _ Hp).
Qed.

Lemma process_value_same (as_str : bool) (o1 o2 : option argval) :
  same_option o1 o2 -> process_value as_str o1 = process_value as_str o2.
Proof.
  unfold same_option, process_value.
  destruct o1 as [v1|], o2 as [v2|]; try done.
  - destruct (arg_truthy v1).
    + intros [-> H]. f_equal. by apply canonical_same.
    + by intros ->.
  - by intros ->.
  - by intros ->.
Qed.

Lemma arg_truthy_canonical (v : argval) :
  arg_truthy v = true -> arg_truthy (canonical false v) = true.
Proof.
  destruct v as [|b|z|s|l]; simpl; try done.
  - intros _. pose proof (perm_nonempty _ _ (symmetry (sort_strings_perm (split_on "," s)))
                            (split_on_nonempty "," s)) as H.
    by destruct (sort_strings (split_on "," s)).
  - intros Hl. assert (l <> []) as Hne by (by destruct l).
    pose proof (perm_nonempty _ _ (symmetry (sort_strings_perm l)) Hne) as H.
    by destruct (sort_strings l).
Qed.

Lemma canonical_idemp (v : argval) :
  canonical false (canonical false v) = canonical false v.
Proof.
  destruct v as [|b|z|s|l]; try done; unfold canonical; by rewrite sort_strings_idemp.
Qed.

Lemma process_value_idemp (o : option argval) :
  process_value false (process_value false o) = process_value false o.
Proof.
  destruct o as [v|]; simpl; [|done].
  destruct (arg_truthy v) eqn:E; simpl; [|done].
  by rewrite (arg_truthy_canonical _ E), canonical_idemp.
Qed.

Lemma process_args_idemp (args : gmap string argval) :
  process_args (process_args args false) false = process_args args false.
Proof.
  apply map_eq. intros key. rewrite !process_args_lookup.
  destruct (decide (key ∈ RECOGNIZED_TAGS)); [apply process_value_idemp | done].
Qed.

Section CacheKey.

(** [json.dumps(args, sort_keys=True)]: with the keys sorted, the string
    depends on the contents of the mapping only. *)
Variable json_dumps : gmap string argval -> string.

(** C7. [process_args] leaves under every recognised tag whose value is
    not empty the sorted list of its elements (the elements of a
    comma-separated string are split first; with [as_str] the sorted list
    is joined again), removes every recognised tag whose value is empty
    and leaves the other keys alone.  So two mappings that denote the
    same options (the same elements in any order and in either form, an
    empty value or none, the same scalars) end as the same mapping and
    give the same cache key. *)
Theorem process_args_canonical (args1 args2 : gmap string argval) (as_str : bool) :
  same_args args1 args2 ->
  process_args args1 as_str = process_args args2 as_str
  /\ json_dumps (process_args args1 as_str) = json_dumps (process_args args2 as_str)
  /\ (forall tag,
        tag ∈ RECOGNIZED_TAGS ->
        match args1 !! tag with
        | Some v =>
            if arg_truthy v then
              match as_list v with
              | Some l =>
                  exists l',
                    l' ≡ₚ l /\ Sorted String.le l'
                    /\ process_args args1 false !! tag = Some (AList l')
                    /\ process_args args1 true !! tag = Some (AStr (join "," l'))
              | None => process_args args1 as_str !! tag = Some v
              end
            else process_args args1 as_str !! tag = None
        | None => process_args args1 as_str !! tag = None
        end)
  /\ (forall key,
        key ∉ RECOGNIZED_TAGS -> process_args args1 as_str !! key = args1 !! key).
Proof.
  intros [Htags Hrest].
  assert (process_args args1 as_str = process_args args2 as_str) as Heq.
  { apply map_eq. intros key. rewrite !process_args_lookup.
    destruct (decide (key ∈ RECOGNIZED_TAGS)) as [Hin|Hin].
    - apply process_value_same. by apply (proj1 (Forall_forall _ _) Htags).
    - pose proof (f_equal (fun m => m !! key) Hrest) as H. cbv beta in H.
      by rewrite !foldr_delete_lookup, !decide_False in H by done. }
  split; [done|]. split; [by rewrite Heq|]. split.
  - intros tag Hin. rewrite !process_args_lookup, !decide_True by done.
    destruct (args1 !! tag) as [v|]; simpl; [|done].
    destruct (arg_truthy v); [|done].
    destruct v as [|b|z|s|l]; simpl; try done.
    + exists (sort_strings (split_on "," s)).
      split; [apply sort_strings_perm|]. split; [apply sort_strings_sorted|done].
    + exists (sort_strings l).
      split; [apply sort_strings_perm|]. split; [apply sort_strings_sorted|done].
  - intros key Hin. by rewrite process_args_lookup, decide_False.
Qed.

End CacheKey.

Lemma process_args_canonical_witness :
  process_args ex_args1 false = process_args ex_args2 false
  /\ ex_dumps (process_args ex_args1 false) = ex_dumps (process_args ex_args2 false)
  /\ process_args ex_args1 false !! TAG_ADDITIONAL_MODEL_FUNCTIONS = Some (AList ["a"; "b"])
  /\ process_args ex_args1 false !! TAG_USE_NOTES = None
  /\ process_args ex_args1 false !! "other" = Some (AInt 7).
Proof.
  assert (same_args ex_args1 ex_args2) as Hsame.
  { split; [repeat constructor; exact eq_refl|].
    apply (bool_decide_unpack _). by vm_compute. }
  destruct (process_args_canonical ex_dumps ex_args1 ex_args2 false Hsame)
    as (H1 & H2 & _ & _).
  split; [exact H1|]. split; [exact H2|]. repeat split; reflexivity.
Defined.

(* ===================================================================== *)
(** * What the functions do to their arguments *)
(* ===================================================================== *)

Lemma py_str_idemp (v : pyval) : py_str (VStr (py_str v)) = py_str v.
Proof. done. Qed.

Lemma stringify_threads_idemp (s : list elem) :
  stringify_threads (stringify_threads s) = stringify_threads s.
Proof.
  unfold stringify_threads. rewrite <- list_fmap_compose.
  apply list_fmap_ext. intros i e _. done.
Qed.

Lemma stringify_threads_fields (s : list elem) :
  Forall2 (fun e e' => cet_thread e' = VStr (py_str (cet_thread e)) /\ same_but_thread e e')
          s (stringify_threads s).
Proof.
  unfold stringify_threads. apply Forall2_fmap_r, Forall_Forall2_diag, Forall_forall.
  intros e _. done.
Qed.

(** C6, as the code has it.  The printer writes to the elements of its
    argument: it replaces the thread of each by its string and changes
    nothing else, so a second call on the same list leaves the list as the
    first call left it and returns the same text.  [process_args] works on
    the caller's mapping: it rewrites the recognised options there and
    leaves the other keys alone, and, with lists kept as lists, a second
    call changes nothing more. *)
Theorem functions_update_in_place :
  (forall s,
     Forall2 (fun e e' => cet_thread e' = VStr (py_str (cet_thread e))
                          /\ same_but_thread e e')
             s (fst (error_trace_pretty_print s))
     /\ error_trace_pretty_print (fst (error_trace_pretty_print s))
        = error_trace_pretty_print s)
  /\ (forall s,
        Forall thread_is_str s -> fst (error_trace_pretty_print s) = s)
  /\ (forall args as_str key,
        key ∉ RECOGNIZED_TAGS -> process_args args as_str !! key = args !! key)
  /\ (forall args as_str tag,
        tag ∈ RECOGNIZED_TAGS ->
        process_args args as_str !! tag = process_value as_str (args !! tag))
  /\ (forall args,
        process_args (process_args args false) false = process_args args false).
Proof.
  split; [|split; [|split; [|split]]].
  - intros s. split; [apply stringify_threads_fields|].
    unfold error_trace_pretty_print. simpl. by rewrite stringify_threads_idemp.
  - intros s Hstr. simpl. unfold stringify_threads.
    induction Hstr as [|e s [t Ht] _ IH]; simpl; [done|]. rewrite IH. f_equal.
    destruct e. simpl in *. by rewrite Ht.
  - intros args as_str key Hin. by rewrite process_args_lookup, decide_False.
  - intros args as_str tag Hin. by rewrite process_args_lookup, decide_True.
  - apply process_args_idemp.
Qed.

Lemma functions_update_in_place_witness :
  fst (error_trace_pretty_print (stringify_threads [ex_call 0 "f" 1]))
    = stringify_threads [ex_call 0 "f" 1]
  /\ process_args ex_args1 false !! "other" = ex_args1 !! "other"
  /\ process_args ex_args1 false !! TAG_USE_NOTES
     = process_value false (ex_args1 !! TAG_USE_NOTES).
Proof.
  destruct functions_update_in_place as (_ & H2 & H3 & H4 & _).
  split; [|split].
  - apply H2. repeat constructor. by eexists.
  - apply H3. apply (bool_decide_unpack _). by vm_compute.
  - apply H4. apply (bool_decide_unpack _). by vm_compute.
Defined.

(** C6, as stated, fails: after the call the element the printer was given
    carries the string "0" where it carried the number 0, and the mapping
    [process_args] was given has lost the option with the empty value and
    has a sorted list where it had a string. *)
Lemma input_unchanged_counterexample :
  fst (error_trace_pretty_print [ex_call 0 "f" 1]) <> [ex_call 0 "f" 1]
  /\ cet_thread <$> fst (error_trace_pretty_print [ex_call 0 "f" 1]) = [VStr "0"]
  /\ process_args ex_args1 false <> ex_args1
  /\ ex_args1 !! TAG_USE_NOTES = Some (AStr "")
  /\ process_args ex_args1 false !! TAG_USE_NOTES = None
  /\ ex_args1 !! TAG_ADDITIONAL_MODEL_FUNCTIONS = Some (AStr "b,a")
  /\ process_args ex_args1 false !! TAG_ADDITIONAL_MODEL_FUNCTIONS
     = Some (AList ["a"; "b"]).
Proof.
  split; [discriminate|]. split; [reflexivity|].
  split; [|repeat split; reflexivity].
  intros H. pose proof (f_equal (fun m => m !! TAG_USE_NOTES) H) as H'.
  vm_compute in H'. discriminate.
Qed.

(* ===================================================================== *)
(** * Lines, blanks and character classes *)
(* ===================================================================== *)

Lemma unlines_app (a b : list string) : unlines (a ++ b) = unlines a +:+ unlines b.
Proof.
  induction a as [|l a IH]; simpl; [done|]. by rewrite IH, !sapp_assoc.
Qed.

Lemma splitlines_line (l rest : string) :
  no_linebreak l = true ->
  splitlines (l +:+ String NL rest) = l :: splitlines rest.
Proof.
  unfold no_linebreak. induction l as [|c l IH]; simpl.
  - intros _. by destruct rest.
  - intros [Hc Hl]%andb_true_iff. apply negb_true_iff in Hc. rewrite Hc.
    by rewrite (IH Hl).
Qed.

Lemma splitlines_unlines (lines : list string) :
  Forall (fun l => no_linebreak l = true) lines ->
  splitlines (unlines lines) = lines.
Proof.
  induction 1 as [|l lines Hl _ IH]; simpl; [done|].
  by rewrite splitlines_line, IH.
Qed.

Lemma last_char_app (a b : string) :
  last_char (a +:+ b) = match b with EmptyString => last_char a | _ => last_char b end.
Proof.
  induction a as [|c a IH]; simpl; [by destruct b|].
  rewrite IH. destruct a as [|x a]; simpl; [by destruct b|].
  by destruct b.
Qed.

Lemma rstrip_keeps (s : string) (c : ascii) :
  last_char s = Some c -> is_space c = false -> rstrip s = s.
Proof.
  intros Hlast Hc. induction s as [|x s IH]; simpl in *; [done|].
  destruct s as [|y s].
  - injection Hlast as ->. simpl. by rewrite Hc.
  - rewrite (IH Hlast). done.
Qed.

Lemma lstrip_blanks (n : nat) (s : string) : lstrip (blanks n +:+ s) = lstrip s.
Proof. induction n as [|n IH]; simpl; [done | exact IH]. Qed.

Lemma lstrip_keeps (c : ascii) (s : string) :
  is_space c = false -> lstrip (String c s) = String c s.
Proof. intros Hc. simpl. by rewrite Hc. Qed.

Lemma blanks_length (n : nat) : String.length (blanks n) = n.
Proof. apply str_rep_length. Qed.

Lemma blanks_all (n : nat) : str_forallb (Ascii.eqb " ") (blanks n) = true.
Proof. by apply str_forallb_rep. Qed.

Lemma blanks_no_linebreak (n : nat) : no_linebreak (blanks n) = true.
Proof. by apply str_forallb_rep. Qed.

Lemma str_mul_blanks (n : nat) : str_mul " " (Z.of_nat n) = blanks n.
Proof. unfold str_mul, blanks. by rewrite Nat2Z.id. Qed.

Lemma digit_not_space (c : ascii) : is_digit c = true -> is_space c = false.
Proof. destruct c as [[] [] [] [] [] [] [] []]; by vm_compute. Qed.

Lemma digit_not_bar (c : ascii) : is_digit c = true -> Ascii.eqb "|" c = false.
Proof. destruct c as [[] [] [] [] [] [] [] []]; by vm_compute. Qed.

Lemma digit_no_linebreak (c : ascii) : is_digit c = true -> negb (is_linebreak c) = true.
Proof. destruct c as [[] [] [] [] [] [] [] []]; by vm_compute. Qed.

Lemma word_not_space (c : ascii) : is_word c = true -> is_space c = false.
Proof. destruct c as [[] [] [] [] [] [] [] []]; by vm_compute. Qed.

Lemma word_not_colon (c : ascii) : is_word c = true -> Ascii.eqb ":" c = false.
Proof. destruct c as [[] [] [] [] [] [] [] []]; by vm_compute. Qed.

Lemma word_not_nl (c : ascii) : is_word c = true -> Ascii.eqb c NL = false.
Proof. destruct c as [[] [] [] [] [] [] [] []]; by vm_compute. Qed.

Lemma word_no_linebreak (c : ascii) : is_word c = true -> negb (is_linebreak c) = true.
Proof. destruct c as [[] [] [] [] [] [] [] []]; by vm_compute. Qed.

Lemma no_linebreak_dot (c : ascii) : negb (is_linebreak c) = true -> is_dot c = true.
Proof. destruct c as [[] [] [] [] [] [] [] []]; by vm_compute. Qed.

Lemma last_char_class (p : ascii -> bool) (s : string) :
  s <> "" -> str_forallb p s = true -> exists c, last_char s = Some c /\ p c = true.
Proof.
  induction s as [|x s IH]; [done|]. intros _ [Hx Hs]%andb_true_iff.
  destruct s as [|y s]; [by exists x|]. by apply IH.
Qed.

(* ===================================================================== *)
(** * Runs of a class under the matcher *)
(* ===================================================================== *)

(** When what follows a repetition cannot start with a character of the
    class, only the longest repetition can succeed. *)
Lemma greedy_exact {R} (cls : ascii -> bool) (k : string -> string -> option R)
    (m rest : string) :
  str_forallb cls m = true ->
  stops cls rest = true ->
  (forall m1 c s', cls c = true -> k m1 (String c s') = None) ->
  greedy cls k (m +:+ rest) = k m rest.
Proof.
  revert k. induction m as [|x m IH]; intros k Hm Hrest Hk; simpl.
  - destruct rest as [|c rest]; simpl in *; [done|].
    apply negb_true_iff in Hrest. by rewrite Hrest.
  - simpl in Hm. apply andb_true_iff in Hm as [Hx Hm]. rewrite Hx.
    rewrite (IH (fun m0 => k (String x m0))); [|done|done|].
    + destruct (k (String x m) rest) eqn:E; [done|]. by apply Hk.
    + intros m1 c s' Hc. by apply Hk.
Qed.

(** A repetition that runs to the end of the line gives back its last
    character when the pattern needs it. *)
Lemma greedy_last {R} (cls : ascii -> bool) (k : string -> string -> option R)
    (m : string) (c : ascii) (r : R) :
  str_forallb cls m = true ->
  cls c = true ->
  (forall m1, k m1 "" = None) ->
  k m (String c "") = Some r ->
  greedy cls k (m +:+ String c "") = Some r.
Proof.
  revert k. induction m as [|x m IH]; intros k Hm Hc Hend Hk; simpl.
  - rewrite Hc. simpl. by rewrite Hend.
  - simpl in Hm. apply andb_true_iff in Hm as [Hx Hm]. rewrite Hx.
    rewrite (IH (fun m0 => k (String x m0))); try done.
Qed.

(* ===================================================================== *)
(** * The patterns on the printed lines *)
(* ===================================================================== *)

Lemma match_prefix (tail : list atom) (digits : string) (k : nat) (rest : string) :
  digits <> "" ->
  str_forallb is_digit digits = true ->
  stops (Ascii.eqb " ") rest = true ->
  (forall s, match_atoms tail (String " " s) = None) ->
  match_atoms (re_prefix ++ tail)
              (stripped_text digits k rest)
  = (fun gs => digits :: blanks k :: gs) <$> match_atoms tail rest.
Proof.
  intros Hne Hd Hstop Htail. unfold stripped_text.
  destruct digits as [|d ds]; [done|].
  simpl in Hd. apply andb_true_iff in Hd as [Hd Hds].
  unfold re_prefix. cbn [app match_atoms a_quant a_cls a_group]. 
  rewrite sapp_cons. cbn [greedy]. rewrite (digit_not_space _ Hd), Hd.
  rewrite greedy_exact; [|done|done|].
  2:{ intros m1 c s' Hc. cbn [greedy]. by rewrite (digit_not_space _ Hc), (digit_not_bar _ Hc). }
  cbn [greedy]. change (is_space TAB) with true. change (is_space "|") with false.
  cbn iota. change ("|" =? "|")%char with true. cbn iota.
  rewrite greedy_exact; [|apply blanks_all|done|].
  2:{ intros m1 c s' <-%Ascii.eqb_eq. by rewrite Htail. }
  by destruct (match_atoms tail rest).
Qed.

Lemma word_not_blank (c : ascii) : is_word c = true -> Ascii.eqb " " c = false.
Proof. destruct c as [[] [] [] [] [] [] [] []]; by vm_compute. Qed.

Lemma call_tail_ok (name : string) :
  name <> "" -> str_forallb is_word name = true ->
  match_atoms call_tail name = Some [name].
Proof.
  intros Hne Hw. destruct name as [|c name]; [done|].
  simpl in Hw. apply andb_true_iff in Hw as [Hc Hw].
  unfold call_tail. cbn [match_atoms a_quant a_cls a_group]. rewrite Hc.
  rewrite <- (sapp_nil_r name) at 1.
  rewrite greedy_exact; [done|done|done|].
  intros m1 x s' Hx. cbn. destruct s'; [|done]. by rewrite (word_not_nl _ Hx).
Qed.

Lemma call_tail_none (w : string) (c : ascii) (r : string) :
  str_forallb is_word w = true -> is_word c = false -> Ascii.eqb c NL = false ->
  match_atoms call_tail (w +:+ String c r) = None.
Proof.
  intros Hw Hc Hnl. unfold call_tail. cbn [match_atoms a_quant a_cls a_group].
  destruct w as [|x w]; simpl; [by rewrite Hc|].
  simpl in Hw. apply andb_true_iff in Hw as [Hx Hw]. rewrite Hx.
  rewrite greedy_exact; [|done|by simpl; rewrite Hc|].
  - cbn. destruct r; [|done]. by rewrite Hnl.
  - intros m1 y s' Hy. cbn. destruct s'; [|done]. by rewrite (word_not_nl _ Hy).
Qed.

Lemma re_call_line (digits : string) (k : nat) (name : string) :
  digits <> "" -> str_forallb is_digit digits = true ->
  name <> "" -> str_forallb is_word name = true ->
  match_atoms re_call (stripped_text digits k name) = Some [digits; blanks k; name].
Proof.
  intros Hd1 Hd2 Hn1 Hn2. change re_call with (re_prefix ++ call_tail).
  rewrite match_prefix; try done.
  - by rewrite call_tail_ok.
  - destruct name as [|c name]; [done|]. cbn [str_forallb] in Hn2. cbn [stops].
    apply andb_true_iff in Hn2 as [Hc _]. by rewrite (word_not_blank _ Hc).
Qed.

Lemma re_call_not (digits : string) (k : nat) (w : string) (c : ascii) (r : string) :
  digits <> "" -> str_forallb is_digit digits = true ->
  str_forallb is_word w = true -> is_word c = false -> Ascii.eqb c NL = false ->
  stops (Ascii.eqb " ") (w +:+ String c r) = true ->
  match_atoms re_call (stripped_text digits k (w +:+ String c r)) = None.
Proof.
  intros Hd1 Hd2 Hw Hc Hnl Hstop. change re_call with (re_prefix ++ call_tail).
  rewrite match_prefix; try done. by rewrite call_tail_none.
Qed.
#[local] Arguments Ascii.eqb : simpl nomatch.
#[local] Arguments is_dot : simpl never.
#[local] Arguments is_word : simpl never.
Lemma is_text_inv (t : string) :
  is_text t = true ->
  exists c t', t = String c t' /\ is_dot c = true /\ str_forallb is_dot t' = true.
Proof.
  unfold is_text, no_linebreak. intros [Hne Hall]%andb_true_iff.
  destruct t as [|c t']; [done|]. exists c, t'. split; [done|].
  simpl in Hall. apply andb_true_iff in Hall as [Hc Ht].
  split; [by apply no_linebreak_dot|].
  eapply str_forallb_impl; [|exact Ht]. apply no_linebreak_dot.
Qed.

Lemma assume_tail_ok (src : string) :
  is_text src = true -> starts_with_bang src = false ->
  match_atoms assume_tail (CET_OP_ASSUME +:+ "(" +:+ src +:+ ")") = Some [""; src].
Proof.
  intros (c & src' & -> & Hc & Hsrc)%is_text_inv Hbang. simpl in Hbang.
  rewrite Ascii.eqb_sym in Hbang.
  unfold assume_tail. cbn. rewrite Hbang, Hc.
  rewrite (greedy_last _ _ _ _ [String c src']); try done.
Qed.

Lemma assume_tail_blank (s : string) : match_atoms assume_tail (String " " s) = None.
Proof. done. Qed.

Lemma other_tail_ok (op text : string) :
  op <> "" -> str_forallb is_word op = true -> is_text text = true ->
  match_atoms other_tail (op +:+ ": '" +:+ text +:+ "'") = Some [op; text].
Proof.
  intros Hne Hop (c & text' & -> & Hc & Htext)%is_text_inv.
  destruct op as [|x op]; [done|]. simpl in Hop. apply andb_true_iff in Hop as [Hx Hop].
  unfold other_tail. cbn [app lit match_atoms a_quant a_cls a_group]. 
  rewrite sapp_cons. rewrite Hx.
  rewrite greedy_exact; [|done|done|].
  2:{ intros m1 y s' Hy. by rewrite (word_not_colon _ Hy). }
  cbn. rewrite Hc.
  rewrite (greedy_last _ _ _ _ [String c text']); try done.
Qed.

Lemma other_tail_blank (s : string) : match_atoms other_tail (String " " s) = None.
Proof. done. Qed.

Lemma re_assume_line (digits : string) (k : nat) (src : string) :
  digits <> "" -> str_forallb is_digit digits = true ->
  is_text src = true -> starts_with_bang src = false ->
  match_atoms re_call (stripped_text digits k (CET_OP_ASSUME +:+ "(" +:+ src +:+ ")")) = None
  /\ match_atoms re_assume (stripped_text digits k (CET_OP_ASSUME +:+ "(" +:+ src +:+ ")"))
     = Some [digits; blanks k; ""; src].
Proof.
  intros Hd1 Hd2 Hsrc Hbang. split.
  - change (CET_OP_ASSUME +:+ "(" +:+ src +:+ ")")
      with (CET_OP_ASSUME +:+ String "(" (src +:+ ")")).
    by apply re_call_not.
  - change re_assume with (re_prefix ++ assume_tail).
    rewrite match_prefix; try done. by rewrite assume_tail_ok.
Qed.

Lemma re_other_line (digits : string) (k : nat) (op text : string) :
  digits <> "" -> str_forallb is_digit digits = true ->
  op = CET_OP_ASSIGN \/ op = CET_OP_NOTE \/ op = CET_OP_WARN ->
  is_text text = true ->
  match_atoms re_call (stripped_text digits k (op +:+ ": '" +:+ text +:+ "'")) = None
  /\ match_atoms re_assume (stripped_text digits k (op +:+ ": '" +:+ text +:+ "'")) = None
  /\ match_atoms re_other (stripped_text digits k (op +:+ ": '" +:+ text +:+ "'"))
     = Some [digits; blanks k; op; text].
Proof.
  intros Hd1 Hd2 Hop Htext.
  assert (op <> "" /\ str_forallb is_word op = true
          /\ stops (Ascii.eqb " ") (op +:+ ": '" +:+ text +:+ "'") = true
          /\ match_atoms assume_tail (op +:+ ": '" +:+ text +:+ "'") = None)
    as (Hne & Hw & Hstop & Hnot).
  { destruct Hop as [->|[->| ->]]; done. }
  split; [|split].
  - change (op +:+ ": '" +:+ text +:+ "'") with (op +:+ String ":" (" '" +:+ text +:+ "'")).
    apply re_call_not; try done.
  - change re_assume with (re_prefix ++ assume_tail).
    rewrite match_prefix; try done. by rewrite Hnot.
  - change re_other with (re_prefix ++ other_tail).
    rewrite match_prefix; try done. by rewrite other_tail_ok.
Qed.
Lemma is_line_number_inv (v : pyval) :
  is_line_number v = true -> exists n, v = VInt n /\ 0 <= n.
Proof. destruct v as [| |n|]; simpl; try done. intros H%Z.leb_le. eauto. Qed.

Lemma rt_elem_kind (st st' : rt_state) (e : elem) :
  rt_elem st e = Some st' -> rt_kind st e st'.
Proof.
  unfold rt_elem. destruct e as [op thread source name id line]. simpl.
  destruct op as [| | |op]; try done.
  destruct name as [|[]| |name]; try done.
  - destruct source as [| | |source]; try done.
    destruct (String.eqb_spec op CET_OP_ASSUME) as [->|]; [|done]. simpl.
    destruct (rt_pending st) eqn:Hp; [done|]. simpl.
    destruct (is_text source) eqn:Ht; [|done]. simpl.
    destruct (starts_with_bang source) eqn:Hb; [done|]. simpl.
    destruct (is_line_number line) eqn:Hl; [|done].
    apply is_line_number_inv in Hl as (n & -> & Hn).
    intros [= <-]. by constructor.
  - destruct source as [| | |source].
    + destruct (String.eqb_spec op CET_OP_CALL) as [->|].
      { destruct (is_name name) eqn:Hn; [|done]. simpl.
        destruct (is_line_number line) eqn:Hl; [|done].
        apply is_line_number_inv in Hl as (n & -> & Hn').
        intros [= <-]. by constructor. }
      destruct (String.eqb_spec op CET_OP_RETURN) as [->|]; [|done].
      destruct (rt_depth st) as [|d] eqn:Hd; [done|].
      destruct (rt_stack st) as [|f stack] eqn:Hs; [done|].
      destruct (String.eqb_spec name f) as [->|]; [|done].
      intros [= <-]. by constructor.
    + done.
    + done.
    + destruct (_ || _) eqn:Hop; [|done]. simpl.
      destruct (rt_pending st) eqn:Hp; [done|]. simpl.
      destruct (String.eqb_spec name source) as [->|]; [|done]. simpl.
      destruct (is_text source) eqn:Ht; [|done]. simpl.
      destruct (is_line_number line) eqn:Hl; [|done].
      apply is_line_number_inv in Hl as (n & -> & Hn).
      intros [= <-]. constructor; try done.
      apply orb_true_iff in Hop as [Hop|Hop]; [apply orb_true_iff in Hop as [Hop|Hop]|];
        apply String.eqb_eq in Hop; auto.
Qed.

Lemma rt_enter_cases (st st1 : rt_state) (thread : pyval) :
  rt_enter st thread = Some st1 ->
  (thread = VInt (rt_thread st) /\ st1 = st)
  \/ (thread = VInt (rt_thread st + 1)
      /\ st1 = RtState (rt_thread st + 1) 0 false (rt_stack st)).
Proof.
  unfold rt_enter. destruct thread as [| |t|]; try done.
  destruct (Z.eqb_spec t (rt_thread st)) as [->|]; [intros [= <-]; by left|].
  destruct (Z.eqb_spec t (rt_thread st + 1)) as [->|]; [|done].
  intros [= <-]. by right.
Qed.
(* ===================================================================== *)
(** * The parser on the printed lines *)
(* ===================================================================== *)

Lemma pad_line_blanks (v : pyval) : exists j, pad_line v = blanks j +:+ py_str v.
Proof.
  unfold pad_line. repeat case_match.
  - by exists 3%nat.
  - by exists 4%nat.
  - by exists 2%nat.
  - by exists 1%nat.
  - by exists 0%nat.
Qed.

Lemma last_char_suffix (a body : string) (c : ascii) :
  last_char body = Some c -> last_char (a +:+ body) = Some c.
Proof. intros H. rewrite last_char_app. by destruct body. Qed.

Lemma strip_printed (j k : nat) (digits body : string) (c : ascii) :
  digits <> "" -> str_forallb is_digit digits = true ->
  last_char body = Some c -> is_space c = false ->
  strip (blanks j +:+ digits +:+ String TAB "" +:+ CODE_LINE_SEPARATOR
           +:+ blanks k +:+ body)
  = stripped_text digits k body.
Proof.
  intros Hne Hd Hlast Hc. unfold strip. rewrite lstrip_blanks.
  destruct digits as [|d ds]; [done|]. cbn [str_forallb] in Hd.
  apply andb_true_iff in Hd as [Hd _].
  rewrite sapp_cons, (lstrip_keeps _ _ (digit_not_space _ Hd)).
  unfold stripped_text.
  change (String d (ds +:+ String TAB "" +:+ CODE_LINE_SEPARATOR +:+ blanks k +:+ body))
    with (String d ds +:+ String TAB (String "|" (blanks k +:+ body))).
  apply (rstrip_keeps _ c); [|done].
  apply last_char_suffix.
  change (String TAB (String "|" (blanks k +:+ body)))
    with ((String TAB (String "|" "")) +:+ (blanks k +:+ body)).
  by do 2 apply last_char_suffix.
Qed.

Lemma joined_strip (q : pa_state) (raw : string) :
  pending q = "" -> joined q raw = strip raw.
Proof. intros H. unfold joined. by rewrite H. Qed.

Lemma name_last_char (name : string) :
  name <> "" -> str_forallb is_word name = true ->
  exists c, last_char name = Some c /\ is_space c = false.
Proof.
  intros Hne Hw. destruct (last_char_class _ _ Hne Hw) as (c & Hc & Hcw).
  exists c. split; [done|]. by apply word_not_space.
Qed.

Lemma parse_line_call (q : pa_state) (line : pyval) (k : nat) (name : string) :
  pending q = "" ->
  py_str line <> "" -> str_forallb is_digit (py_str line) = true ->
  name <> "" -> str_forallb is_word name = true ->
  parse_line q (line_text line k name)
  = parse_call_line q (py_str line) (Z.of_nat k) name.
Proof.
  intros Hpend Hl1 Hl2 Hn1 Hn2. unfold parse_line, line_text.
  rewrite (joined_strip _ _ Hpend).
  destruct (pad_line_blanks line) as [j ->].
  destruct (name_last_char _ Hn1 Hn2) as (c & Hlast & Hc).
  rewrite sapp_assoc, (strip_printed _ _ _ _ c) by done.
  rewrite re_call_line by done. unfold len. by rewrite blanks_length.
Qed.

Lemma parse_line_assume (q : pa_state) (line : pyval) (k : nat) (src : string) :
  pending q = "" ->
  py_str line <> "" -> str_forallb is_digit (py_str line) = true ->
  is_text src = true -> starts_with_bang src = false ->
  parse_line q (line_text line k (CET_OP_ASSUME +:+ "(" +:+ src +:+ ")"))
  = Ok (PaState (converted_error_trace q
                   ++ [mk_assume (cur_thread q) src false (py_str line)])
                (cur_thread q) (cur_level q) (stack q) (clear_pending q)).
Proof.
  intros Hpend Hl1 Hl2 Hsrc Hbang. unfold parse_line, line_text.
  rewrite (joined_strip _ _ Hpend).
  destruct (pad_line_blanks line) as [j ->].
  rewrite sapp_assoc, (strip_printed _ _ _ _ ")"%char); try done.
  2:{ apply last_char_suffix. change ("(" +:+ src +:+ ")") with (String "(" (src +:+ ")")).
      change (String "(" (src +:+ ")")) with ("(" +:+ src +:+ ")").
      by do 2 apply last_char_suffix. }
  destruct (re_assume_line (py_str line) k src Hl1 Hl2 Hsrc Hbang) as [-> ->].
  done.
Qed.

Lemma parse_line_other (q : pa_state) (line : pyval) (k : nat) (op text : string) :
  pending q = "" ->
  py_str line <> "" -> str_forallb is_digit (py_str line) = true ->
  op = CET_OP_ASSIGN \/ op = CET_OP_NOTE \/ op = CET_OP_WARN ->
  is_text text = true ->
  parse_line q (line_text line k (op +:+ ": '" +:+ text +:+ "'"))
  = Ok (PaState (converted_error_trace q ++ [mk_other (cur_thread q) op text (py_str line)])
                (cur_thread q) (cur_level q) (stack q) (clear_pending q)).
Proof.
  intros Hpend Hl1 Hl2 Hop Htext. unfold parse_line, line_text.
  rewrite (joined_strip _ _ Hpend).
  destruct (pad_line_blanks line) as [j ->].
  rewrite sapp_assoc, (strip_printed _ _ _ _ "'"%char); try done.
  2:{ by do 3 apply last_char_suffix. }
  destruct (re_other_line (py_str line) k op text Hl1 Hl2 Hop Htext) as (-> & -> & ->).
  done.
Qed.

Lemma parse_line_marker (q : pa_state) (k : nat) :
  pending q = "" ->
  parse_line q (marker_text k) = parse_call_line q "0" (Z.of_nat k) CET_END.
Proof.
  intros Hpend. unfold parse_line, marker_text. rewrite (joined_strip _ _ Hpend).
  change ("    0" +:+ String TAB "" +:+ CODE_LINE_SEPARATOR +:+ blanks k +:+ CET_END)
    with (blanks 4 +:+ "0" +:+ String TAB "" +:+ CODE_LINE_SEPARATOR +:+ blanks k +:+ CET_END).
  rewrite (strip_printed _ _ _ _ "_"%char) by done.
  rewrite re_call_line by done. unfold len. by rewrite blanks_length.
Qed.

Lemma parse_call_line_flush (st : rt_state) (q : pa_state) (names : list string)
    (line func : string) :
  pa_sim st q names ->
  parse_call_line q line (Z.of_nat (rt_depth st)) func
  = Ok (after_call_line q line (Z.of_nat (rt_depth st)) func (length names)).
Proof.
  intros (Hthr & Hstack & Hlevel & Hpend & Hnames).
  apply parse_call_line_popped.
  - rewrite Hlevel. destruct names as [|x [|y names]]; simpl length.
    + rewrite (proj2 (Z.eqb_neq _ _)) by lia. by rewrite (proj2 (Z.ltb_ge _ _)) by lia.
    + by rewrite (proj2 (Z.eqb_eq _ _)) by lia.
    + rewrite (proj2 (Z.eqb_neq _ _)) by lia. rewrite (proj2 (Z.ltb_lt _ _)) by lia.
      f_equal. lia.
  - rewrite Hstack, length_app. lia.
Qed.

Lemma owed_fields (thread : Z) (names : list string) (line : string) :
  comparable_fields <$> ((fun ret_func => mk_return thread ret_func line) <$> names)
  = comparable_fields <$> owed thread names.
Proof. unfold owed. rewrite <- !list_fmap_compose. by apply list_fmap_ext. Qed.

Lemma take_drop_names (names stack : list string) :
  take (length names) (names ++ stack) = names
  /\ drop (length names) (names ++ stack) = stack.
Proof. split; [by rewrite take_app_length | by rewrite drop_app_length]. Qed.

(** The end marker of a thread pays the returns owed and opens the next
    thread. *)
Lemma pa_marker (st : rt_state) (q : pa_state) (names : list string) :
  pa_sim st q names ->
  exists q' emitted,
    parse_line q (marker_text (rt_depth st)) = Ok q'
    /\ pa_sim (RtState (rt_thread st + 1) 0 false (rt_stack st)) q' []
    /\ converted_error_trace q' = converted_error_trace q ++ emitted
    /\ comparable_fields <$> emitted = comparable_fields <$> owed (rt_thread st) names.
Proof.
  intros Hsim. pose proof Hsim as (Hthr & Hstack & Hlevel & Hpend & Hnames).
  rewrite (parse_line_marker _ _ Hpend), (parse_call_line_flush _ _ _ _ _ Hsim).
  destruct (take_drop_names names (rt_stack st)) as [Htake Hdrop].
  eexists. eexists. split; [done|]. unfold after_call_line, call_part.
  rewrite Hstack, Htake, Hdrop. simpl. rewrite app_nil_r.
  split; [|split; [done|]].
  - repeat split; simpl; try done; try lia. apply pending_cleared.
  - by rewrite Hthr, owed_fields.
Qed.

Lemma parse_lines_app (q : pa_state) (l1 l2 : list string) :
  parse_lines q (l1 ++ l2) = let! q' := parse_lines q l1 in parse_lines q' l2.
Proof. apply rfold_app. Qed.

Lemma parse_lines_one (q : pa_state) (l : string) : parse_lines q [l] = parse_line q l.
Proof. unfold parse_lines. simpl. by destruct (parse_line q l). Qed.

Lemma pa_enter (st st1 : rt_state) (q : pa_state) (names : list string) (thread : pyval) :
  pa_sim st q names ->
  rt_enter st thread = Some st1 ->
  exists q1 names1 emitted,
    parse_lines q
      (match thread with
       | VInt t => if t =? rt_thread st then [] else [marker_text (rt_depth st)]
       | _ => []
       end) = Ok q1
    /\ pa_sim st1 q1 names1
    /\ converted_error_trace q1 = converted_error_trace q ++ emitted
    /\ comparable_fields <$> (emitted ++ owed (rt_thread st1) names1)
       = comparable_fields <$> owed (rt_thread st) names.
Proof.
  intros Hsim [[-> ->]|[-> ->]]%rt_enter_cases.
  - rewrite Z.eqb_refl. exists q, names, []. by rewrite app_nil_r.
  - rewrite (proj2 (Z.eqb_neq _ _)) by lia. rewrite parse_lines_one.
    destruct (pa_marker _ _ _ Hsim) as (q' & emitted & Hq & Hsim' & Htr & Hcmp).
    exists q', [], emitted. by rewrite app_nil_r.
Qed.

Lemma is_name_inv (name : string) :
  is_name name = true -> name <> "" /\ str_forallb is_word name = true /\ name <> CET_END.
Proof.
  unfold is_name. intros [[H1 H2]%andb_true_iff H3]%andb_true_iff.
  apply negb_true_iff in H1, H3. by apply String.eqb_neq in H1, H3.
Qed.

Lemma pa_elem (st st' : rt_state) (q : pa_state) (names : list string) (e : elem) :
  pa_sim st q names ->
  rt_kind st e st' ->
  cet_thread e = VInt (rt_thread st) ->
  exists q' names' emitted,
    parse_lines q
      (if is_op (cet_op e) CET_OP_CALL
       then [line_text (cet_line e) (rt_depth st) (py_str (cet_display_name e))]
       else if is_op (cet_op e) CET_OP_RETURN then []
       else [line_text (cet_line e) (other_indent st) (other_body e)]) = Ok q'
    /\ pa_sim st' q' names'
    /\ converted_error_trace q' = converted_error_trace q ++ emitted
    /\ comparable_fields <$> (emitted ++ owed (rt_thread st') names')
       = comparable_fields <$> (owed (rt_thread st) names ++ [e]).
Proof.
  intros Hsim Hkind Hthread.
  pose proof Hsim as (Hthr & Hstack & Hlevel & Hpend & Hnames).
  destruct Hkind as [thread id name n Hname Hn
                    |thread id line name d stk Hd Hs
                    |thread id src n Hsrc Hbang Hn Hp
                    |thread id op text n Hop Htext Hn Hp]; simpl in Hthread; subst thread.
  - (* call *)
    apply is_name_inv in Hname as (Hne & Hw & Hnend).
    change (is_op _ CET_OP_CALL) with true. cbv iota. rewrite parse_lines_one.
    cbn [cet_line cet_display_name py_str].
    rewrite parse_line_call; try done;
      [|apply str_of_Z_nonempty|by apply str_of_Z_digits].
    rewrite (parse_call_line_flush _ _ _ _ _ Hsim).
    destruct (take_drop_names names (rt_stack st)) as [Htake Hdrop].
    eexists. exists []. eexists. split; [done|]. unfold after_call_line, call_part.
    apply String.eqb_neq in Hnend. rewrite Hnend, Hstack, Htake, Hdrop. simpl.
    split; [|split; [done|]].
    + repeat split; simpl; try done; try lia. apply pending_cleared.
    + rewrite app_nil_r, !fmap_app, owed_fields, Hthr. done.
  - (* return *)
    change (is_op (cet_op _) CET_OP_CALL) with false.
    change (is_op (cet_op _) CET_OP_RETURN) with true. cbv iota.
    exists q, (names ++ [name]), []. split; [done|]. split; [|split].
    + repeat split; simpl; try done.
      * by rewrite Hstack, Hs, <- app_assoc.
      * rewrite Hlevel, Hd, length_app. simpl. lia.
    + by rewrite app_nil_r.
    + simpl. unfold owed. rewrite !fmap_app. done.
  - (* assume *)
    rewrite (Hnames Hp) in *.
    change (is_op (cet_op _) CET_OP_CALL) with false.
    change (is_op (cet_op _) CET_OP_RETURN) with false. cbv iota.
    rewrite parse_lines_one. unfold other_body.
    change (is_op (cet_op _) CET_OP_ASSUME) with true. cbv iota.
    cbn [cet_line cet_op cet_source py_str].
    rewrite parse_line_assume; try done;
      [|apply str_of_Z_nonempty|by apply str_of_Z_digits].
    eexists. exists []. eexists. split; [done|]. split; [|split; [done|]].
    + repeat split; simpl; try done. apply pending_cleared.
    + simpl. by rewrite Hthr.
  - (* assign, note, warn *)
    rewrite (Hnames Hp) in *.
    assert (is_op (VStr op) CET_OP_CALL = false /\ is_op (VStr op) CET_OP_RETURN = false
            /\ is_op (VStr op) CET_OP_ASSUME = false) as (H1 & H2 & H3).
    { destruct Hop as [->|[->| ->]]; done. }
    cbn [cet_op]. rewrite H1, H2. rewrite parse_lines_one. unfold other_body.
    cbn [cet_line cet_op cet_source cet_display_name py_str]. rewrite H3.
    assert ((if is_op (VStr op) CET_OP_ASSIGN
             then op +:+ ": '" +:+ text +:+ "'" else op +:+ ": '" +:+ text +:+ "'")
            = op +:+ ": '" +:+ text +:+ "'") as Hbody.
    { destruct (is_op (VStr op) CET_OP_ASSIGN); reflexivity. }
    rewrite Hbody.
    rewrite parse_line_other; try done;
      [|apply str_of_Z_nonempty|by apply str_of_Z_digits].
    eexists. exists []. eexists. split; [done|]. split; [|split; [done|]].
    + repeat split; simpl; try done. apply pending_cleared.
    + simpl. by rewrite Hthr.
Qed.

Lemma rt_step_inv (st st' : rt_state) (e : elem) :
  rt_step st e = Some st' ->
  exists st1,
    rt_enter st (cet_thread e) = Some st1
    /\ rt_kind st1 e st'
    /\ cet_thread e = VInt (rt_thread st1).
Proof.
  unfold rt_step. destruct (rt_enter st (cet_thread e)) as [st1|] eqn:E; [|done].
  intros Hk%rt_elem_kind. exists st1. split; [done|]. split; [done|].
  by apply rt_enter_cases in E as [[-> ->]|[-> ->]].
Qed.

Lemma pa_step (st st' : rt_state) (q : pa_state) (names : list string) (e : elem) :
  pa_sim st q names ->
  rt_step st e = Some st' ->
  exists q' names' emitted,
    parse_lines q (render st e) = Ok q'
    /\ pa_sim st' q' names'
    /\ converted_error_trace q' = converted_error_trace q ++ emitted
    /\ comparable_fields <$> (emitted ++ owed (rt_thread st') names')
       = comparable_fields <$> (owed (rt_thread st) names ++ [e]).
Proof.
  intros Hsim (st1 & Henter & Hkind & Hthread)%rt_step_inv.
  destruct (pa_enter _ _ _ _ _ Hsim Henter) as (q1 & names1 & em1 & Hq1 & Hsim1 & Htr1 & Hc1).
  destruct (pa_elem _ _ _ _ _ Hsim1 Hkind Hthread)
    as (q' & names' & em2 & Hq' & Hsim' & Htr' & Hc').
  exists q', names', (em1 ++ em2). unfold render. rewrite Henter.
  rewrite parse_lines_app, Hq1. simpl. split; [exact Hq'|]. split; [done|].
  split; [by rewrite Htr', Htr1, app_assoc|].
  rewrite <- app_assoc, fmap_app, Hc', !fmap_app, <- Hc1, !fmap_app.
  by rewrite !app_assoc.
Qed.

Lemma pa_run (s : list elem) :
  forall (st st' : rt_state) (q : pa_state) (names : list string),
    pa_sim st q names ->
    rt_run st s = Some st' ->
    exists q' names' emitted,
      parse_lines q (render_all st s) = Ok q'
      /\ pa_sim st' q' names'
      /\ converted_error_trace q' = converted_error_trace q ++ emitted
      /\ comparable_fields <$> (emitted ++ owed (rt_thread st') names')
         = comparable_fields <$> (owed (rt_thread st) names ++ s).
Proof.
  induction s as [|e s IH]; intros st st' q names Hsim; simpl.
  - intros [= <-]. exists q, names, []. by rewrite !app_nil_r.
  - destruct (rt_step st e) as [st1|] eqn:Hstep; [|done]. intros Hrun.
    destruct (pa_step _ _ _ _ _ Hsim Hstep) as (q1 & names1 & em1 & Hq1 & Hsim1 & Htr1 & Hc1).
    destruct (IH _ _ _ _ Hsim1 Hrun) as (q' & names' & em2 & Hq' & Hsim' & Htr' & Hc').
    exists q', names', (em1 ++ em2). rewrite parse_lines_app, Hq1. simpl.
    split; [exact Hq'|]. split; [done|].
    split; [by rewrite Htr', Htr1, app_assoc|].
    rewrite <- app_assoc, fmap_app, Hc', !fmap_app.
    rewrite app_assoc, <- fmap_app, Hc1, !fmap_app, <- app_assoc. done.
Qed.

(** The lines of a sequence the scan accepts, closed by the end marker,
    parse back to the sequence. *)
Lemma parse_rendered (s : list elem) (st' : rt_state) :
  rt_run rt_init s = Some st' ->
  exists s',
    (let! q := parse_lines pa_init (render_all rt_init s ++ [marker_text (rt_depth st')]) in
     parse_finish q) = Ok s'
    /\ comparable_eq s' s.
Proof.
  intros Hrun.
  assert (pa_sim rt_init pa_init []) as Hsim by done.
  destruct (pa_run _ _ _ _ _ Hsim Hrun) as (q & names & em & Hq & Hsim' & Htr & Hc).
  destruct (pa_marker _ _ _ Hsim') as (q' & em' & Hq' & Hsim'' & Htr' & Hc').
  exists (converted_error_trace q'). split.
  - rewrite parse_lines_app, Hq. simpl. rewrite parse_lines_one, Hq'. simpl.
    unfold parse_finish. destruct Hsim'' as (_ & _ & _ & -> & _). done.
  - unfold comparable_eq. rewrite Htr', Htr. simpl.
    by rewrite fmap_app, Hc', <- fmap_app, Hc.
Qed.

(* ===================================================================== *)
(** * The printer on the sequences of the scan *)
(* ===================================================================== *)

Lemma to_int_not_nil (z : Z) : Z.to_int z <> Decimal.Pos Decimal.Nil /\ Z.to_int z <> Decimal.Neg Decimal.Nil.
Proof.
  destruct z as [|p|p]; simpl; split; try done; intros [= H];
    by apply DecimalPos.Unsigned.to_uint_nonnil in H.
Qed.

Lemma str_of_Z_inj (a b : Z) : str_of_Z a = str_of_Z b -> a = b.
Proof.
  unfold str_of_Z. intros H. apply DecimalZ.to_int_inj.
  destruct (to_int_not_nil a) as [Ha1 Ha2]. destruct (to_int_not_nil b) as [Hb1 Hb2].
  pose proof (NilZero.isi _ Ha1 Ha2) as Ia. pose proof (NilZero.isi _ Hb1 Hb2) as Ib.
  rewrite H in Ia. congruence.
Qed.

Lemma int_digits_some (s : string) (acc : Z) :
  str_forallb is_digit s = true -> exists n, int_digits acc s = Some n.
Proof.
  revert acc. induction s as [|c s IH]; intros acc; simpl; [eauto|].
  intros [Hc Hs]%andb_true_iff. rewrite Hc. by apply IH.
Qed.

Lemma digit_not_int_space (c : ascii) : is_digit c = true -> is_int_space c = false.
Proof. by destruct c as [[] [] [] [] [] [] [] []]. Qed.

Lemma int_rstrip_keeps (s : string) (c : ascii) :
  last_char s = Some c -> is_int_space c = false -> int_rstrip s = s.
Proof.
  intros Hlast Hc. induction s as [|x s IH]; simpl in *; [done|].
  destruct s as [|y s].
  - injection Hlast as ->. simpl. by rewrite Hc.
  - rewrite (IH Hlast). done.
Qed.

Lemma int_lstrip_keeps (c : ascii) (s : string) :
  is_int_space c = false -> int_lstrip (String c s) = String c s.
Proof. intros Hc. simpl. by rewrite Hc. Qed.

Lemma int_of_str_digits (s : string) :
  s <> "" -> str_forallb is_digit s = true -> exists n, int_of_str s = Some n.
Proof.
  intros Hne Hd. unfold int_of_str.
  destruct (last_char_class _ _ Hne Hd) as (c & Hlast & Hc).
  assert (int_rstrip (int_lstrip s) = s) as ->.
  { destruct s as [|d ds]; [done|]. pose proof Hd as Hd'.
    cbn [str_forallb] in Hd'. apply andb_true_iff in Hd' as [Hd' _].
    rewrite (int_lstrip_keeps _ _ (digit_not_int_space _ Hd')).
    by apply (int_rstrip_keeps _ c), digit_not_int_space. }
  destruct (int_digits_some s 0 Hd) as [n Hn].
  destruct s as [|d ds]; [done|]. pose proof Hd as Hd'.
  cbn [str_forallb] in Hd'. apply andb_true_iff in Hd' as [Hd' _].
  exists n. unfold int_unsigned. 
  destruct d as [[] [] [] [] [] [] [] []]; try discriminate Hd'; exact Hn.
Qed.

Lemma end_line_marker (d : nat) : end_line (Z.of_nat d) = unlines [marker_text d].
Proof.
  unfold end_line, fmt_line, marker_text. rewrite str_mul_blanks. cbn [unlines].
  by rewrite ?sapp_assoc, ?sapp_nil_r.
Qed.

Lemma fmt_line_text (line : pyval) (k : nat) (body : string) :
  fmt_line (pad_line line) (blanks k) body = unlines [line_text line k body].
Proof.
  unfold fmt_line, line_text. cbn [unlines]. by rewrite ?sapp_assoc, ?sapp_nil_r.
Qed.

Lemma pr_enter (st st1 : rt_state) (p : pr_state) (thread : pyval) :
  pr_sim st p ->
  rt_enter st thread = Some st1 ->
  pr_sim st1 (print_thread p (VStr (py_str thread)))
  /\ pr_result (print_thread p (VStr (py_str thread)))
     = pr_result p +:+ unlines (match thread with
                                | VInt t => if t =? rt_thread st then []
                                            else [marker_text (rt_depth st)]
                                | _ => []
                                end)
  /\ thread = VInt (rt_thread st1).
Proof.
  intros (Hlevel & Hcur & Hstack & Hthr) [[-> ->]|[-> ->]]%rt_enter_cases.
  - rewrite Z.eqb_refl. simpl unlines. rewrite sapp_nil_r.
    simpl py_str. rewrite (print_thread_same _ _ Hcur). done.
  - rewrite (proj2 (Z.eqb_neq _ _)) by lia. simpl py_str.
    rewrite (print_thread_other _ _ _ Hcur).
    2:{ apply String.eqb_neq. intros H%str_of_Z_inj. lia. }
    unfold spec_enter, spec_mark. simpl. rewrite Hlevel, end_line_marker.
    repeat split; simpl; try done. lia.
Qed.

Lemma pr_spaces (st : rt_state) (p : pr_state) :
  pr_sim st p ->
  (if 0 <? pr_level p then Ok (str_mul " " (pr_level p))
   else let! n := py_int (pr_cur_thread p) in Ok (str_mul " " n))
  = Ok (blanks (other_indent st)).
Proof.
  intros (Hlevel & Hcur & Hstack & Hthr). rewrite Hlevel, Hcur. unfold other_indent.
  destruct (rt_depth st) as [|d].
  - simpl (0 <? Z.of_nat 0). cbv iota. unfold py_int.
    destruct (int_of_str_digits (str_of_Z (rt_thread st))) as [n ->];
      [apply str_of_Z_nonempty | by apply str_of_Z_digits | done].
  - rewrite (proj2 (Z.ltb_lt _ _)) by lia. by rewrite str_mul_blanks.
Qed.

Lemma print_body_other (st : rt_state) (p : pr_state) (e : elem) :
  pr_sim st p ->
  is_op (cet_op e) CET_OP_CALL = false ->
  existsb (is_op (cet_op e)) [CET_OP_ASSIGN; CET_OP_ASSUME; CET_OP_NOTE; CET_OP_WARN] = true ->
  (is_op (cet_op e) CET_OP_ASSUME = true -> py_truthy (cet_display_name e) = true) ->
  print_body p e =
    Ok (PrState (pr_result p
                   +:+ unlines [line_text (cet_line e) (other_indent st) (other_body e)])
                (pr_level p) (pr_cur_thread p) (pr_stack p) (pr_log p)).
Proof.
  intros Hsim Hcall Hin Htrue. unfold print_body. rewrite Hcall, Hin.
  rewrite (pr_spaces _ _ Hsim). cbn [rbind Ok]. unfold other_body.
  rewrite <- !fmt_line_text.
  destruct (is_op (cet_op e) CET_OP_ASSUME).
  - by rewrite Htrue.
  - by destruct (is_op (cet_op e) CET_OP_ASSIGN).
Qed.

Lemma pr_elem (debug : bool) (st st' : rt_state) (p : pr_state) (e : elem) :
  pr_sim st p ->
  rt_kind st e st' ->
  exists p',
    print_return debug p (set_thread (VStr (py_str (cet_thread e))) e) = Ok p'
    /\ pr_sim st' p'
    /\ pr_result p' =
         pr_result p +:+ unlines
           (if is_op (cet_op e) CET_OP_CALL
            then [line_text (cet_line e) (rt_depth st) (py_str (cet_display_name e))]
            else if is_op (cet_op e) CET_OP_RETURN then []
            else [line_text (cet_line e) (other_indent st) (other_body e)]).
Proof.
  intros Hsim Hkind. pose proof Hsim as (Hlevel & Hcur & Hstack & Hthr).
  destruct Hkind as [thread id name n Hname Hn
                    |thread id line name d stk Hd Hs
                    |thread id src n Hsrc Hbang Hn Hp
                    |thread id op text n Hop Htext Hn Hp].
  - (* call *)
    eexists. split; [|split].
    + unfold print_return, set_thread, print_body. cbn [cet_op cet_display_name cet_line].
      change (is_op (VStr CET_OP_CALL) CET_OP_RETURN) with false.
      change (is_op (VStr CET_OP_CALL) CET_OP_CALL) with true. cbv iota.
      cbn [rbind Ok]. reflexivity.
    + repeat split; simpl; try done; try lia. by rewrite Hstack.
    + cbn [pr_result cet_op cet_line cet_display_name].
      change (is_op (VStr CET_OP_CALL) CET_OP_CALL) with true. cbv iota.
      by rewrite Hlevel, str_mul_blanks, fmt_line_text.
  - (* return *)
    eexists. split; [|split].
    + unfold print_return, set_thread. cbn [cet_op cet_display_name].
      change (is_op (VStr CET_OP_RETURN) CET_OP_RETURN) with true. cbv iota.
      rewrite Hstack, Hs. cbn [fmap list_fmap]. 
      change (py_eq (VStr name) (VStr name)) with (String.eqb name name).
      rewrite String.eqb_refl. by apply print_body_return.
    + repeat split; simpl; try done. lia.
    + cbn [pr_result cet_op].
      change (is_op (VStr CET_OP_RETURN) CET_OP_CALL) with false.
      change (is_op (VStr CET_OP_RETURN) CET_OP_RETURN) with true. cbv iota.
      by rewrite sapp_nil_r.
  - (* assume *)
    eexists. split; [|split].
    + unfold print_return. unfold set_thread at 1. cbn [cet_op].
      change (is_op (VStr CET_OP_ASSUME) CET_OP_RETURN) with false. cbv iota.
      by apply (print_body_other st).
    + done.
    + done.
  - (* assign, note, warn *)
    assert (is_op (VStr op) CET_OP_CALL = false /\ is_op (VStr op) CET_OP_RETURN = false
            /\ is_op (VStr op) CET_OP_ASSUME = false
            /\ existsb (is_op (VStr op))
                 [CET_OP_ASSIGN; CET_OP_ASSUME; CET_OP_NOTE; CET_OP_WARN] = true)
      as (H1 & H2 & H3 & H4).
    { destruct Hop as [->|[->| ->]]; done. }
    eexists. split; [|split].
    + unfold print_return. unfold set_thread at 1. cbn [cet_op]. rewrite H2.
      apply (print_body_other st); try done. cbn [cet_op set_thread]. by rewrite H3.
    + done.
    + cbn [pr_result cet_op]. by rewrite H1, H2.
Qed.

Lemma pr_step (debug : bool) (st st' : rt_state) (p : pr_state) (e : elem) :
  pr_sim st p ->
  rt_step st e = Some st' ->
  exists p',
    print_elem debug p (set_thread (VStr (py_str (cet_thread e))) e) = Ok p'
    /\ pr_sim st' p'
    /\ pr_result p' = pr_result p +:+ unlines (render st e).
Proof.
  intros Hsim (st1 & Henter & Hkind & Hthread)%rt_step_inv.
  destruct (pr_enter _ _ _ _ Hsim Henter) as (Hsim1 & Hres1 & _).
  destruct (pr_elem debug _ _ _ _ Hsim1 Hkind) as (p' & Hp' & Hsim' & Hres').
  exists p'. split; [exact Hp'|]. split; [done|].
  unfold render. rewrite Henter, unlines_app, Hres', Hres1. by rewrite sapp_assoc.
Qed.

Lemma pr_run (debug : bool) (s : list elem) :
  forall (st st' : rt_state) (p : pr_state),
    pr_sim st p ->
    rt_run st s = Some st' ->
    exists p',
      rfold (print_elem debug) p (stringify_threads s) = Ok p'
      /\ pr_sim st' p'
      /\ pr_result p' = pr_result p +:+ unlines (render_all st s).
Proof.
  induction s as [|e s IH]; intros st st' p Hsim; simpl.
  - intros [= <-]. exists p. by rewrite sapp_nil_r.
  - destruct (rt_step st e) as [st1|] eqn:Hstep; [|done]. intros Hrun.
    destruct (pr_step debug _ _ _ _ Hsim Hstep) as (p1 & Hp1 & Hsim1 & Hres1).
    destruct (IH _ _ _ Hsim1 Hrun) as (p' & Hp' & Hsim' & Hres').
    exists p'. rewrite Hp1. simpl. split; [exact Hp'|]. split; [done|].
    by rewrite Hres', Hres1, unlines_app, sapp_assoc.
Qed.

Lemma no_linebreak_app (a b : string) :
  no_linebreak (a +:+ b) = no_linebreak a && no_linebreak b.
Proof. apply str_forallb_app. Qed.

Lemma no_linebreak_digits (n : Z) : 0 <= n -> no_linebreak (str_of_Z n) = true.
Proof.
  intros Hn. apply (str_forallb_impl is_digit); [apply digit_no_linebreak|].
  by apply str_of_Z_digits.
Qed.

Lemma no_linebreak_word (w : string) : str_forallb is_word w = true -> no_linebreak w = true.
Proof. apply str_forallb_impl, word_no_linebreak. Qed.

Lemma line_text_no_linebreak (n : Z) (k : nat) (body : string) :
  0 <= n -> no_linebreak body = true -> no_linebreak (line_text (VInt n) k body) = true.
Proof.
  intros Hn Hbody. unfold line_text. destruct (pad_line_blanks (VInt n)) as [j ->].
  rewrite !no_linebreak_app, !blanks_no_linebreak, Hbody. simpl py_str.
  by rewrite no_linebreak_digits.
Qed.

Lemma marker_text_no_linebreak (k : nat) : no_linebreak (marker_text k) = true.
Proof. unfold marker_text. by rewrite !no_linebreak_app, blanks_no_linebreak. Qed.

Lemma is_text_no_linebreak (t : string) : is_text t = true -> no_linebreak t = true.
Proof. unfold is_text. by intros [_ H]%andb_true_iff. Qed.

Lemma render_no_linebreak (st st' : rt_state) (e : elem) :
  rt_step st e = Some st' -> Forall (fun l => no_linebreak l = true) (render st e).
Proof.
  intros (st1 & Henter & Hkind & Hthread)%rt_step_inv. unfold render. rewrite Henter.
  apply Forall_app. split.
  - destruct (cet_thread e) as [| |t|]; try done.
    destruct (t =? rt_thread st); repeat constructor. apply marker_text_no_linebreak.
  - destruct Hkind as [thread id name n Hname Hn
                      |thread id line name d stk Hd Hs
                      |thread id src n Hsrc Hbang Hn Hp
                      |thread id op text n Hop Htext Hn Hp].
    + apply is_name_inv in Hname as (_ & Hw & _). repeat constructor.
      apply line_text_no_linebreak; [done|]. by apply no_linebreak_word.
    + constructor.
    + repeat constructor. apply line_text_no_linebreak; [done|].
      unfold other_body. cbn. rewrite !no_linebreak_app.
      by rewrite (is_text_no_linebreak _ Hsrc).
    + assert (is_op (VStr op) CET_OP_CALL = false /\ is_op (VStr op) CET_OP_RETURN = false
              /\ is_op (VStr op) CET_OP_ASSUME = false
              /\ no_linebreak op = true) as (H1 & H2 & H3 & H4).
      { destruct Hop as [->|[->| ->]]; done. }
      cbn [cet_op]. rewrite H1, H2. repeat constructor.
      apply line_text_no_linebreak; [done|]. unfold other_body.
      cbn [cet_op cet_source cet_display_name py_str]. rewrite H3.
      destruct (is_op (VStr op) CET_OP_ASSIGN);
        by rewrite !no_linebreak_app, H4, (is_text_no_linebreak _ Htext).
Qed.

Lemma render_all_no_linebreak (s : list elem) :
  forall st st',
    rt_run st s = Some st' -> Forall (fun l => no_linebreak l = true) (render_all st s).
Proof.
  induction s as [|e s IH]; intros st st'; simpl; [constructor|].
  destruct (rt_step st e) as [st1|] eqn:Hstep; [|done]. intros Hrun.
  apply Forall_app. split; [by eapply render_no_linebreak | by eapply IH].
Qed.

(* ===================================================================== *)
(** * Printing, then parsing *)
(* ===================================================================== *)

Lemma rfold_first_thread (debug : bool) (e : elem) (s : list elem) :
  cet_thread e = VStr "0" ->
  rfold (print_elem debug) pr_init (e :: s)
  = rfold (print_elem debug) (PrState "" 0 (VStr "0") [] []) (e :: s).
Proof. intros He. simpl. unfold print_elem. by rewrite He. Qed.

(** C1, as the code has it.  On the sequences the scan [roundtrip_ok]
    accepts, the printer returns a text and the parser, on this text,
    returns a sequence that agrees with the one given to the printer on the
    fields op, thread, display_name and source. *)
Theorem print_parse_roundtrip (s : list elem) :
  roundtrip_ok s = true ->
  exists text s',
    snd (error_trace_pretty_print s) = Ok text
    /\ error_trace_pretty_parse text = Ok s'
    /\ comparable_eq s' s.
Proof.
  destruct s as [|e s0].
  { intros _. eexists. exists []. split; [reflexivity|]. split; reflexivity. }
  unfold roundtrip_ok. intros [He Hrun]%andb_true_iff.
  apply bool_decide_eq_true in He.
  destruct (rt_run rt_init (e :: s0)) as [st'|] eqn:Hscan; [clear Hrun|done].
  set (s := e :: s0) in *.
  assert (pr_sim rt_init (PrState "" 0 (VStr "0") [] [])) as Hsim by done.
  destruct (pr_run DEBUG_ERROR_TRACE_COMPARISON s _ _ _ Hsim Hscan)
    as (p' & Hp' & (Hlevel & _) & Hres).
  destruct (parse_rendered s st' Hscan) as (s' & Hparse & Hcmp).
  exists (unlines (render_all rt_init s ++ [marker_text (rt_depth st')])), s'.
  split; [|split; [|done]].
  - unfold error_trace_pretty_print, print_run. cbn [snd].
    unfold s at 1. unfold stringify_threads. cbn [map].
    rewrite rfold_first_thread by (cbn; by rewrite He).
    change (set_thread (VStr (py_str (cet_thread e))) e
              :: map (fun elem => set_thread (VStr (py_str (cet_thread elem))) elem) s0)
      with (stringify_threads s).
    rewrite Hp'. cbn [rbind Ok pr_result].
    by rewrite Hres, Hlevel, end_line_marker, unlines_app.
  - unfold error_trace_pretty_parse. rewrite splitlines_unlines; [exact Hparse|].
    apply Forall_app. split; [by eapply render_all_no_linebreak|].
    repeat constructor. apply marker_text_no_linebreak.
Qed.

Lemma print_parse_roundtrip_witness :
  exists text s',
    snd (error_trace_pretty_print ex_trace_nested) = Ok text
    /\ error_trace_pretty_parse text = Ok s'
    /\ comparable_eq s' ex_trace_nested.
Proof. apply print_parse_roundtrip. reflexivity. Defined.

(** C1, as stated, fails.  An assume that does not hold comes back with its
    source in parentheses; a note after a return comes back before the
    return; a thread that is not numbered from 0 comes back as thread 0, and
    a thread that is resumed comes back as a new one; a note comes back
    with its text as source; a call comes back without its source; an
    assume whose source begins with an exclamation mark comes back as one
    that does not hold; a text with a line break comes back without the
    break; a name that is no word, a negative line number or an empty text
    gives a line the parser refuses. *)
Lemma print_parse_counterexample :
  (print_then_parse [ex_assume 0 false "x" 1] = Ok [mk_assume 0 "(x)" true "1"]
   /\ ~ comparable_eq [mk_assume 0 "(x)" true "1"] [ex_assume 0 false "x" 1])
  /\ (print_then_parse [ex_call 0 "f" 1; ex_return 0 "f" 2; ex_note 0 "n" 3]
      = Ok [mk_call 0 "f" "1"; mk_other 0 "note" "n" "3"; mk_return 0 "f" "0"]
      /\ ~ comparable_eq
             [mk_call 0 "f" "1"; mk_other 0 "note" "n" "3"; mk_return 0 "f" "0"]
             [ex_call 0 "f" 1; ex_return 0 "f" 2; ex_note 0 "n" 3])
  /\ (print_then_parse [ex_call 7 "f" 1] = Ok [mk_call 0 "f" "1"]
      /\ ~ comparable_eq [mk_call 0 "f" "1"] [ex_call 7 "f" 1])
  /\ (print_then_parse [ex_note 0 "a" 1; ex_note 1 "b" 2; ex_note 0 "c" 3]
      = Ok [mk_other 0 "note" "a" "1"; mk_other 1 "note" "b" "2"; mk_other 2 "note" "c" "3"]
      /\ ~ comparable_eq
             [mk_other 0 "note" "a" "1"; mk_other 1 "note" "b" "2";
              mk_other 2 "note" "c" "3"]
             [ex_note 0 "a" 1; ex_note 1 "b" 2; ex_note 0 "c" 3])
  /\ (print_then_parse [ex_note_source "s" "n"] = Ok [mk_other 0 "note" "n" "1"]
      /\ ~ comparable_eq [mk_other 0 "note" "n" "1"] [ex_note_source "s" "n"])
  /\ (print_then_parse [ex_call_source "f" "f(1)"] = Ok [mk_call 0 "f" "1"]
      /\ ~ comparable_eq [mk_call 0 "f" "1"] [ex_call_source "f" "f(1)"])
  /\ (print_then_parse [ex_assume 0 true "!x" 1] = Ok [mk_assume 0 "x" true "1"]
      /\ ~ comparable_eq [mk_assume 0 "x" true "1"] [ex_assume 0 true "!x" 1])
  /\ (print_then_parse [ex_note 0 ("a" +:+ String NL "" +:+ "b") 1]
      = Ok [mk_other 0 "note" "ab" "1"]
      /\ ~ comparable_eq [mk_other 0 "note" "ab" "1"]
                          [ex_note 0 ("a" +:+ String NL "" +:+ "b") 1])
  /\ print_then_parse [ex_call 0 "a.b" 1]
     = Raise (parse_error ("1" +:+ String TAB "" +:+ "|a.b0" +:+ String TAB ""
                             +:+ "| __ERROR__"))
  /\ print_then_parse [ex_call 0 "f" (-1)]
     = Raise (parse_error ("-1" +:+ String TAB "" +:+ "|f0" +:+ String TAB ""
                             +:+ "| __ERROR__"))
  /\ print_then_parse [ex_note 0 "" 1]
     = Raise (parse_error ("1" +:+ String TAB "" +:+ "|note: ''0" +:+ String TAB ""
                             +:+ "|__ERROR__")).
Proof. repeat split; try reflexivity; discriminate. Qed.

(* ===================================================================== *)
(** * More on the printer *)
(* ===================================================================== *)

Lemma int_of_str_of_Z (z : Z) : exists n, int_of_str (str_of_Z z) = Some n.
Proof.
  destruct (Z.neg_nonneg_cases z) as [Hneg|Hnn].
  - destruct z as [|p|p]; try lia. unfold int_of_str.
    assert (str_of_Z (Z.neg p) = String "-" (str_of_Z (Z.pos p))) as Hs by done.
    pose proof (str_of_Z_digits (Z.pos p) ltac:(lia)) as Hd.
    pose proof (str_of_Z_nonempty (Z.pos p)) as Hne.
    destruct (last_char_class _ _ Hne Hd) as (c & Hlast & Hc).
    assert (int_rstrip (int_lstrip (str_of_Z (Z.neg p))) = str_of_Z (Z.neg p)) as ->.
    { rewrite Hs. rewrite int_lstrip_keeps by done.
      apply (int_rstrip_keeps _ c); [|by apply digit_not_int_space].
      change (String "-" (str_of_Z (Z.pos p))) with ("-" +:+ str_of_Z (Z.pos p)).
      by apply last_char_suffix. }
    rewrite Hs. destruct (int_digits_some _ 0 Hd) as [n Hn].
    destruct (str_of_Z (Z.pos p)) as [|d ds] eqn:E; [done|].
    cbn [str_forallb] in Hd. apply andb_true_iff in Hd as [Hd' _].
    exists (- n). unfold int_unsigned. rewrite Hd', Hn. done.
  - apply int_of_str_digits; [apply str_of_Z_nonempty | by apply str_of_Z_digits].
Qed.

Lemma numeric_thread_int (e : elem) (t : Z) : cet_thread e = VInt t -> numeric_thread e.
Proof. intros H. unfold numeric_thread. rewrite H. apply int_of_str_of_Z. Qed.

Lemma print_thread_cur (st : pr_state) (t : string) :
  pr_cur_thread (print_thread st (VStr t)) = VStr t.
Proof.
  unfold print_thread. destruct (py_eq (pr_cur_thread st) (VInt (-1))); [done|].
  destruct (py_eq (pr_cur_thread st) (VStr t)) eqn:E; [|done]. simpl.
  destruct (pr_cur_thread st) as [| | |c]; try done. by apply py_eq_str in E as ->.
Qed.

Lemma print_body_ok (st : pr_state) (e : elem) (c : string) (n : Z) :
  pr_cur_thread st = VStr c -> int_of_str c = Some n ->
  exists text,
    print_body st e =
      Ok (PrState text
                  (if is_op (cet_op e) CET_OP_CALL then pr_level st + 1 else pr_level st)
                  (pr_cur_thread st)
                  (if is_op (cet_op e) CET_OP_CALL
                   then cet_display_name e :: pr_stack st else pr_stack st)
                  (pr_log st)).
Proof.
  intros Hc Hn. unfold print_body.
  destruct (is_op (cet_op e) CET_OP_CALL); [by eexists|].
  destruct (existsb _ _); [|by eexists].
  assert (exists spaces,
    (if 0 <? pr_level st then Ok (str_mul " " (pr_level st))
     else let! n0 := py_int (pr_cur_thread st) in Ok (str_mul " " n0)) = Ok spaces)
    as [spaces ->].
  { destruct (0 <? pr_level st); [by eexists|]. rewrite Hc. unfold py_int. rewrite Hn.
    by eexists. }
  cbn [rbind Ok]. repeat case_match; by eexists.
Qed.

Lemma open_calls_run (debug : bool) (s : list elem) :
  Forall numeric_thread s ->
  forall st,
    match open_calls (pr_stack st) s with
    | None => rfold (print_elem debug) st (stringify_threads s) = Raise IndexError
    | Some stack =>
        exists st', rfold (print_elem debug) st (stringify_threads s) = Ok st'
                    /\ pr_stack st' = stack
    end.
Proof.
  induction 1 as [|e s [n Hn] _ IH]; intros st; [by exists st|].
  cbn [stringify_threads map rfold open_calls].
  fold (stringify_threads s).
  set (e' := set_thread (VStr (py_str (cet_thread e))) e).
  set (st1 := print_thread st (VStr (py_str (cet_thread e)))).
  assert (print_elem debug st e' = print_return debug st1 e') as -> by reflexivity.
  assert (pr_stack st1 = pr_stack st) as Hstack by apply print_thread_stack.
  assert (pr_cur_thread st1 = VStr (py_str (cet_thread e))) as Hcur
    by apply print_thread_cur.
  unfold print_return.
  change (cet_op e') with (cet_op e).
  change (cet_display_name e') with (cet_display_name e).
  destruct (is_op (cet_op e) CET_OP_RETURN) eqn:Hret.
  - rewrite Hstack. destruct (pr_stack st) as [|last_call stack]; [reflexivity|].
    destruct (py_eq (cet_display_name e) last_call).
    + rewrite print_body_return by done. cbn [rbind]. apply (IH (PrState _ _ _ _ _)).
    + cbn [rbind]. apply (IH (PrState _ _ _ _ _)).
  - destruct (print_body_ok st1 e' _ _ Hcur Hn) as [text ->].
    cbn [rbind]. change (cet_op e') with (cet_op e).
    change (cet_display_name e') with (cet_display_name e).
    rewrite Hstack. specialize (IH (PrState text
       (if is_op (cet_op e) CET_OP_CALL then pr_level st1 + 1 else pr_level st1)
       (pr_cur_thread st1)
       (if is_op (cet_op e) CET_OP_CALL then cet_display_name e :: pr_stack st
        else pr_stack st) (pr_log st1))).
    cbn [pr_stack] in IH. by destruct (is_op (cet_op e) CET_OP_CALL).
Qed.




Lemma print_elem_cur (debug : bool) (st st' : pr_state) (e : elem) (t : string) :
  cet_thread e = VStr t -> print_elem debug st e = Ok st' -> pr_cur_thread st' = VStr t.
Proof.
  intros Ht. unfold print_elem. rewrite Ht.
  intros H%print_return_cur_thread. by rewrite H, print_thread_cur.
Qed.

Lemma print_body_silent (st : pr_state) (e : elem) :
  prints_line (cet_op e) = false -> print_body st e = Ok st.
Proof.
  unfold prints_line, print_body. intros [H1 H2]%orb_false_iff.
  rewrite H1, H2. by destruct st.
Qed.

Lemma print_elem_no_effect (debug : bool) (st : pr_state) (e : elem) (t : string) :
  no_effect e = true -> cet_thread e = VStr t -> pr_cur_thread st = VStr t ->
  print_elem debug st e = Ok st.
Proof.
  unfold no_effect. intros [H1 H2]%andb_true_iff Ht Hcur.
  apply negb_true_iff in H1, H2.
  unfold print_elem, print_return. rewrite Ht, (print_thread_same _ _ Hcur), H2.
  by apply print_body_silent.
Qed.

Lemma stringify_threads_app (s1 s2 : list elem) :
  stringify_threads (s1 ++ s2) = stringify_threads s1 ++ stringify_threads s2.
Proof. apply map_app. Qed.

(** X2. An element whose operation is none of call, return, assume, assign,
    note and warn is passed over in silence: when it follows an element of
    its own thread, the printer returns, or raises, exactly what it does
    for the trace without it. *)
Theorem unknown_operation_ignored (debug : bool) (s1 s2 : list elem) (e0 e : elem) :
  no_effect e = true ->
  py_str (cet_thread e) = py_str (cet_thread e0) ->
  print_run debug (stringify_threads (s1 ++ e0 :: e :: s2))
  = print_run debug (stringify_threads (s1 ++ e0 :: s2)).
Proof.
  intros Hno Hthread. unfold print_run.
  rewrite !stringify_threads_app, !rfold_app.
  destruct (rfold (print_elem debug) pr_init (stringify_threads s1)) as [err|st]; [done|].
  cbn [rbind stringify_threads map rfold].
  destruct (print_elem debug st (set_thread (VStr (py_str (cet_thread e0))) e0))
    as [err|st1] eqn:E0; [done|].
  cbn [rbind]. apply (print_elem_cur _ _ _ _ (py_str (cet_thread e0))) in E0; [|done].
  rewrite (print_elem_no_effect debug st1 _ (py_str (cet_thread e0))); try done.
  by rewrite Hthread.
Qed.

Lemma unknown_operation_ignored_witness :
  print_run false (stringify_threads ([ex_call 0 "f" 1] ++ ex_note 0 "n" 2
                                        :: ex_unknown 0 :: [ex_return 0 "f" 3]))
  = print_run false (stringify_threads ([ex_call 0 "f" 1] ++ ex_note 0 "n" 2
                                          :: [ex_return 0 "f" 3])).
Proof.
  apply (unknown_operation_ignored false [ex_call 0 "f" 1] [ex_return 0 "f" 3]
           (ex_note 0 "n" 2) (ex_unknown 0)); reflexivity.
Defined.

Lemma print_body_inv (st st' : pr_state) (e : elem) :
  print_body st e = Ok st' ->
  pr_level st' = (if is_op (cet_op e) CET_OP_CALL then pr_level st + 1 else pr_level st)
  /\ pr_stack st' = (if is_op (cet_op e) CET_OP_CALL
                     then cet_display_name e :: pr_stack st else pr_stack st).
Proof.
  unfold print_body. destruct (if is_op (cet_op e) CET_OP_CALL then _ else _);
    cbn [rbind]; [done|].
  by destruct (is_op (cet_op e) CET_OP_CALL); intros [= <-].
Qed.

Lemma print_return_depth (debug : bool) (st st' : pr_state) (e : elem) :
  print_return debug st e = Ok st' ->
  pr_level st' - Z.of_nat (length (pr_stack st'))
  = pr_level st - Z.of_nat (length (pr_stack st)).
Proof.
  unfold print_return. destruct (is_op (cet_op e) CET_OP_RETURN) eqn:Hret.
  - destruct (pr_stack st) as [|last_call stack] eqn:Hs; [done|].
    destruct (py_eq _ _).
    + rewrite print_body_return by done. intros [= <-]. cbn. lia.
    + intros [= <-]. cbn. lia.
  - intros [Hl Hs]%print_body_inv. rewrite Hl, Hs.
    destruct (is_op (cet_op e) CET_OP_CALL); cbn [length]; lia.
Qed.

Lemma print_thread_depth (st : pr_state) (thread : pyval) :
  pr_level st <= Z.of_nat (length (pr_stack st)) ->
  pr_level (print_thread st thread)
    <= Z.of_nat (length (pr_stack (print_thread st thread))).
Proof. unfold print_thread. repeat case_match; cbn; lia. Qed.

Lemma depth_bounded_run (debug : bool) (s : list elem) :
  forall st st',
    pr_level st <= Z.of_nat (length (pr_stack st)) ->
    rfold (print_elem debug) st s = Ok st' ->
    pr_level st' <= Z.of_nat (length (pr_stack st')).
Proof.
  induction s as [|e s IH]; intros st st' Hle; cbn [rfold].
  - by intros [= <-].
  - unfold print_elem at 1.
    destruct (print_return debug (print_thread st (cet_thread e)) e) as [err|st1] eqn:E;
      [done|].
    cbn [rbind]. apply IH. apply print_return_depth in E.
    pose proof (print_thread_depth st (cet_thread e) Hle). lia.
Qed.

Lemma depth_exact_run (debug : bool) (c : string) (s : list elem) :
  Forall (fun e => cet_thread e = VStr c) s ->
  forall st st',
    pr_cur_thread st = VInt (-1) \/ pr_cur_thread st = VStr c ->
    pr_level st = Z.of_nat (length (pr_stack st)) ->
    rfold (print_elem debug) st s = Ok st' ->
    pr_level st' = Z.of_nat (length (pr_stack st')).
Proof.
  induction 1 as [|e s He _ IH]; intros st st' Hcur Heq; cbn [rfold].
  - by intros [= <-].
  - unfold print_elem at 1. rewrite He.
    assert (print_thread st (VStr c)
            = PrState (pr_result st) (pr_level st) (VStr c) (pr_stack st) (pr_log st))
      as ->.
    { destruct Hcur as [Hcur|Hcur].
      - unfold print_thread. by rewrite Hcur.
      - rewrite (print_thread_same _ _ Hcur). destruct st. cbn in *. by subst. }
    destruct (print_return debug _ e) as [err|st1] eqn:E; [done|].
    cbn [rbind]. pose proof (print_return_cur_thread _ _ _ _ E) as Hc1.
    apply print_return_depth in E. cbn in E, Hc1.
    apply IH; [by right | lia].
Qed.

(** X3. The depth the printer indents by never exceeds the number of names
    on its stack, whatever the trace; and in a trace of a single thread the
    two are equal after every element, so that each line is indented by the
    number of calls still open. *)
Theorem depth_and_stack (debug : bool) (s : list elem) (st : pr_state) :
  rfold (print_elem debug) pr_init (stringify_threads s) = Ok st ->
  pr_level st <= Z.of_nat (length (pr_stack st))
  /\ ((exists c, Forall (fun e => py_str (cet_thread e) = c) s) ->
      pr_level st = Z.of_nat (length (pr_stack st))).
Proof.
  intros Hrun. split.
  - apply (depth_bounded_run debug (stringify_threads s) pr_init st); [cbn; lia | done].
  - intros [c Hc].
    apply (depth_exact_run debug c (stringify_threads s)) with (st := pr_init);
      [|by left|done|done].
    unfold stringify_threads. apply Forall_forall.
    intros e' (e & -> & Hin)%list_elem_of_fmap. cbn.
    by rewrite (proj1 (Forall_forall _ _) Hc e Hin).
Qed.

Lemma depth_and_stack_witness :
  exists st,
    rfold (print_elem false) pr_init
      (stringify_threads [ex_call 0 "f" 1; ex_call 0 "g" 2; ex_return 0 "g" 3]) = Ok st
    /\ pr_level st <= Z.of_nat (length (pr_stack st))
    /\ pr_level st = Z.of_nat (length (pr_stack st)).
Proof.
  eexists. split; [reflexivity|].
  destruct (depth_and_stack false
              [ex_call 0 "f" 1; ex_call 0 "g" 2; ex_return 0 "g" 3] _ eq_refl) as [H1 H2].
  split; [exact H1|]. apply H2. exists "0". repeat constructor.
Defined.

(* ===================================================================== *)
(** * More on [process_args] *)
(* ===================================================================== *)

Lemma canonical_after (as_str : bool) (v : argval) :
  canonical as_str (canonical false v) = canonical as_str v.
Proof.
  destruct v as [|b|z|s|l]; try done; unfold canonical; by rewrite sort_strings_idemp.
Qed.

Lemma process_value_after (as_str : bool) (o : option argval) :
  process_value as_str (process_value false o) = process_value as_str o.
Proof.
  destruct o as [v|]; simpl; [|done].
  destruct (arg_truthy v) eqn:E; simpl; [|done].
  by rewrite (arg_truthy_canonical _ E), canonical_after.
Qed.

(** X4. A mapping that went through [process_args] without [as_str] can go
    through it again, in either mode, and ends as if it had gone through
    it once in that mode: in particular a second call changes nothing. *)
Theorem process_args_again (args : gmap string argval) (as_str : bool) :
  process_args (process_args args false) as_str = process_args args as_str.
Proof.
  apply map_eq. intros key. rewrite !process_args_lookup.
  destruct (decide (key ∈ RECOGNIZED_TAGS)); [apply process_value_after | done].
Qed.

Lemma split_on_word (w : string) : comma_free w = true -> split_on "," w = [w].
Proof.
  induction w as [|c w IH]; simpl; [done|].
  intros [Hc Hw]%andb_true_iff. apply negb_true_iff in Hc as ->. by rewrite IH.
Qed.

Lemma split_on_app (w rest : string) :
  comma_free w = true ->
  split_on "," (w +:+ String "," rest) = w :: split_on "," rest.
Proof.
  unfold comma_free. induction w as [|c w IH]; simpl; [done|].
  intros [Hc Hw]%andb_true_iff. apply negb_true_iff in Hc as ->. by rewrite IH.
Qed.

Lemma split_join (l : list string) :
  l <> [] -> forallb comma_free l = true -> split_on "," (join "," l) = l.
Proof.
  induction l as [|w l IH]; [done|]. intros _ [Hw Hl]%andb_true_iff.
  destruct l as [|w' l]; [by apply split_on_word|].
  change (join "," (w :: w' :: l)) with (w +:+ String "," (join "," (w' :: l))).
  rewrite split_on_app by done. by rewrite IH.
Qed.

Lemma split_on_comma_free (s : string) : forallb comma_free (split_on "," s) = true.
Proof.
  induction s as [|c s IH]; simpl; [done|].
  destruct (Ascii.eqb c ",") eqn:E; simpl; [done|].
  destruct (split_on "," s) as [|w ws]; unfold comma_free in *; simpl in *;
    by rewrite E.
Qed.

Lemma split_on_not_empty_word (s : string) : s <> "" -> split_on "," s <> [""].
Proof.
  destruct s as [|c s]; [done|]. intros _. simpl.
  destruct (Ascii.eqb c ","); [by pose proof (split_on_nonempty "," s); destruct (split_on "," s)|].
  by destruct (split_on "," s).
Qed.

Lemma forallb_perm {A} (p : A -> bool) (l1 l2 : list A) :
  l1 ≡ₚ l2 -> forallb p l1 = true -> forallb p l2 = true.
Proof.
  intros Hp H. apply forallb_forall. intros x Hx.
  apply (proj1 (forallb_forall _ _) H).
  eapply Permutation_in; [symmetry; exact Hp | exact Hx].
Qed.

Lemma join_not_empty (l : list string) : l <> [] -> l <> [""] -> join "," l <> "".
Proof.
  destruct l as [|w [|w' l]]; [done| |].
  - intros _ H. simpl. by intros ->.
  - intros _ _. change (join "," (w :: w' :: l)) with (w +:+ String "," (join "," (w' :: l))).
    by destruct w.
Qed.

Lemma sort_strings_joinable (l : list string) :
  l <> [] -> l <> [""] -> forallb comma_free l = true ->
  arg_truthy (AStr (join "," (sort_strings l))) = true
  /\ split_on "," (join "," (sort_strings l)) = sort_strings l.
Proof.
  intros Hne Hne' Hcf.
  pose proof (sort_strings_perm l) as Hp.
  assert (sort_strings l <> []) as H1 by (by apply (perm_nonempty l); [symmetry|]).
  assert (sort_strings l <> [""]) as H2.
  { intros E. rewrite E in Hp. symmetry in Hp. by apply Permutation_singleton_r in Hp. }
  split.
  - simpl. apply negb_true_iff, String.eqb_neq. by apply join_not_empty.
  - apply split_join; [done|]. by apply (forallb_perm _ l).
Qed.

Lemma canonical_after_str (as_str : bool) (v : argval) :
  arg_truthy v = true ->
  (forall l, v = AList l -> forallb comma_free l = true /\ l <> [""]) ->
  process_value as_str (Some (canonical true v)) = Some (canonical as_str v).
Proof.
  intros Ht Hl. destruct v as [|b|z|s|l]; try (simpl in *; first [done | by rewrite Ht]).
  - assert (s <> "") as Hs by (by apply String.eqb_neq, negb_true_iff).
    destruct (sort_strings_joinable (split_on "," s)) as [H1 H2];
      [apply split_on_nonempty | by apply split_on_not_empty_word
      | apply split_on_comma_free |].
    change (canonical true (AStr s))
      with (AStr (join "," (sort_strings (split_on "," s)))).
    unfold process_value. rewrite H1. unfold canonical.
    by rewrite H2, sort_strings_idemp.
  - destruct (Hl l eq_refl) as [Hcf Hne].
    destruct (sort_strings_joinable l) as [H1 H2]; [by destruct l|done|done|].
    change (canonical true (AList l)) with (AStr (join "," (sort_strings l))).
    unfold process_value. rewrite H1. unfold canonical.
    by rewrite H2, sort_strings_idemp.
Qed.

(** X5. The string form can be read back: when no element of a list value
    holds a comma and no list value is the empty string alone, a mapping
    that went through [process_args] with [as_str] goes through it again,
    in either mode, as the original mapping would; so the lists are
    recovered from the strings, and a second call with [as_str] changes
    nothing. *)
Theorem process_args_from_strings (args : gmap string argval) (as_str : bool) :
  lists_joinable args ->
  process_args (process_args args true) as_str = process_args args as_str.
Proof.
  intros Hj. apply map_eq. intros key. rewrite !process_args_lookup.
  destruct (decide (key ∈ RECOGNIZED_TAGS)) as [Hin|]; [|done].
  destruct (args !! key) as [v|] eqn:E; [|done]. unfold process_value at 2 3.
  destruct (arg_truthy v) eqn:Ht; [|done].
  apply canonical_after_str; [done|]. intros l ->. by apply (Hj key).
Qed.

Lemma process_args_from_strings_witness :
  process_args ex_args3 true !! TAG_FILTERED_MODEL_FUNCTIONS = Some (AStr "f,g")
  /\ process_args (process_args ex_args3 true) false = process_args ex_args3 false
  /\ process_args (process_args ex_args3 true) false !! TAG_FILTERED_MODEL_FUNCTIONS
       = Some (AList ["f"; "g"]).
Proof.
  assert (lists_joinable ex_args3) as Hj.
  { intros tag l Hin.
    repeat (apply elem_of_cons in Hin as [->|Hin]); try (by apply elem_of_nil in Hin);
      vm_compute; intros [= <-]; done. }
  split; [reflexivity|]. split; [apply (process_args_from_strings ex_args3 false Hj)|].
  rewrite (process_args_from_strings ex_args3 false Hj). reflexivity.
Defined.

(** X6. [process_args] adds no key, and without [as_str] it leaves no empty
    value under a recognised option.  With [as_str] it can: the list of
    the empty string alone is stored as the empty string, which a second
    call removes. *)
Theorem process_args_no_empty_value (args : gmap string argval) (tag : string) :
  tag ∈ RECOGNIZED_TAGS ->
  (forall as_str key, is_Some (process_args args as_str !! key) -> is_Some (args !! key))
  /\ (forall v, process_args args false !! tag = Some v -> arg_truthy v = true)
  /\ (args !! tag = Some (AList [""]) ->
      process_args args true !! tag = Some (AStr "")
      /\ process_args (process_args args true) true !! tag = None).
Proof.
  intros Hin. split; [|split].
  - intros as_str key. rewrite process_args_lookup.
    destruct (decide (key ∈ RECOGNIZED_TAGS)); [|done].
    destruct (args !! key); [done|]. simpl. by intros [? ?].
  - intros v. rewrite process_args_lookup, decide_True by done.
    destruct (args !! tag) as [v0|]; simpl; [|done].
    destruct (arg_truthy v0) eqn:E; [|done]. intros [= <-].
    by apply arg_truthy_canonical.
  - intros E. rewrite !process_args_lookup, !decide_True by done. by rewrite E.
Qed.

Lemma process_args_no_empty_value_witness :
  arg_truthy (AStr "") = false
  /\ process_args (<[TAG_USE_NOTES := AList [""]]> ex_args1) true !! TAG_USE_NOTES
       = Some (AStr "")
  /\ process_args (process_args (<[TAG_USE_NOTES := AList [""]]> ex_args1) true) true
       !! TAG_USE_NOTES = None.
Proof.
  split; [reflexivity|].
  apply (proj2 (proj2 (process_args_no_empty_value
                         (<[TAG_USE_NOTES := AList [""]]> ex_args1) TAG_USE_NOTES
                         ltac:(apply (bool_decide_unpack _); vm_compute; exact I)))).
  reflexivity.
Defined.

(* ===================================================================== *)
(** * The notes of [automatic_error_trace_editing] *)
(* ===================================================================== *)

Lemma py_eq_refl (v : pyval) : py_eq v v = true.
Proof.
  destruct v as [|b|z|s]; simpl; [done|by destruct b|apply Z.eqb_refl|apply String.eqb_refl].
Qed.

Lemma edit_elem_acc (c : list elem) (b : bool) (acc : list elem) (e : elem) :
  edit_elem c (b, acc) e =
    (b || existsb is_note (option_list (edited c e)), acc ++ option_list (edited c e)).
Proof.
  unfold edited, edit_elem, is_note. cbn [fst snd].
  destruct (is_op (cet_op e) CET_OP_NOTE) eqn:Hop.
  - destruct (negb _).
    + destruct (py_truthy _); simpl.
      * by rewrite Hop, orb_true_r.
      * by rewrite orb_false_r, app_nil_r.
    + simpl. by rewrite Hop, orb_true_r.
  - simpl. by rewrite Hop, orb_false_r.
Qed.

Lemma edit_notes_acc (c v : list elem) (b : bool) (acc : list elem) :
  fold_left (edit_elem c) v (b, acc) =
    (b || existsb is_note (omap (edited c) v), acc ++ omap (edited c) v).
Proof.
  revert b acc. induction v as [|e v IH]; intros b acc; simpl.
  - by rewrite orb_false_r, app_nil_r.
  - rewrite edit_elem_acc, IH.
    destruct (edited c e) as [e'|]; simpl.
    + by rewrite orb_false_r, orb_assoc, <- app_assoc.
    + by rewrite orb_false_r, app_nil_r.
Qed.

Lemma edit_notes_omap (v c : list elem) :
  edit_notes v c = (existsb is_note (omap (edited c) v), omap (edited c) v).
Proof. unfold edit_notes. by rewrite edit_notes_acc. Qed.

Lemma edited_cases (c : list elem) (e e' : elem) :
  edited c e = Some e' ->
  (is_note e = false /\ e' = e)
  \/ (is_note e = true /\ e' = e
      /\ py_eq (cet_display_name e) (find_basic_note c (cet_id e)) = true)
  \/ (is_note e = true
      /\ e' = set_display_name (find_basic_note c (cet_id e)) e
      /\ py_eq (cet_display_name e) (find_basic_note c (cet_id e)) = false
      /\ py_truthy (find_basic_note c (cet_id e)) = true).
Proof.
  unfold edited, edit_elem, is_note. simpl.
  destruct (is_op (cet_op e) CET_OP_NOTE); simpl.
  - destruct (py_eq _ _) eqn:E; simpl.
    + intros [= <-]. right. left. done.
    + destruct (py_truthy _); simpl; [|done]. intros [= <-]. right. right. done.
  - intros [= <-]. by left.
Qed.

Lemma edited_again (c : list elem) (e e' : elem) :
  edited c e = Some e' -> edited c e' = Some e'.
Proof.
  intros [[Hn ->]|[(Hn & -> & Heq)|(Hn & -> & Heq & Ht)]]%edited_cases.
  - unfold edited, edit_elem. unfold is_note in Hn. by rewrite Hn.
  - unfold edited, edit_elem. unfold is_note in Hn. rewrite Hn. simpl. by rewrite Heq.
  - unfold edited, edit_elem. unfold is_note in Hn. simpl. rewrite Hn. simpl.
    by rewrite py_eq_refl.
Qed.

Lemma omap_step {A B} (f : A -> option B) (x : A) (l : list A) :
  omap f (x :: l) = match f x with Some y => y :: omap f l | None => omap f l end.
Proof. reflexivity. Qed.

Lemma omap_again {A} (f : A -> option A) (l : list A) :
  (forall x y, f x = Some y -> f y = Some y) -> omap f (omap f l) = omap f l.
Proof.
  intros Hf. induction l as [|x l IH]; simpl; [done|].
  destruct (f x) as [y|] eqn:E; simpl; [|exact IH]. rewrite (Hf _ _ E).
  f_equal. exact IH.
Qed.

(** X7. The loop over the visual trace keeps every element that is not a
    note, as it is and in its place, and keeps a note exactly when its
    name equals the name of the note with its identifier in the converted
    trace, or when that note has a name that is not empty, which it is
    then given; so every note that is kept carries that name.  The flag is
    set exactly when a note is kept. *)
Theorem edit_notes_keeps (visual_error_trace converted_error_trace : list elem) :
  let is_note_changed := fst (edit_notes visual_error_trace converted_error_trace) in
  let edited_error_trace := snd (edit_notes visual_error_trace converted_error_trace) in
  filter (fun e => is_note e = false) edited_error_trace
    = filter (fun e => is_note e = false) visual_error_trace
  /\ map cet_id (filter (fun e => is_note e = true) edited_error_trace)
     = map cet_id
         (filter (fun e => is_note e = true
                           /\ (py_eq (cet_display_name e)
                                     (find_basic_note converted_error_trace (cet_id e)) = true
                               \/ py_truthy (find_basic_note converted_error_trace (cet_id e))
                                  = true))
                 visual_error_trace)
  /\ Forall (fun e => is_note e = true ->
                      py_eq (cet_display_name e)
                            (find_basic_note converted_error_trace (cet_id e)) = true)
            edited_error_trace
  /\ is_note_changed = existsb is_note edited_error_trace.
Proof.
  intros flag out. subst flag out. rewrite edit_notes_omap. cbn [fst snd].
  set (c := converted_error_trace).
  split; [|split; [|split; [|done]]].
  - induction visual_error_trace as [|e v IH]; [done|]. rewrite omap_step.
    destruct (edited c e) as [e'|] eqn:E.
    + apply edited_cases in E as [[Hn ->]|[(Hn & -> & _)|(Hn & -> & _)]].
      * rewrite !filter_cons_True by done. by rewrite IH.
      * rewrite !filter_cons_False by (by rewrite Hn). done.
      * rewrite (filter_cons_False _ e) by (by rewrite Hn).
        rewrite filter_cons_False; [done|]. unfold is_note in *. simpl. by rewrite Hn.
    + rewrite filter_cons_False; [done|].
      unfold edited, edit_elem, is_note in *. simpl in E.
      destruct (is_op (cet_op e) CET_OP_NOTE); [done|]. done.
  - induction visual_error_trace as [|e v IH]; [done|]. rewrite omap_step.
    destruct (edited c e) as [e'|] eqn:E.
    + apply edited_cases in E as [[Hn ->]|[(Hn & -> & Heq)|(Hn & -> & Heq & Ht)]].
      * rewrite !filter_cons_False; [done| |]; rewrite Hn; [by intros []|done].
      * rewrite !filter_cons_True by auto. simpl. by rewrite IH.
      * rewrite (filter_cons_True _ e) by auto.
        rewrite filter_cons_True by (unfold is_note in *; simpl; done).
        simpl. by rewrite IH.
    + rewrite filter_cons_False; [done|]. intros [Hn Hor].
      unfold edited, edit_elem, is_note in *. simpl in E. rewrite Hn in E. simpl in E.
      destruct Hor as [Heq|Ht].
      * by rewrite Heq in E.
      * rewrite Ht in E. by destruct (negb _).
  - induction visual_error_trace as [|e v IH]; [done|]. rewrite omap_step.
    destruct (edited c e) as [e'|] eqn:E; [|done].
    constructor; [|done].
    apply edited_cases in E as [[Hn ->]|[(Hn & -> & Heq)|(Hn & -> & Heq & Ht)]].
    + by rewrite Hn.
    + done.
    + intros _. simpl. apply py_eq_refl.
Qed.

(** X8. The loop has nothing to do on its own result: run again on the
    edited trace, against the same converted trace, it keeps every
    element as it is and sets the flag as before. *)
Theorem edit_notes_again (visual_error_trace converted_error_trace : list elem) :
  edit_notes (snd (edit_notes visual_error_trace converted_error_trace))
             converted_error_trace
  = edit_notes visual_error_trace converted_error_trace.
Proof.
  rewrite !edit_notes_omap. cbn [snd].
  by rewrite omap_again by apply edited_again.
Qed.

Lemma find_basic_note_own (s : list elem) (i : nat) (e : elem) :
  distinct_ids s -> s !! i = Some e ->
  find_basic_note s (cet_id e) = if is_note e then cet_display_name e else VNone.
Proof.
  revert i. induction s as [|b s IH]; intros i Hd Hi; [done|]. simpl.
  destruct (py_eq (cet_id b) (cet_id e)) eqn:Heq.
  - assert (0%nat = i) as <- by (by apply (Hd 0%nat i b e)).
    by injection Hi as ->.
  - destruct i as [|i]; [injection Hi as ->; by rewrite py_eq_refl in Heq|].
    apply (IH i); [|done].
    intros j k x y Hj Hk Hxy. by injection (f_equal S (Hd (S j) (S k) x y Hj Hk Hxy)).
Qed.

(** X9. When the visual trace is the converted trace and no two of its
    elements have the same identifier, the loop changes nothing: the
    edited trace is that trace, and the flag tells whether it has a
    note. *)
Theorem edit_notes_same_trace (s : list elem) :
  distinct_ids s -> edit_notes s s = (existsb is_note s, s).
Proof.
  intros Hd. rewrite edit_notes_omap.
  assert (omap (edited s) s = s) as ->; [|done].
  assert (forall e, e ∈ s -> edited s e = Some e) as Hall.
  { intros e [i Hi]%list_elem_of_lookup. unfold edited, edit_elem.
    rewrite (find_basic_note_own s i e Hd Hi). unfold is_note.
    destruct (is_op (cet_op e) CET_OP_NOTE); [|done]. simpl. by rewrite py_eq_refl. }
  assert (forall t : list elem,
            (forall e, e ∈ t -> edited s e = Some e) -> omap (edited s) t = t)
    as Haux; [|by apply Haux].
  clear Hall. intros t. induction t as [|e t IH]; intros Hall; [done|].
  rewrite omap_step, Hall by (apply elem_of_cons; auto). f_equal. apply IH.
  intros x Hx. apply Hall, elem_of_cons. auto.
Qed.

Lemma edit_notes_same_trace_witness :
  edit_notes ex_converted ex_converted = (true, ex_converted)
  /\ edit_notes ex_visual ex_converted =
       (true, [ ex_elem CET_OP_CALL 1 "main"; ex_elem CET_OP_NOTE 2 "first";
                ex_elem CET_OP_RETURN 4 "main" ]).
Proof.
  split; [|reflexivity].
  apply (edit_notes_same_trace ex_converted).
  intros i j e e' Hi Hj.
  destruct i as [|[|[|[|i]]]]; try discriminate Hi;
    destruct j as [|[|[|[|j]]]]; try discriminate Hj;
    injection Hi as <-; injection Hj as <-; vm_compute; intros H;
    first [reflexivity | discriminate H].
Defined.

(* ===================================================================== *)
(** * The parser's result as an input of the printer *)
(* ===================================================================== *)

Lemma open_calls_app (stack : list pyval) (a b : list elem) :
  open_calls stack (a ++ b) =
    match open_calls stack a with
    | Some stack' => open_calls stack' b
    | None => None
    end.
Proof.
  revert stack. induction a as [|e a IH]; intros stack; simpl; [done|].
  destruct (is_op (cet_op e) CET_OP_RETURN).
  - destruct stack as [|last_call stack']; [done|].
    destruct (py_eq (cet_display_name e) last_call); apply IH.
  - destruct (is_op (cet_op e) CET_OP_CALL); apply IH.
Qed.

Lemma open_calls_returns (thread : Z) (line : string) (names : list string)
    (open_stack : list pyval) :
  (length names <= length open_stack)%nat ->
  exists open_stack',
    open_calls open_stack (map (fun ret_func => mk_return thread ret_func line) names)
      = Some open_stack'
    /\ (length open_stack <= length open_stack' + length names)%nat.
Proof.
  revert open_stack. induction names as [|f names IH]; intros open_stack Hlen.
  - exists open_stack. split; [done|]. simpl. lia.
  - destruct open_stack as [|last_call open_stack]; [simpl in Hlen; lia|].
    cbn [map open_calls].
    change (is_op (cet_op (mk_return thread f line)) CET_OP_RETURN) with true.
    cbv iota. simpl in Hlen.
    destruct (py_eq (cet_display_name (mk_return thread f line)) last_call).
    + destruct (IH open_stack) as (s' & Hs' & Hl); [lia|].
      exists s'. split; [done|]. simpl. lia.
    + destruct (IH (last_call :: open_stack)) as (s' & Hs' & Hl); [simpl; lia|].
      exists s'. split; [done|]. simpl in *. lia.
Qed.

Lemma parse_call_line_after (st st' : pa_state) (line : string) (level : Z) (func : string) :
  parse_call_line st line level func = Ok st' ->
  exists n, (n <= length (stack st))%nat /\ st' = after_call_line st line level func n.
Proof.
  unfold parse_call_line, after_call_line, call_part.
  destruct (if level =? cur_level st then _ else _) as [e|[stk tr]] eqn:E; simpl; [done|].
  assert (exists n, pop_returns n (cur_thread st) line (stack st) (converted_error_trace st)
                    = Ok (stk, tr)) as [n Hn].
  { destruct (level =? cur_level st); [eauto|].
    destruct (level <? cur_level st); [eauto|]. by exists 0%nat. }
  apply pop_returns_inv in Hn as (Hle & -> & ->).
  destruct (String.eqb func CET_END); intros [= <-]; exists n; (split; [done|]);
    [by rewrite app_nil_r | by rewrite app_assoc].
Qed.

Lemma parse_line_open (st st' : pa_state) (raw : string) :
  parse_line st raw = Ok st' ->
  Forall plain_return (converted_error_trace st') ->
  pa_open st -> pa_open st'.
Proof.
  intros Hline Hplain (open_stack & Hopen & Hlen). unfold pa_open.
  destruct (parse_line_cases st raw)
    as [(g1 & g2 & g3 & _ & Heq)
       |[(g1 & g2 & g3 & g4 & _ & _ & Heq)
        |[(g1 & g2 & g3 & g4 & _ & _ & _ & Heq)|[_ Heq]]]];
    rewrite Heq in Hline.
  - apply parse_call_line_after in Hline as (n & Hn & ->).
    unfold after_call_line. cbn [converted_error_trace stack].
    rewrite open_calls_app, Hopen. cbv iota. rewrite open_calls_app.
    destruct (open_calls_returns (cur_thread st) g1 (take n (stack st)) open_stack)
      as (s' & -> & Hs'); [rewrite length_take; lia|].
    rewrite length_take in Hs'. unfold call_part.
    destruct (String.eqb g3 CET_END).
    + exists s'. split; [done|]. rewrite length_drop. lia.
    + exists (VStr g3 :: s'). split; [done|]. simpl. rewrite length_drop. lia.
  - injection Hline as <-. cbn [converted_error_trace stack].
    rewrite open_calls_app, Hopen. cbv iota. exists open_stack. done.
  - injection Hline as <-. cbn [converted_error_trace stack] in *.
    rewrite open_calls_app, Hopen. cbv iota. cbn [open_calls].
    apply Forall_app in Hplain as [_ Hnew]. apply Forall_inv in Hnew.
    unfold plain_return in Hnew.
    destruct (is_op (cet_op (mk_other (cur_thread st) g3 g4 g1)) CET_OP_RETURN).
    { by specialize (Hnew eq_refl). }
    destruct (is_op (cet_op (mk_other (cur_thread st) g3 g4 g1)) CET_OP_CALL).
    + eexists. split; [done|]. simpl. lia.
    + exists open_stack. done.
  - injection Hline as <-. exists open_stack. done.
Qed.

Lemma parse_lines_open (lines : list string) (st st' : pa_state) :
  parse_lines st lines = Ok st' ->
  Forall plain_return (converted_error_trace st') ->
  pa_open st -> pa_open st'.
Proof.
  revert st. induction lines as [|raw lines IH]; intros st; unfold parse_lines; simpl.
  - by intros [= <-].
  - destruct (parse_line st raw) as [e|st1] eqn:E; simpl; [done|].
    intros Hrest Hplain Hopen. apply (IH st1 Hrest Hplain).
    apply (parse_line_open st st1 raw E); [|done].
    apply parse_lines_emits in Hrest as (_ & new & Htr & _).
    rewrite Htr in Hplain. by apply Forall_app in Hplain as [? _].
Qed.

(** X10. A trace the parser returned is accepted by the printer, unless a
    line of the third shape gave it an element with the operation of a
    return: when its only return elements are the ones without a source,
    which the parser itself adds at the lines of calls, the printer
    returns a text for it. *)
Theorem parsed_trace_is_printed (text : string) (trace : list elem) :
  error_trace_pretty_parse text = Ok trace ->
  Forall plain_return trace ->
  exists printed, snd (error_trace_pretty_print trace) = Ok printed.
Proof.
  unfold error_trace_pretty_parse.
  destruct (parse_lines pa_init (splitlines text)) as [e|st] eqn:E; simpl; [done|].
  unfold parse_finish. destruct (negb _); [done|]. intros [= <-] Hplain.
  assert (pa_open pa_init) as Hinit by (exists []; done).
  destruct (parse_lines_open _ _ _ E Hplain Hinit) as (open_stack & Hopen & _).
  assert (Forall numeric_thread (converted_error_trace st)) as Hnum.
  { apply parse_lines_emits in E as (_ & new & -> & Hnew). simpl.
    eapply Forall_impl; [exact Hnew|]. intros e (_ & t & Ht & _).
    by apply (numeric_thread_int e t). }
  pose proof (open_calls_run DEBUG_ERROR_TRACE_COMPARISON _ Hnum pr_init) as Hrun.
  cbn [pr_stack pr_init] in Hrun. rewrite Hopen in Hrun.
  destruct Hrun as (st' & Hst & _).
  unfold error_trace_pretty_print, print_run. cbn [snd]. rewrite Hst. by eexists.
Qed.

Lemma parsed_trace_is_printed_witness :
  (exists trace,
     error_trace_pretty_parse ex_text_calls = Ok trace
     /\ length trace = 9%nat
     /\ exists printed, snd (error_trace_pretty_print trace) = Ok printed)
  /\ (exists trace,
        error_trace_pretty_parse ex_text_return = Ok trace
        /\ snd (error_trace_pretty_print trace) = Raise IndexError).
Proof.
  split.
  - eexists. split; [vm_compute; reflexivity|]. split; [reflexivity|].
    eapply (parsed_trace_is_printed ex_text_calls); [vm_compute; reflexivity|].
    repeat (constructor; [intros H; first [reflexivity | discriminate H]|]). constructor.
  - eexists. split; [vm_compute; reflexivity|]. vm_compute. reflexivity.
Defined.

(* ===================================================================== *)
(** * White space in the text to parse *)
(* ===================================================================== *)

Lemma rstrip_idemp (s : string) : rstrip (rstrip s) = rstrip s.
Proof.
  induction s as [|c s IH]; [done|]. cbn [rstrip].
  destruct (rstrip s) as [|d r] eqn:E.
  - destruct (is_space c) eqn:Hc; [done|]. cbn [rstrip]. by rewrite Hc.
  - cbn [rstrip] in *. by rewrite IH.
Qed.

Lemma lstrip_head (s : string) :
  lstrip s = "" \/ exists c s', lstrip s = String c s' /\ is_space c = false.
Proof.
  induction s as [|c s IH]; [by left|]. simpl.
  destruct (is_space c) eqn:Hc; [done|]. right. eauto.
Qed.

Lemma lstrip_rstrip (c : ascii) (s : string) :
  is_space c = false -> lstrip (rstrip (String c s)) = rstrip (String c s).
Proof.
  intros Hc. cbn [rstrip]. destruct (rstrip s); [rewrite Hc|]; simpl; by rewrite Hc.
Qed.

Lemma strip_idemp (s : string) : strip (strip s) = strip s.
Proof.
  unfold strip. destruct (lstrip_head s) as [->|(c & s' & -> & Hc)]; [done|].
  by rewrite lstrip_rstrip, rstrip_idemp.
Qed.

Lemma pa_same_refl (a : pa_state) : pa_same a a.
Proof. by repeat split. Qed.

Lemma joined_same (a b : pa_state) (raw : string) :
  pending a = pending b -> joined a raw = joined b raw.
Proof. intros H. unfold joined. by rewrite H. Qed.

Lemma parse_call_line_same (a b : pa_state) (line : string) (level : Z) (func : string) :
  pa_same a b ->
  same_result (parse_call_line a line level func) (parse_call_line b line level func).
Proof.
  intros (Htr & Hth & Hlv & Hst & Hp). unfold parse_call_line.
  rewrite Htr, Hth, Hlv, Hst.
  destruct (if level =? cur_level b then _ else _) as [e|[stk tr]]; simpl; [done|].
  destruct (String.eqb func CET_END); simpl; unfold pa_same, pending; simpl;
    by rewrite !pending_cleared.
Qed.

Lemma unmatched_cases (line : string) :
  unmatched line = true ->
  match_atoms re_call line = None /\ match_atoms re_assume line = None
  /\ match_atoms re_other line = None.
Proof.
  unfold unmatched.
  destruct (match_atoms re_call line); [done|].
  destruct (match_atoms re_assume line); [done|].
  by destruct (match_atoms re_other line).
Qed.

Lemma parse_line_joined (a b : pa_state) (raw raw' : string) :
  pa_same a b -> joined a raw = joined b raw' ->
  same_result (parse_line a raw) (parse_line b raw').
Proof.
  intros Hsame Hj. pose proof Hsame as (Htr & Hth & Hlv & Hst & Hp).
  destruct (parse_line_cases a raw)
    as [(g1 & g2 & g3 & Ha1 & ->)
       |[(g1 & g2 & g3 & g4 & Ha1 & Ha2 & ->)
        |[(g1 & g2 & g3 & g4 & Ha1 & Ha2 & Ha3 & ->)|[Ha ->]]]];
    [ | | | apply unmatched_cases in Ha as (Ha1 & Ha2 & Ha3)];
    (destruct (parse_line_cases b raw')
      as [(h1 & h2 & h3 & Hb1 & ->)
         |[(h1 & h2 & h3 & h4 & Hb1 & Hb2 & ->)
          |[(h1 & h2 & h3 & h4 & Hb1 & Hb2 & Hb3 & ->)|[Hb ->]]]];
     [ | | | apply unmatched_cases in Hb as (Hb1 & Hb2 & Hb3)]);
    rewrite Hj in *; try congruence.
  - assert (h1 = g1 /\ h2 = g2 /\ h3 = g3) as (-> & -> & ->)
      by (rewrite Ha1 in Hb1; by injection Hb1 as -> -> ->).
    by apply parse_call_line_same.
  - assert (h1 = g1 /\ h3 = g3 /\ h4 = g4) as (-> & -> & ->)
      by (rewrite Ha2 in Hb2; by injection Hb2 as -> _ -> ->).
    unfold same_result, pa_same, pending. simpl.
    by rewrite Htr, Hth, Hlv, Hst, !pending_cleared.
  - assert (h1 = g1 /\ h3 = g3 /\ h4 = g4) as (-> & -> & ->)
      by (rewrite Ha3 in Hb3; by injection Hb3 as -> _ -> ->).
    unfold same_result, pa_same, pending. simpl.
    by rewrite Htr, Hth, Hlv, Hst, !pending_cleared.
  - unfold same_result, pa_same, pending. simpl. done.
Qed.

Lemma parse_lines_same (lines : list string) (a b : pa_state) :
  pa_same a b -> same_result (parse_lines a lines) (parse_lines b lines).
Proof.
  unfold parse_lines. revert a b. induction lines as [|raw lines IH]; intros a b Hsame.
  - done.
  - pose proof (parse_line_joined a b raw raw Hsame
                  (joined_same a b raw (proj2 (proj2 (proj2 (proj2 Hsame)))))) as H.
    simpl. destruct (parse_line a raw) as [e|a'], (parse_line b raw) as [e'|b']; try done.
    simpl. by apply IH.
Qed.

Lemma parse_line_blank (st : pa_state) (raw : string) :
  pending_unmatched st -> strip raw = "" ->
  exists st', parse_line st raw = Ok st' /\ pa_same st' st.
Proof.
  intros Hinv Hblank.
  assert (joined st raw = pending st) as Hj.
  { unfold joined. rewrite Hblank.
    destruct (String.eqb_spec (pending st) "") as [->|]; simpl; [done|apply sapp_nil_r]. }
  assert (unmatched (joined st raw) = true) as Hun.
  { rewrite Hj. destruct (String.eqb_spec (pending st) "") as [->|Hne]; [done|by apply Hinv]. }
  destruct (parse_line_cases st raw)
    as [(g1 & g2 & g3 & H1 & _)
       |[(g1 & g2 & g3 & g4 & _ & H2 & _)
        |[(g1 & g2 & g3 & g4 & _ & _ & H3 & _)|[_ ->]]]];
    try (apply unmatched_cases in Hun as (? & ? & ?); congruence).
  eexists. split; [done|]. unfold pa_same, pending. simpl. by rewrite Hj.
Qed.

Lemma parse_line_keeps_unmatched (st st' : pa_state) (raw : string) :
  parse_line st raw = Ok st' -> pending_unmatched st'.
Proof.
  intros H Hne. destruct (parse_line_pending _ _ _ H Hne) as [Hun ->]. done.
Qed.

Lemma parse_finish_same (a b : pa_state) :
  pa_same a b -> parse_finish a = parse_finish b.
Proof. intros (Htr & _ & _ & _ & Hp). unfold parse_finish. by rewrite Htr, Hp. Qed.

Lemma parse_text_lines_from (lines : list string) (a b : pa_state) :
  pa_same a b -> pending_unmatched a ->
  (let! st := parse_lines a lines in parse_finish st)
  = (let! st := parse_lines b (text_lines lines) in parse_finish st).
Proof.
  unfold parse_lines, text_lines.
  revert a b. induction lines as [|raw lines IH]; intros a b Hsame Hinv.
  - simpl. by apply parse_finish_same.
  - cbn [map]. destruct (decide (strip raw = "")) as [Hblank|Hne].
    + rewrite filter_cons_False by (by intros ?).
      destruct (parse_line_blank a raw Hinv Hblank) as (a' & Ha & Hsame').
      cbn [rfold]. rewrite Ha. cbn [rbind Ok]. apply IH.
      * destruct Hsame' as (? & ? & ? & ? & ?), Hsame as (? & ? & ? & ? & ?).
        repeat split; congruence.
      * by apply (parse_line_keeps_unmatched a a' raw).
    + rewrite filter_cons_True by done. cbn [rfold].
      assert (joined a raw = joined b (strip raw)) as Hj.
      { unfold joined. rewrite strip_idemp.
        by rewrite (proj2 (proj2 (proj2 (proj2 Hsame)))). }
      pose proof (parse_line_joined a b raw (strip raw) Hsame Hj) as H.
      destruct (parse_line a raw) as [e|a'] eqn:Ea,
               (parse_line b (strip raw)) as [e'|b'] eqn:Eb; try done.
      * simpl in *. by subst.
      * cbn [rbind]. apply IH; [done|]. by apply (parse_line_keeps_unmatched a a' raw).
Qed.

Lemma parse_text_lines_stripped (lines : list string) :
  parse_text_lines lines = parse_text_lines (text_lines lines).
Proof.
  apply parse_text_lines_from; [apply pa_same_refl | done].
Qed.

(** X11. The parser reads a text through its lines, stripped, the empty
    ones left out: two texts that agree there are parsed alike, to the
    same trace or to the same exception, whatever breaks their lines and
    whether or not the last line is closed.  So white space around a
    line, and an empty line anywhere, change nothing. *)
Theorem parser_ignores_white_space (text1 text2 : string) :
  text_lines (splitlines text1) = text_lines (splitlines text2) ->
  error_trace_pretty_parse text1 = error_trace_pretty_parse text2.
Proof.
  intros Heq.
  change (parse_text_lines (splitlines text1) = parse_text_lines (splitlines text2)).
  by rewrite (parse_text_lines_stripped (splitlines text1)),
             (parse_text_lines_stripped (splitlines text2)), Heq.
Qed.

Lemma parser_ignores_white_space_witness :
  text_lines (splitlines ex_text_spaced) = ex_lines_plain
  /\ error_trace_pretty_parse ex_text_spaced
     = error_trace_pretty_parse (unlines ex_lines_plain)
  /\ error_trace_pretty_parse ex_text_spaced
     = Ok [ mk_call 0 "main" "1"; mk_call 0 "f" "2"; mk_assume 0 "x > 0" false "3";
            mk_return 0 "f" "0"; mk_return 0 "main" "0" ].
Proof.
  split; [reflexivity|]. split; [|reflexivity].
  apply (parser_ignores_white_space ex_text_spaced (unlines ex_lines_plain)).
  reflexivity.
Defined.

(* ===================================================================== *)
(** * The elements the parser builds *)
(* ===================================================================== *)

Lemma groups_of_cons (a : atom) (pat : list atom) :
  groups_of (a :: pat) = if a_group a then a :: groups_of pat else groups_of pat.
Proof. unfold groups_of. rewrite filter_cons. by destruct (a_group a). Qed.

Lemma match_atoms_classes (pat : list atom) (s : string) (gs : list string) :
  match_atoms pat s = Some gs -> Forall2 group_ok (groups_of pat) gs.
Proof.
  revert s gs. induction pat as [|a pat IH]; intros s gs.
  - simpl. destruct (at_end s); intros [= <-]. constructor.
  - cbn [match_atoms]. rewrite groups_of_cons.
    assert (forall m rest gs,
      str_forallb (a_cls a) m = true ->
      (a_quant a = One \/ a_quant a = Plus -> m <> "") ->
      (if a_group a then cons m else (fun gs => gs)) <$> match_atoms pat rest = Some gs ->
      Forall2 group_ok (if a_group a then a :: groups_of pat else groups_of pat) gs) as Hk.
    { intros m rest gs' Hm Hne. destruct (match_atoms pat rest) as [gs''|] eqn:E; [|done].
      simpl. intros [= <-]. apply IH in E.
      destruct (a_group a); [constructor; [by split|done] | done]. }
    destruct (a_quant a) eqn:Hq.
    + destruct s as [|c s]; [done|]. destruct (a_cls a c) eqn:Hc; [|done].
      apply Hk; [simpl; by rewrite Hc | done].
    + intros (m & rest & _ & Hm & H)%greedy_inv.
      apply (Hk m rest gs Hm); [|done]. by intros [?|?].
    + destruct s as [|c s]; [done|]. destruct (a_cls a c) eqn:Hc; [|done].
      intros (m & rest & _ & Hm & H)%greedy_inv.
      apply (Hk (String c m) rest); [simpl; by rewrite Hc | done | done].
    + assert (forall rest gs,
        (if a_group a then cons "" else (fun gs => gs)) <$> match_atoms pat rest = Some gs ->
        Forall2 group_ok (if a_group a then a :: groups_of pat else groups_of pat) gs)
        as Hnone.
      { intros rest gs'. apply Hk; [done|]. by intros [?|?]. }
      destruct s as [|c s]; [apply Hnone|].
      destruct (a_cls a c) eqn:Hc; [|apply Hnone].
      destruct (_ <$> match_atoms pat s) eqn:E; [|apply Hnone].
      intros [= <-]. apply (Hk (String c "") s); [simpl; by rewrite Hc | done | done].
Qed.

Lemma is_digits_group (a : atom) (g : string) :
  a_cls a = is_digit -> a_quant a = Plus -> group_ok a g -> is_digits g = true.
Proof.
  intros Hc Hq [Hall Hne]. rewrite Hc in Hall. unfold is_digits. rewrite Hall.
  rewrite andb_true_r. apply negb_true_iff, String.eqb_neq, Hne. by right.
Qed.

Lemma re_call_classes (line g1 g2 g3 : string) :
  match_atoms re_call line = Some [g1; g2; g3] ->
  is_digits g1 = true /\ g3 <> "" /\ str_forallb is_word g3 = true.
Proof.
  intros H%match_atoms_classes.
  change (groups_of re_call)
    with [ Atom is_digit Plus true; Atom (Ascii.eqb " ") Star true;
           Atom is_word Plus true ] in H.
  apply Forall2_cons in H as [H1 H]. apply Forall2_cons in H as [_ H].
  apply Forall2_cons in H as [[H3 H3'] _].
  split; [exact (is_digits_group (Atom is_digit Plus true) g1 eq_refl eq_refl H1)|].
  split; [apply H3'; by right | exact H3].
Qed.

Lemma re_assume_classes (line g1 g2 g3 g4 : string) :
  match_atoms re_assume line = Some [g1; g2; g3; g4] ->
  is_digits g1 = true /\ g4 <> "".
Proof.
  intros H%match_atoms_classes.
  change (groups_of re_assume)
    with [ Atom is_digit Plus true; Atom (Ascii.eqb " ") Star true;
           Atom (Ascii.eqb "!") Opt true; Atom is_dot Plus true ] in H.
  apply Forall2_cons in H as [H1 H]. apply Forall2_cons in H as [_ H].
  apply Forall2_cons in H as [_ H]. apply Forall2_cons in H as [[_ H4] _].
  split; [exact (is_digits_group (Atom is_digit Plus true) g1 eq_refl eq_refl H1)|].
  apply H4. by right.
Qed.

Lemma re_other_classes (line g1 g2 g3 g4 : string) :
  match_atoms re_other line = Some [g1; g2; g3; g4] ->
  is_digits g1 = true /\ g3 <> "" /\ str_forallb is_word g3 = true /\ g4 <> "".
Proof.
  intros H%match_atoms_classes.
  change (groups_of re_other)
    with [ Atom is_digit Plus true; Atom (Ascii.eqb " ") Star true;
           Atom is_word Plus true; Atom is_dot Plus true ] in H.
  apply Forall2_cons in H as [H1 H]. apply Forall2_cons in H as [_ H].
  apply Forall2_cons in H as [[H3 H3'] H]. apply Forall2_cons in H as [[_ H4] _].
  split; [exact (is_digits_group (Atom is_digit Plus true) g1 eq_refl eq_refl H1)|].
  split; [apply H3'; by right|]. split; [exact H3|]. apply H4. by right.
Qed.

Lemma parse_line_shape (st st' : pa_state) (raw : string) :
  parse_line st raw = Ok st' -> pa_shape st -> pa_shape st'.
Proof.
  intros Hline [Htr Hst]. unfold pa_shape.
  destruct (parse_line_cases st raw)
    as [(g1 & g2 & g3 & Hm & Heq)
       |[(g1 & g2 & g3 & g4 & _ & Hm & Heq)
        |[(g1 & g2 & g3 & g4 & _ & _ & Hm & Heq)|[_ Heq]]]];
    rewrite Heq in Hline.
  - apply re_call_classes in Hm as (Hd & Hne & Hw).
    apply parse_call_line_after in Hline as (n & Hn & ->).
    unfold after_call_line, call_part. cbn [converted_error_trace stack].
    assert (Forall parsed_elem
              (map (fun ret_func => mk_return (cur_thread st) ret_func g1)
                   (take n (stack st)))) as Hret.
    { apply Forall_forall. intros e (f & -> & Hf)%list_elem_of_fmap.
      exists (cur_thread st), g1. split; [done|]. left. exists f. split; [|by right].
      pose proof (Forall_take _ n _ Hst) as Htake.
      by apply (proj1 (Forall_forall _ _) Htake). }
    destruct (String.eqb_spec g3 CET_END) as [Hend|Hend].
    + split; [|by apply Forall_drop].
      apply Forall_app. split; [done|]. apply Forall_app. by split.
    + assert (is_name g3 = true) as Hname.
      { unfold is_name. rewrite Hw.
        apply String.eqb_neq in Hne as ->. by apply String.eqb_neq in Hend as ->. }
      split; [|constructor; [done|by apply Forall_drop]].
      apply Forall_app. split; [done|]. apply Forall_app. split; [done|].
      constructor; [|done]. exists (cur_thread st), g1. split; [done|].
      left. exists g3. split; [done|by left].
  - apply re_assume_classes in Hm as (Hd & Hne).
    injection Hline as <-. cbn [converted_error_trace stack]. split; [|done].
    apply Forall_app. split; [done|]. constructor; [|done].
    exists (cur_thread st), g1. split; [done|]. right. left. eauto.
  - apply re_other_classes in Hm as (Hd & Hne & Hw & Hne').
    injection Hline as <-. cbn [converted_error_trace stack]. split; [|done].
    apply Forall_app. split; [done|]. constructor; [|done].
    exists (cur_thread st), g1. split; [done|]. right. right. eauto 10.
  - injection Hline as <-. done.
Qed.

Lemma parse_lines_shape (lines : list string) (st st' : pa_state) :
  parse_lines st lines = Ok st' -> pa_shape st -> pa_shape st'.
Proof.
  unfold parse_lines. revert st. induction lines as [|raw lines IH]; intros st; simpl.
  - by intros [= <-].
  - destruct (parse_line st raw) as [e|st1] eqn:E; simpl; [done|].
    intros Hrest Hshape. apply (IH st1 Hrest). by apply (parse_line_shape st st1 raw).
Qed.

Lemma parsed_elem_line (e : elem) :
  parsed_elem e ->
  exists line, cet_line e = VStr line /\ is_digits line = true.
Proof.
  intros (thread & line & Hd & [(f & _ & [->| ->])|[(a & b & _ & ->)|(op & t & _ & _ & _ & ->)]]);
    by exists line.
Qed.

(** X12. Every element of a parsed trace is a call or a return with a
    name of word characters other than the end marker, an assume with a
    source that is not empty, or an element with a word as operation and
    a text that is not empty; its line is the string of decimal digits
    read from the text.  So [int] accepts the line, and the line equals no
    integer: the line numbers of a trace come back from the text as
    strings. *)
Theorem parsed_elements_shape (text : string) (trace : list elem) :
  error_trace_pretty_parse text = Ok trace ->
  Forall (fun e => parsed_elem e
                   /\ (exists n, py_int (cet_line e) = Ok n)
                   /\ (forall z, py_eq (cet_line e) (VInt z) = false)) trace.
Proof.
  unfold error_trace_pretty_parse.
  destruct (parse_lines pa_init (splitlines text)) as [e|st] eqn:E; simpl; [done|].
  unfold parse_finish. destruct (negb _); [done|]. intros [= <-].
  assert (pa_shape pa_init) as Hinit by (split; constructor).
  destruct (parse_lines_shape _ _ _ E Hinit) as [Hall _].
  eapply Forall_impl; [exact Hall|]. intros e He. split; [done|].
  destruct (parsed_elem_line e He) as (line & -> & Hd).
  split; [|done].
  apply andb_true_iff in Hd as [Hne Hd]. apply negb_true_iff, String.eqb_neq in Hne.
  destruct (int_of_str_digits line Hne Hd) as [n Hn].
  exists n. simpl. by rewrite Hn.
Qed.

Lemma parsed_elements_shape_witness :
  exists trace,
    error_trace_pretty_parse ex_text_calls = Ok trace
    /\ Forall (fun e => parsed_elem e
                        /\ (exists n, py_int (cet_line e) = Ok n)
                        /\ (forall z, py_eq (cet_line e) (VInt z) = false)) trace
    /\ map cet_line trace
       = map VStr ["1"; "2"; "3"; "4"; "5"; "5"; "5"; "5"; "0"].
Proof.
  eexists. split; [vm_compute; reflexivity|].
  split; [|reflexivity].
  apply (parsed_elements_shape ex_text_calls). vm_compute. reflexivity.
Defined.

(* ===================================================================== *)
(** * Texts the parser does not fail on *)
(* ===================================================================== *)

Lemma parse_call_line_deep (st : pa_state) (line : string) (level : Z) (func : string) :
  pa_deep st -> 0 <= level <= cur_level st + 1 ->
  exists st', parse_call_line st line level func = Ok st' /\ pa_deep st'.
Proof.
  intros [Hlow Hdeep] Hlevel.
  set (n := if level =? cur_level st then 1%nat
            else if level <? cur_level st then Z.to_nat (cur_level st - level + 1)
            else 0%nat).
  assert ((n <= length (stack st))%nat) as Hn.
  { unfold n. destruct (Z.eqb_spec level (cur_level st)); [lia|].
    destruct (Z.ltb_spec level (cur_level st)); lia. }
  exists (after_call_line st line level func n). split.
  - apply parse_call_line_popped; [|done]. unfold n.
    destruct (level =? cur_level st); [done|].
    by destruct (level <? cur_level st).
  - unfold pa_deep, after_call_line. cbn [cur_level stack].
    destruct (String.eqb func CET_END); [lia|].
    cbn [length]. rewrite length_drop. unfold n in *.
    destruct (Z.eqb_spec level (cur_level st)); [lia|].
    destruct (Z.ltb_spec level (cur_level st)); lia.
Qed.

Lemma parse_line_deep (st : pa_state) (raw : string) :
  pa_deep st ->
  (forall g1 g2 g3,
     match_atoms re_call (joined st raw) = Some [g1; g2; g3] ->
     len g2 <= cur_level st + 1) ->
  exists st', parse_line st raw = Ok st' /\ pa_deep st'.
Proof.
  intros Hdeep Hstep.
  destruct (parse_line_cases st raw)
    as [(g1 & g2 & g3 & Hm & ->)
       |[(g1 & g2 & g3 & g4 & _ & _ & ->)
        |[(g1 & g2 & g3 & g4 & _ & _ & _ & ->)|[_ ->]]]].
  - apply parse_call_line_deep; [done|]. split; [apply len_nonneg | by apply (Hstep g1 g2 g3)].
  - eexists. split; [done|]. done.
  - eexists. split; [done|]. done.
  - eexists. split; [done|]. done.
Qed.

Lemma parse_lines_deep (lines : list string) (st0 : pa_state) :
  pa_deep st0 -> steps_by_one st0 lines ->
  exists st, parse_lines st0 lines = Ok st /\ pa_deep st.
Proof.
  revert st0. induction lines as [|raw lines IH]; intros st0 Hdeep Hsteps.
  - by exists st0.
  - destruct (parse_line_deep st0 raw Hdeep) as (st1 & Hline & Hdeep1).
    { intros g1 g2 g3. by apply (Hsteps [] raw lines st0). }
    destruct (IH st1 Hdeep1) as (st & Hrest & Hdeep').
    { intros pre raw' rest st g1 g2 g3 -> Hpre.
      apply (Hsteps (raw :: pre) raw' rest st g1 g2 g3); [done|].
      unfold parse_lines in *. simpl. by rewrite Hline. }
    exists st. split; [|done]. unfold parse_lines in *. simpl. by rewrite Hline.
Qed.

(** X13. A text in which no line of the first shape stands more than one
    level below the call before it is read to its end: the stack of the
    parser then holds a name for every level down to the last call, no
    [pop] fails, and the only exception the text can give is the parse
    error after the last line. *)
Theorem steps_by_one_parse (text : string) :
  steps_by_one pa_init (splitlines text) ->
  exists st,
    parse_lines pa_init (splitlines text) = Ok st
    /\ cur_level st + 1 <= Z.of_nat (length (stack st))
    /\ error_trace_pretty_parse text = parse_finish st
    /\ error_trace_pretty_parse text <> Raise IndexError.
Proof.
  intros Hsteps.
  destruct (parse_lines_deep (splitlines text) pa_init) as (st & Hrun & _ & Hdeep);
    [by split | done |].
  exists st. split; [done|]. split; [done|].
  unfold error_trace_pretty_parse. rewrite Hrun. split; [done|].
  cbn [rbind Ok]. unfold parse_finish. by destruct (negb _).
Qed.

Lemma steps_by_one_parse_witness :
  exists st,
    parse_lines pa_init (splitlines ex_text_steps) = Ok st
    /\ cur_level st + 1 <= Z.of_nat (length (stack st))
    /\ error_trace_pretty_parse ex_text_steps = parse_finish st
    /\ error_trace_pretty_parse ex_text_steps <> Raise IndexError.
Proof.
  apply (steps_by_one_parse ex_text_steps).
  change (splitlines ex_text_steps) with [ "1|main"; "2| f"; "3|  g"; "4|h" ].
  intros pre raw rest st g1 g2 g3 Hsplit Hpre Hm.
  destruct pre as [|l1 [|l2 [|l3 [|l4 [|l5 pre]]]]]; try discriminate Hsplit;
    injection Hsplit as <-; intros; subst;
    vm_compute in Hpre; injection Hpre as <-;
    vm_compute in Hm; injection Hm as <- <- <-; vm_compute; discriminate.
Defined.
